(** * openapi-docs: the normalization pipeline and the hooks built on it

    A shallow embedding of the TypeScript sources of [@openapi-docs/ui]:
    - [parsing/parseOpenApi.ts]: [parseSpecString], [extractEndpoints],
      [normalizeEndpoint] and the helpers below it, [resolveReference],
      [findEndpointById];
    - [hooks/useApiLoader.ts]: [loadFromUrl], [loadSpec];
    - [hooks/useSearch.ts]: [fuzzyMatch], [searchInEndpoint],
      [filteredResults];
    - [hooks/useExecuteOperation.ts] and [hooks/useCodeSnippet.ts]: the two
      [buildUrl] functions, [generateAuthHeaders], [generateCurl];
    - further down, the rest of these files: [findEndpointByMethodAndPath],
      [filterEndpointsByTag], [groupEndpointsByTag]; [reload] and the cache
      of the loader; the filter state of [useSearch]; the generators of the
      other languages, [generateForEndpoint] and [generate]; [executeById]
      and [execute]; and the lookups of [context/ApiProvider.tsx] with the
      hooks [useEndpoint] and [useEndpoints] that read them.

    Documents are JavaScript values; a function that can throw returns a
    [Res]; recursion through [$ref] pointers is bounded by fuel.  A string
    is the list of its characters and the model is exact on ASCII text; the
    numbers of a document are integers.  The scores of the search are
    modelled twice: in exact arithmetic, as rationals, in [Search], and as
    the binary64 numbers the code computes with in [Search64].  What the
    platform provides ([JSON.parse], js-yaml, [fetch], [URL], [btoa],
    [JSON.stringify]) is a parameter; the examples run on a host that
    follows the standards.  A member that a value inherits from a built-in
    prototype is no value of the model: where a pointer of the document
    leads to one, the run is not followed. *)

From stdpp Require Import base option list strings gmap numbers pretty sorting.
From Stdlib Require Import ZArith String Ascii List Lia QArith Qcanon Floats Uint63.

Open Scope string_scope.
Set Warnings "-register-all".

(** ** JavaScript values and the operations the sources use on them *)

Module JS.

(** A value as [JSON.parse] or [yaml.load] builds it, or as an object literal
    of the caller gives it.  Numbers are the integers; an object is the list
    of its own properties in enumeration order, with distinct keys.  A
    number is a double in the code: the integers it holds one by one, and
    prints digit by digit, are the safe ones. *)
Inductive Value : Type :=
| VUndef
| VNull
| VBool (b : bool)
| VNum (n : Z)
| VStr (s : string)
| VArr (xs : list Value)
| VObj (fields : list (string * Value)).


Inductive Exn : Type :=
| Error (msg : string)
| TypeError (msg : string)
| SyntaxError (msg : string)
| YAMLException (msg : string).

Definition message (e : Exn) : string :=
  match e with
  | Error m | TypeError m | SyntaxError m | YAMLException m => m
  end.

(** The outcome of running a function: it returns, it throws, or the model
    does not follow the run to its end: the bound on the depth of recursion
    was reached, or the run left the part of the host that is modelled. *)
Inductive Res (A : Type) : Type :=
| Ok (a : A)
| Throw (e : Exn)
| OutOfFuel.
Arguments Ok {A} a.
Arguments Throw {A} e.
Arguments OutOfFuel {A}.

#[global] Instance Res_ret : MRet Res := fun _ a => Ok a.
#[global] Instance Res_bind : MBind Res := fun _ _ f m =>
  match m with
  | Ok a => f a
  | Throw e => Throw e
  | OutOfFuel => OutOfFuel
  end.

(** [r'] is the outcome [r], unless [r] met the bound first: how the
    outcomes of one run under a smaller and a larger bound compare. *)
Definition upTo {A} (r r' : Res A) : Prop := r = OutOfFuel \/ r = r'.

(** [xs.map(f)] with a callback that can throw. *)
Fixpoint mapRes {A B} (f : A -> Res B) (xs : list A) : Res (list B) :=
  match xs with
  | [] => Ok []
  | x :: xs' => y ← f x; ys ← mapRes f xs'; mret (y :: ys)
  end.

(** [for (const x of xs) body], threading the variables the body assigns. *)
Fixpoint forEach {A S} (body : S -> A -> Res S) (xs : list A) (s : S) : Res S :=
  match xs with
  | [] => Ok s
  | x :: xs' => s' ← body s x; forEach body xs' s'
  end.

(** ToBoolean. *)
Definition truthy (v : Value) : bool :=
  match v with
  | VUndef | VNull | VBool false | VStr "" => false
  | VNum n => negb (n =? 0)%Z
  | _ => true
  end.

Definition nullish (v : Value) : bool :=
  match v with VUndef | VNull => true | _ => false end.

(** [a || b] *)
Definition or_else (a b : Value) : Value := if truthy a then a else b.

Definition isUndefined (v : Value) : bool :=
  match v with VUndef => true | _ => false end.

(** [typeof v === "object" && v !== null] *)
Definition isObjectValue (v : Value) : bool :=
  match v with VObj _ | VArr _ => true | _ => false end.

Fixpoint lookupField (k : string) (fields : list (string * Value)) : option Value :=
  match fields with
  | [] => None
  | (k', v) :: rest => if String.eqb k k' then Some v else lookupField k rest
  end.

Definition digitVal (c : ascii) : option nat :=
  let n := nat_of_ascii c in
  if (48 <=? n)%nat && (n <=? 57)%nat then Some (n - 48)%nat else None.

Fixpoint digitsVal (acc : nat) (s : string) : option nat :=
  match s with
  | EmptyString => Some acc
  | String c s' =>
      match digitVal c with
      | Some d => digitsVal (10 * acc + d) s'
      | None => None
      end
  end.

(** A property key that is an array index: a canonical decimal numeral. *)
Definition parseIndex (k : string) : option nat :=
  match k with
  | EmptyString => None
  | _ => match digitsVal 0 k with
         | Some n => if String.eqb (pretty n) k then Some n else None
         | None => None
         end
  end.

Fixpoint charAt (s : string) (i : nat) : option ascii :=
  match s, i with
  | EmptyString, _ => None
  | String c _, O => Some c
  | String _ s', S i' => charAt s' i'
  end.

(** The own property [k] of a value that is not null or undefined, if it
    has one.  Arrays and strings own their indices and [length]. *)
Definition ownProp (v : Value) (k : string) : option Value :=
  match v with
  | VObj fields => lookupField k fields
  | VArr xs =>
      if String.eqb k "length" then Some (VNum (Z.of_nat (length xs)))
      else match parseIndex k with
           | Some i => xs !! i
           | None => None
           end
  | VStr s =>
      if String.eqb k "length" then Some (VNum (Z.of_nat (String.length s)))
      else match parseIndex k with
           | Some i => (fun c => VStr (String c EmptyString)) <$> charAt s i
           | None => None
           end
  | _ => None
  end.

(** [v.k], and [v[k]] for a method name [k]: a key that is written in the
    code.  None of these keys names a member of a built-in prototype, so
    the value is that of the own property, or [undefined]. *)
Definition getProp (v : Value) (k : string) : Res Value :=
  match v with
  | VUndef =>
      Throw (TypeError ("Cannot read properties of undefined (reading '" +:+ k +:+ "')"))
  | VNull =>
      Throw (TypeError ("Cannot read properties of null (reading '" +:+ k +:+ "')"))
  | _ => Ok (default VUndef (ownProp v k))
  end.

(** [v?.k] *)
Definition getPropOpt (v : Value) (k : string) : Value :=
  match v with
  | VUndef | VNull => VUndef
  | _ => default VUndef (ownProp v k)
  end.

(** The names of the members of [Object.prototype], which every value
    other than [null] and [undefined] inherits. *)
Definition objectPrototype : list string :=
  ["constructor"; "__proto__"; "hasOwnProperty"; "isPrototypeOf";
   "propertyIsEnumerable"; "toLocaleString"; "toString"; "valueOf";
   "__defineGetter__"; "__defineSetter__"; "__lookupGetter__"; "__lookupSetter__"].

(** [v[k]] for a key [k] that the document supplies.  An own property
    comes first.  A member inherited from [Object.prototype] is a function,
    or the prototype itself, and no value of this model: a run that reads
    one is not followed.  Nor is a run that reads, from an array, a string,
    a number or a boolean, a key that is neither an own property nor an
    index: the members of their prototypes differ from one version of the
    language to the next. *)
Definition getComputed (v : Value) (k : string) : Res Value :=
  match v with
  | VUndef | VNull => getProp v k
  | _ =>
      match ownProp v k with
      | Some x => Ok x
      | None =>
          if bool_decide (k ∈ objectPrototype) then OutOfFuel
          else match v, parseIndex k with
               | VObj _, _ | _, Some _ => Ok VUndef
               | _, None => OutOfFuel
               end
      end
  end.

(** [k in v] for a [v] that [isObjectValue] accepts and a [k] that no
    prototype defines. *)
Definition hasProp (k : string) (v : Value) : bool :=
  match ownProp v k with Some _ => true | None => false end.

Fixpoint charsOf (s : string) : list Value :=
  match s with
  | EmptyString => []
  | String c s' => VStr (String c EmptyString) :: charsOf s'
  end.

Definition indexed (xs : list Value) : list (string * Value) :=
  imap (fun i x => (pretty i, x)) xs.

(** [Object.entries(v)] *)
Definition entries (v : Value) : Res (list (string * Value)) :=
  match v with
  | VUndef | VNull => Throw (TypeError "Cannot convert undefined or null to object")
  | VObj fields => Ok fields
  | VArr xs => Ok (indexed xs)
  | VStr s => Ok (indexed (charsOf s))
  | VBool _ | VNum _ => Ok []
  end.

(** The receiver of [v.map(...)]: only arrays have a [map]. *)
Definition asArray (v : Value) : Res (list Value) :=
  match v with
  | VArr xs => Ok xs
  | VUndef => Throw (TypeError "Cannot read properties of undefined (reading 'map')")
  | VNull => Throw (TypeError "Cannot read properties of null (reading 'map')")
  | _ => Throw (TypeError "map is not a function")
  end.

(** [a === b] on primitive values.  Objects and arrays are equal only to
    themselves, an identity this value model does not carry: two of them
    compare unequal here. *)
Definition strictEq (a b : Value) : bool :=
  match a, b with
  | VUndef, VUndef | VNull, VNull => true
  | VBool x, VBool y => Bool.eqb x y
  | VNum x, VNum y => (x =? y)%Z
  | VStr x, VStr y => String.eqb x y
  | _, _ => false
  end.

Definition isPrimitive (v : Value) : bool := negb (isObjectValue v).

(** *** Strings *)

Fixpoint dropString (n : nat) (s : string) : string :=
  match n, s with
  | O, _ => s
  | S n', String _ s' => dropString n' s'
  | S _, EmptyString => EmptyString
  end.

(** The text before and after the first occurrence of [pat] in [s]. *)
Fixpoint splitFirst (pat s : string) : option (string * string) :=
  if String.prefix pat s then Some (EmptyString, dropString (String.length pat) s)
  else match s with
       | EmptyString => None
       | String c s' =>
           match splitFirst pat s' with
           | Some (a, b) => Some (String c a, b)
           | None => None
           end
       end.

(** [s.includes(pat)] *)
Definition includes (pat s : string) : bool :=
  match splitFirst pat s with Some _ => true | None => false end.

Definition dollar : ascii := "$"%char.

(** GetSubstitution for a string pattern (no capture groups): [$$], [$&],
    [$`] and [$'] are expanded, every other character stands for itself. *)
Fixpoint getSubstitution (matched before after replacement : string) : string :=
  match replacement with
  | EmptyString => EmptyString
  | String "$" (String "$" r) => "$" +:+ getSubstitution matched before after r
  | String "$" (String "&" r) => matched +:+ getSubstitution matched before after r
  | String "$" (String "`" r) => before +:+ getSubstitution matched before after r
  | String "$" (String "'" r) => after +:+ getSubstitution matched before after r
  | String c r => String c (getSubstitution matched before after r)
  end.

(** [s.replace(pat, replacement)] with a string [pat]: the first
    occurrence only. *)
Definition replace (pat replacement s : string) : string :=
  match splitFirst pat s with
  | Some (a, b) => a +:+ getSubstitution pat a b replacement +:+ b
  | None => s
  end.

(** [s.split(sep)] for a one-character separator. *)
Fixpoint split (sep : ascii) (s : string) : list string :=
  match s with
  | EmptyString => [EmptyString]
  | String c s' =>
      if Ascii.eqb c sep then EmptyString :: split sep s'
      else match split sep s' with
           | seg :: segs => String c seg :: segs
           | [] => [String c EmptyString]
           end
  end.

Definition mapString (f : ascii -> ascii) : string -> string :=
  fix go s := match s with
              | EmptyString => EmptyString
              | String c s' => String (f c) (go s')
              end.

Definition isUpper (c : ascii) : bool :=
  let n := nat_of_ascii c in (65 <=? n)%nat && (n <=? 90)%nat.
Definition isLower (c : ascii) : bool :=
  let n := nat_of_ascii c in (97 <=? n)%nat && (n <=? 122)%nat.
Definition isDigit (c : ascii) : bool :=
  let n := nat_of_ascii c in (48 <=? n)%nat && (n <=? 57)%nat.

(** [toUpperCase] and [toLowerCase] on the ASCII letters; other characters
    are kept. *)
Definition toUpperCase : string -> string :=
  mapString (fun c => if isLower c then ascii_of_nat (nat_of_ascii c - 32) else c).
Definition toLowerCase : string -> string :=
  mapString (fun c => if isUpper c then ascii_of_nat (nat_of_ascii c + 32) else c).

(** [s.replace(/[^a-zA-Z0-9]/g, "_")] *)
Definition replaceNonAlnum : string -> string :=
  mapString (fun c => if isUpper c || isLower c || isDigit c then c else "_"%char).

End JS.

(** ** parsing/parseOpenApi.ts *)

Module Parsing.
Import JS.

Inductive HttpMethod : Type :=
| Get | Post | Put | Delete | Patch | Options | Head | Trace.

(** The string a method is in the source. *)
Definition methodName (m : HttpMethod) : string :=
  match m with
  | Get => "get" | Post => "post" | Put => "put" | Delete => "delete"
  | Patch => "patch" | Options => "options" | Head => "head" | Trace => "trace"
  end.

(** The objects the normalizer builds.  TypeScript's types are erased when
    the code runs and the normalizer copies members of the document without
    looking at them, so a copied member is a [Value]. *)
Inductive NormalizedSchema : Type := mkNormalizedSchema {
  schema_type : Value;
  schema_format : Value;
  schema_description : Value;
  schema_example : Value;
  schema_enum : Value;
  schema_required : Value;
  schema_nullable : Value;
  schema_deprecated : Value;
  schema_title : Value;
  schema_default : Value;
  schema_minimum : Value;
  schema_maximum : Value;
  schema_minLength : Value;
  schema_maxLength : Value;
  schema_pattern : Value;
  schema_minItems : Value;
  schema_maxItems : Value;
  schema_uniqueItems : Value;
  schema_properties : option (list (string * NormalizedSchema));
  schema_items : option NormalizedSchema;
  schema_additionalProperties : option (bool + NormalizedSchema);
  schema_allOf : option (list NormalizedSchema);
  schema_oneOf : option (list NormalizedSchema);
  schema_anyOf : option (list NormalizedSchema)
}.

Record NormalizedParameter : Type := {
  param_name : Value;
  param_in : Value;
  param_description : Value;
  param_required : Value;
  param_deprecated : Value;
  param_schema : option NormalizedSchema;
  param_example : Value
}.

Record NormalizedMediaType : Type := {
  media_mediaType : string;
  media_schema : option NormalizedSchema;
  media_example : Value;
  media_examples : option (list (string * Value))
}.

Record NormalizedRequestBody : Type := {
  body_description : Value;
  body_required : Value;
  body_content : list NormalizedMediaType
}.

Record NormalizedHeader : Type := {
  header_name : string;
  header_description : Value;
  header_required : Value;
  header_schema : option NormalizedSchema;
  header_example : Value
}.

Record NormalizedResponse : Type := {
  response_statusCode : string;
  response_description : Value;
  response_content : option (list NormalizedMediaType);
  response_headers : option (list (string * NormalizedHeader))
}.

Record NormalizedEndpoint : Type := {
  id : Value;
  method : HttpMethod;
  path : string;
  summary : Value;
  description : Value;
  operationId : Value;
  tags : Value;
  parameters : list NormalizedParameter;
  requestBody : option NormalizedRequestBody;
  responses : list NormalizedResponse;
  deprecated : Value;
  security : Value
}.

Record ParsedApiSpec : Type := {
  info : Value;
  servers : Value;
  endpoints : list NormalizedEndpoint;
  schemas : list (string * NormalizedSchema);
  spec_tags : Value;
  securitySchemes : Value
}.

(** [ref.replace("#/", "").split("/")] *)
Definition pointerSegments (ref : string) : list string :=
  split "/"%char (replace "#/" "" ref).

Definition unresolved (ref : string) : Exn :=
  Error ("Unable to resolve reference: " +:+ ref).

(** The loop of [resolveReference]: [current = current[segment]], and a
    throw as soon as [current] is falsy. *)
Fixpoint descend (ref : string) (current : Value) (segments : list string) : Res Value :=
  match segments with
  | [] => Ok current
  | segment :: rest =>
      next ← getComputed current segment;
      if truthy next then descend ref next rest else Throw (unresolved ref)
  end.

(** The receiver of [ref.replace(...)]: only a string has a [replace]. *)
Definition asRefString (ref : Value) : Res string :=
  match ref with
  | VStr s => Ok s
  | VUndef => Throw (TypeError "Cannot read properties of undefined (reading 'replace')")
  | VNull => Throw (TypeError "Cannot read properties of null (reading 'replace')")
  | _ => Throw (TypeError "ref.replace is not a function")
  end.

Definition resolveReference (item spec : Value) : Res Value :=
  if isObjectValue item && hasProp "$ref" item then
    r ← getProp item "$ref";
    ref ← asRefString r;
    descend ref spec (pointerSegments ref)
  else Ok item.

(** What the claims about [resolveReference] speak of.  [refOf item] is the
    pointer of a reference node, [Reference] of types.ts: an object whose
    [$ref] is a string.  [target v segments] is the node the segments lead to
    from [v] through own properties alone; it is [None] when a segment is no
    own property.  [absent v k] says that [k] names nothing in [v]: no own
    property and no member that [v] inherits. *)
Definition refOf (item : Value) : option string :=
  match item with
  | VObj fields => match lookupField "$ref" fields with
                   | Some (VStr ref) => Some ref
                   | _ => None
                   end
  | _ => None
  end.

Definition absent (v : Value) (k : string) : bool :=
  match ownProp v k, getComputed v k with
  | None, Ok VUndef => true
  | _, _ => false
  end.

Fixpoint target (v : Value) (segments : list string) : option Value :=
  match segments with
  | [] => Some v
  | segment :: rest =>
      match ownProp v segment with
      | Some next => target next rest
      | None => None
      end
  end.

(** [cond ? f(x) : undefined] *)
Definition whenTruthy {A} (v : Value) (f : Value -> Res A) : Res (option A) :=
  if truthy v then a ← f v; mret (Some a) else mret None.

Fixpoint normalizeSchema (fuel : nat) (schema spec : Value) : Res NormalizedSchema :=
  match fuel with
  | O => OutOfFuel
  | S fuel' =>
      resolved ← resolveReference schema spec;
      type ← getProp resolved "type";
      format ← getProp resolved "format";
      description ← getProp resolved "description";
      example ← getProp resolved "example";
      enum ← getProp resolved "enum";
      required ← getProp resolved "required";
      nullable ← getProp resolved "nullable";
      deprecated ← getProp resolved "deprecated";
      title ← getProp resolved "title";
      default ← getProp resolved "default";
      minimum ← getProp resolved "minimum";
      maximum ← getProp resolved "maximum";
      minLength ← getProp resolved "minLength";
      maxLength ← getProp resolved "maxLength";
      pattern ← getProp resolved "pattern";
      minItems ← getProp resolved "minItems";
      maxItems ← getProp resolved "maxItems";
      uniqueItems ← getProp resolved "uniqueItems";
      properties ← getProp resolved "properties";
      properties' ← whenTruthy properties (fun ps =>
        es ← entries ps;
        mapRes (fun '(name, prop) =>
                  s ← normalizeSchema fuel' prop spec; mret (name, s)) es);
      items ← getProp resolved "items";
      items' ← whenTruthy items (fun i => normalizeSchema fuel' i spec);
      additional ← getProp resolved "additionalProperties";
      additional' ←
        match additional with
        | VUndef => mret None
        | VBool b => mret (Some (inl b))
        | _ => s ← normalizeSchema fuel' additional spec; mret (Some (inr s))
        end;
      allOf ← getProp resolved "allOf";
      allOf' ← whenTruthy allOf (fun v =>
        xs ← asArray v; mapRes (fun s => normalizeSchema fuel' s spec) xs);
      oneOf ← getProp resolved "oneOf";
      oneOf' ← whenTruthy oneOf (fun v =>
        xs ← asArray v; mapRes (fun s => normalizeSchema fuel' s spec) xs);
      anyOf ← getProp resolved "anyOf";
      anyOf' ← whenTruthy anyOf (fun v =>
        xs ← asArray v; mapRes (fun s => normalizeSchema fuel' s spec) xs);
      mret {| schema_type := type; schema_format := format;
              schema_description := description; schema_example := example;
              schema_enum := enum; schema_required := required;
              schema_nullable := nullable; schema_deprecated := deprecated;
              schema_title := title; schema_default := default;
              schema_minimum := minimum; schema_maximum := maximum;
              schema_minLength := minLength; schema_maxLength := maxLength;
              schema_pattern := pattern; schema_minItems := minItems;
              schema_maxItems := maxItems; schema_uniqueItems := uniqueItems;
              schema_properties := properties'; schema_items := items';
              schema_additionalProperties := additional';
              schema_allOf := allOf'; schema_oneOf := oneOf';
              schema_anyOf := anyOf' |}
  end.

Definition normalizeParameters (fuel : nat) (parameters : list Value) (spec : Value)
  : Res (list NormalizedParameter) :=
  mapRes (fun param =>
    resolved ← resolveReference param spec;
    name ← getProp resolved "name";
    in_ ← getProp resolved "in";
    description ← getProp resolved "description";
    required ← getProp resolved "required";
    deprecated ← getProp resolved "deprecated";
    schema ← getProp resolved "schema";
    schema' ← whenTruthy schema (fun s => normalizeSchema fuel s spec);
    example ← getProp resolved "example";
    mret {| param_name := name; param_in := in_;
            param_description := description;
            param_required := or_else required (VBool false);
            param_deprecated := or_else deprecated (VBool false);
            param_schema := schema'; param_example := example |}) parameters.

Definition normalizeMediaType (fuel : nat) (mediaType : string) (content spec : Value)
  : Res NormalizedMediaType :=
  schema ← getProp content "schema";
  schema' ← whenTruthy schema (fun s => normalizeSchema fuel s spec);
  example ← getProp content "example";
  examples ← getProp content "examples";
  examples' ← whenTruthy examples (fun exs =>
    es ← entries exs;
    mapRes (fun '(name, example) =>
              resolved ← resolveReference example spec;
              value ← getProp resolved "value";
              mret (name, or_else value example)) es);
  mret {| media_mediaType := mediaType; media_schema := schema';
          media_example := example; media_examples := examples' |}.

Definition normalizeContent (fuel : nat) (content spec : Value)
  : Res (list NormalizedMediaType) :=
  es ← entries content;
  mapRes (fun '(mediaType, c) => normalizeMediaType fuel mediaType c spec) es.

Definition normalizeRequestBody (fuel : nat) (requestBody spec : Value)
  : Res NormalizedRequestBody :=
  resolved ← resolveReference requestBody spec;
  description ← getProp resolved "description";
  required ← getProp resolved "required";
  content ← getProp resolved "content";
  content' ← normalizeContent fuel content spec;
  mret {| body_description := description;
          body_required := or_else required (VBool false);
          body_content := content' |}.

Definition normalizeHeader (fuel : nat) (name : string) (header spec : Value)
  : Res NormalizedHeader :=
  resolved ← resolveReference header spec;
  description ← getProp resolved "description";
  required ← getProp resolved "required";
  schema ← getProp resolved "schema";
  schema' ← whenTruthy schema (fun s => normalizeSchema fuel s spec);
  example ← getProp resolved "example";
  mret {| header_name := name; header_description := description;
          header_required := or_else required (VBool false);
          header_schema := schema'; header_example := example |}.

Definition normalizeResponses (fuel : nat) (responses spec : Value)
  : Res (list NormalizedResponse) :=
  es ← entries responses;
  mapRes (fun '(statusCode, response) =>
    resolved ← resolveReference response spec;
    description ← getProp resolved "description";
    content ← getProp resolved "content";
    content' ← whenTruthy content (fun c => normalizeContent fuel c spec);
    headers ← getProp resolved "headers";
    headers' ← whenTruthy headers (fun hs =>
      hes ← entries hs;
      mapRes (fun '(name, header) =>
                h ← normalizeHeader fuel name header spec; mret (name, h)) hes);
    mret {| response_statusCode := statusCode;
            response_description := description;
            response_content := content'; response_headers := headers' |}) es.

Definition generateEndpointId (method : HttpMethod) (path : string) (operationId : Value)
  : Value :=
  if truthy operationId then operationId
  else VStr (toUpperCase (methodName method) +:+ "_" +:+ replaceNonAlnum path).

Definition normalizeEndpoint (fuel : nat) (path : string) (method : HttpMethod)
    (operation spec : Value) : Res NormalizedEndpoint :=
  operationId ← getProp operation "operationId";
  let id := generateEndpointId method path operationId in
  summary ← getProp operation "summary";
  description ← getProp operation "description";
  tags ← getProp operation "tags";
  parameters ← getProp operation "parameters";
  parameters' ← asArray (or_else parameters (VArr []));
  parameters'' ← normalizeParameters fuel parameters' spec;
  requestBody ← getProp operation "requestBody";
  requestBody' ← whenTruthy requestBody (fun b => normalizeRequestBody fuel b spec);
  responses ← getProp operation "responses";
  responses' ← normalizeResponses fuel responses spec;
  deprecated ← getProp operation "deprecated";
  security ← getProp operation "security";
  mret {| id := id; method := method; path := path; summary := summary;
          description := description; operationId := operationId;
          tags := tags; parameters := parameters'';
          requestBody := requestBody'; responses := responses';
          deprecated := or_else deprecated (VBool false);
          security := security |}.

Definition httpMethods : list HttpMethod :=
  [Get; Post; Put; Delete; Patch; Options; Head; Trace].

Definition extractEndpoints (fuel : nat) (spec : Value) : Res (list NormalizedEndpoint) :=
  paths ← getProp spec "paths";
  es ← entries paths;
  forEach (fun (endpoints : list NormalizedEndpoint) '(path, pathItem) =>
    forEach (fun (endpoints : list NormalizedEndpoint) method =>
      operation ← getProp pathItem (methodName method);
      if truthy operation then
        endpoint ← normalizeEndpoint fuel path method operation spec;
        mret (endpoints ++ [endpoint])%list
      else mret endpoints) httpMethods endpoints) es [].

(** What the claims about [extractEndpoints] speak of.  The method keys
    present on a path item are those whose value is not [undefined]; the
    loop takes up those whose value is truthy.  [typedPathItem] is what the
    static type [PathItem] of types.ts gives the loop: under each of the
    eight keys there is nothing or an operation, and an operation, being an
    object, is truthy. *)
Definition presentMethods (pathItem : Value) : list HttpMethod :=
  List.filter (fun m => negb (isUndefined (getPropOpt pathItem (methodName m))))
              httpMethods.

(** The method keys the loop of [extractEndpoints] takes up. *)
Definition truthyMethods (pathItem : Value) : list HttpMethod :=
  List.filter (fun m => truthy (getPropOpt pathItem (methodName m))) httpMethods.

Definition operationCount (paths : list (string * Value)) : nat :=
  list_sum (List.map (fun entry => length (presentMethods (snd entry))) paths).

Definition declaredOperations (paths : list (string * Value))
  : list (string * HttpMethod) :=
  List.flat_map (fun entry => List.map (fun m => (fst entry, m))
                                       (presentMethods (snd entry))) paths.

Definition typedPathItem (pathItem : Value) : bool :=
  forallb (fun m => let operation := getPropOpt pathItem (methodName m) in
                    isUndefined operation || truthy operation) httpMethods.

(** The operations the loop takes up, and how many they are. *)
Definition takenOperations (paths : list (string * Value)) : list (string * HttpMethod) :=
  List.flat_map (fun entry => List.map (fun m => (fst entry, m))
                                       (truthyMethods (snd entry))) paths.

Definition takenCount (paths : list (string * Value)) : nat :=
  list_sum (List.map (fun entry => length (truthyMethods (snd entry))) paths).

Definition extractSchemas (fuel : nat) (spec : Value)
  : Res (list (string * NormalizedSchema)) :=
  components ← getProp spec "components";
  let schemas := getPropOpt components "schemas" in
  if negb (truthy schemas) then mret []
  else
    es ← entries schemas;
    mapRes (fun '(name, schema) =>
              s ← normalizeSchema fuel schema spec; mret (name, s)) es.

(** The two parsers [parseSpecString] calls are not part of this
    repository: [JSON.parse] of the platform and [load] of js-yaml. *)
Class Parsers := {
  JSON_parse : string -> Res Value;
  yaml_load : string -> Res Value
}.

Section WithParsers.
Context `{Parsers}.

Definition parseFailure (jsonError yamlError : Exn) : Exn :=
  Error ("Failed to parse OpenAPI specification. Invalid JSON: "
         +:+ message jsonError +:+ ". Invalid YAML: " +:+ message yamlError).

Definition parseSpecString (specString : string) : Res Value :=
  match JSON_parse specString with
  | Throw jsonError =>
      let inner :=
        parsed ← yaml_load specString;
        if isObjectValue parsed then mret parsed
        else Throw (Error "Parsed YAML is not a valid object") in
      match inner with
      | Throw yamlError => Throw (parseFailure jsonError yamlError)
      | r => r
      end
  | r => r
  end.

(** [parseOpenApi(spec)], [spec] a string or an object. *)
Definition parseOpenApi (fuel : nat) (spec : Value) : Res ParsedApiSpec :=
  parsedSpec ← match spec with
               | VStr specString => parseSpecString specString
               | _ => mret spec
               end;
  endpoints ← extractEndpoints fuel parsedSpec;
  schemas ← extractSchemas fuel parsedSpec;
  info ← getProp parsedSpec "info";
  servers ← getProp parsedSpec "servers";
  tags ← getProp parsedSpec "tags";
  components ← getProp parsedSpec "components";
  mret {| info := info; servers := or_else servers (VArr []);
          endpoints := endpoints; schemas := schemas;
          spec_tags := or_else tags (VArr []);
          securitySchemes := getPropOpt components "securitySchemes" |}.

End WithParsers.

(** [endpoints.find((endpoint) => endpoint.id === id)] *)
Definition findEndpointById (endpoints : list NormalizedEndpoint) (id' : Value)
  : option NormalizedEndpoint :=
  List.find (fun endpoint => strictEq (id endpoint) id') endpoints.

End Parsing.

(** ** types.ts: the normalized model as the hooks see it

    The hooks are written against the declared interfaces; an optional
    member is an [option]. *)

Module Types.
Import JS.
Export Parsing (HttpMethod, Get, Post, Put, Delete, Patch, Options, Head, Trace,
                methodName).

Record NormalizedParameter : Type := {
  param_name : string;
  param_in : string;
  param_description : option string;
  param_required : bool;
  param_deprecated : option bool;
  param_schema : option Parsing.NormalizedSchema;
  param_example : Value
}.

Record NormalizedResponse : Type := {
  response_statusCode : string;
  response_description : string;
  response_content : option (list Parsing.NormalizedMediaType);
  response_headers : option (list (string * Parsing.NormalizedHeader))
}.

Record NormalizedRequestBody : Type := {
  body_description : option string;
  body_required : bool;
  body_content : list Parsing.NormalizedMediaType
}.

Record NormalizedEndpoint : Type := {
  id : string;
  method : HttpMethod;
  path : string;
  summary : option string;
  description : option string;
  operationId : option string;
  tags : option (list string);
  parameters : list NormalizedParameter;
  requestBody : option NormalizedRequestBody;
  responses : list NormalizedResponse;
  deprecated : option bool;
  security : Value
}.


Record Server : Type := {
  server_url : string;
  server_description : option string
}.

#[global] Instance HttpMethod_eq_dec : EqDecision HttpMethod.
Proof. solve_decision. Defined.

(** ToBoolean of an optional string: [undefined] and [""] are falsy. *)
Definition nonEmpty (s : option string) : option string :=
  match s with
  | Some EmptyString | None => None
  | Some s => Some s
  end.

End Types.

(** ** hooks/useSearch.ts, with the scores in exact arithmetic *)

Module Search.
Import JS Types.

Inductive SearchField : Type :=
| FSummary | FDescription | FOperationId | FPath | FTags | FParameters | FResponses.

#[global] Instance SearchField_eq_dec : EqDecision SearchField.
Proof. solve_decision. Defined.

Definition fieldName (f : SearchField) : string :=
  match f with
  | FSummary => "summary" | FDescription => "description"
  | FOperationId => "operationId" | FPath => "path" | FTags => "tags"
  | FParameters => "parameters" | FResponses => "responses"
  end.

(** [SearchOptions] after the defaults of [useSearch] are filled in. *)
Record SearchOptions : Type := {
  searchFields : list SearchField;
  caseSensitive : bool;
  fuzzySearch : bool;
  minQueryLength : Z
}.

Definition defaultOptions : SearchOptions :=
  {| searchFields := [FSummary; FDescription; FOperationId; FPath; FTags;
                      FParameters; FResponses];
     caseSensitive := false; fuzzySearch := false; minQueryLength := 1 |}.

(** The value under a key that is declared [boolean | undefined]:
    [undefined], a boolean, or [null], which [isSearching] reckons with. *)
Inductive Flag : Type :=
| Unset
| Null
| Flagged (b : bool).

Record SearchFilters : Type := {
  query : option string;
  methods : option (list HttpMethod);
  filter_tags : option (list string);
  filter_deprecated : Flag;
  hasParameters : Flag;
  hasRequestBody : Flag;
  responseStatusCodes : option (list string)
}.

Record SearchResult : Type := {
  endpoint : NormalizedEndpoint;
  score : Qc;
  matchedFields : list string;
  highlights : list (string * string)
}.

Definition num (n : nat) : Qc := Q2Qc (inject_Z (Z.of_nat n)).

Section WithOptions.
Variable options : SearchOptions.

Definition normalizeText (text : string) : string :=
  if caseSensitive options then text else toLowerCase text.

(** The loop of [fuzzyMatch]: [text] is what is left of the text from index
    [i] on, [query] what is left of the query from [queryIndex] on. *)
Fixpoint fuzzyScan (text query : string) (queryIndex matches : nat) : nat * nat :=
  match text, query with
  | String t text', String q query' =>
      if Ascii.eqb t q then fuzzyScan text' query' (S queryIndex) (S matches)
      else fuzzyScan text' query queryIndex matches
  | _, _ => (queryIndex, matches)
  end.

Definition fuzzyMatch (query text : string) : Qc :=
  let normalizedQuery := normalizeText query in
  let normalizedText := normalizeText text in
  if includes normalizedQuery normalizedText then 1
  else if negb (fuzzySearch options) then 0
  else
    let '(queryIndex, matches) := fuzzyScan normalizedText normalizedQuery 0 0 in
    if (queryIndex =? String.length normalizedQuery)%nat
    then num matches / num (String.length normalizedQuery) * Q2Qc (7 # 10)
    else 0.

Definition searches (f : SearchField) : bool :=
  bool_decide (f ∈ searchFields options).

(** The variables [searchInEndpoint] assigns. *)
Record Acc : Type := {
  acc_matchedFields : list string;
  acc_totalScore : Qc;
  acc_highlights : list (string * string)
}.

(** [highlights[k] = v] *)
Fixpoint setHighlight (k v : string) (h : list (string * string)) : list (string * string) :=
  match h with
  | [] => [(k, v)]
  | (k', v') :: h' =>
      if String.eqb k k' then (k, v) :: h' else (k', v') :: setHighlight k v h'
  end.

Definition record (f : SearchField) (points : Qc) (highlight : string) (a : Acc) : Acc :=
  {| acc_matchedFields := acc_matchedFields a ++ [fieldName f];
     acc_totalScore := acc_totalScore a + points;
     acc_highlights := setHighlight (fieldName f) highlight (acc_highlights a) |}.

Definition positive (q : Qc) : bool := bool_decide (0 < q)%Qc.

(** [Math.min(a, b)] *)
Definition min (a b : Qc) : Qc := if bool_decide (a <= b)%Qc then a else b.

(** A block [if (searchFields.includes(f) && text) { ... }] on one text. *)
Definition searchText (f : SearchField) (weight : Qc) (query : string)
    (text : option string) (a : Acc) : Acc :=
  match (if searches f then nonEmpty text else None) with
  | Some t =>
      let score := fuzzyMatch query t in
      if positive score then record f (score * weight) t a else a
  | None => a
  end.

(** [for (const tag of endpoint.tags) { ...; break }] *)
Fixpoint searchTags (query : string) (all : list string) (tags : list string) (a : Acc) : Acc :=
  match tags with
  | [] => a
  | tag :: rest =>
      let score := fuzzyMatch query tag in
      if positive score
      then record FTags (score * Q2Qc (13 # 10)) (String.concat ", " all) a
      else searchTags query all rest a
  end.

Fixpoint searchParameters (query : string) (params : list NormalizedParameter) (a : Acc) : Acc :=
  match params with
  | [] => a
  | param :: rest =>
      let nameScore := fuzzyMatch query (param_name param) in
      let descScore :=
        match nonEmpty (param_description param) with
        | Some d => fuzzyMatch query d
        | None => 0
        end in
      if positive nameScore || positive descScore
      then record FParameters ((nameScore + descScore) * Q2Qc (12 # 10))
                  ("Parameter: " +:+ param_name param) a
      else searchParameters query rest a
  end.

Fixpoint searchResponses (query : string) (rs : list NormalizedResponse) (a : Acc) : Acc :=
  match rs with
  | [] => a
  | response :: rest =>
      let score :=
        match nonEmpty (Some (response_description response)) with
        | Some d => fuzzyMatch query d
        | None => 0
        end in
      if positive score
      then record FResponses (score * Q2Qc (11 # 10))
                  (response_statusCode response +:+ ": " +:+ response_description response) a
      else searchResponses query rest a
  end.

Definition searchInEndpoint (e : NormalizedEndpoint) (query : string) : option SearchResult :=
  if String.eqb query "" || (Z.of_nat (String.length query) <? minQueryLength options)%Z
  then None
  else
    let a := {| acc_matchedFields := []; acc_totalScore := 0; acc_highlights := [] |} in
    let a := searchText FSummary 2 query (summary e) a in
    let a := searchText FDescription (Q2Qc (15 # 10)) query (description e) a in
    let a := searchText FOperationId (Q2Qc (18 # 10)) query (operationId e) a in
    let a := if searches FPath then
               let score := fuzzyMatch query (path e) in
               if positive score then record FPath (score * Q2Qc (17 # 10)) (path e) a else a
             else a in
    let a := match (if searches FTags then tags e else None) with
             | Some ts => searchTags query ts ts a
             | None => a
             end in
    let a := if searches FParameters then searchParameters query (parameters e) a else a in
    let a := if searches FResponses then searchResponses query (responses e) a else a in
    match acc_matchedFields a with
    | [] => None
    | fields =>
        Some {| endpoint := e;
                score := min (acc_totalScore a / num (length fields)) 1;
                matchedFields := fields;
                highlights := acc_highlights a |}
    end.

End WithOptions.

(** [xs.sort(compare)]: the language guarantees a stable sort, and for a
    comparator that orders the elements consistently the result is the one
    insertion from the right gives. *)
Section Sort.
Context {A : Type} (compare : A -> A -> Qc).

Fixpoint insertSorted (x : A) (l : list A) : list A :=
  match l with
  | [] => [x]
  | y :: l' =>
      if bool_decide (0 < compare x y)%Qc then y :: insertSorted x l'
      else x :: y :: l'
  end.

Definition sort (l : list A) : list A := foldr insertSorted [] l.

End Sort.

Definition includesB {A} `{EqDecision A} (x : A) (l : list A) : bool :=
  bool_decide (x ∈ l).

Definition nonEmptyList {A} (l : option (list A)) : option (list A) :=
  match l with
  | Some (x :: l') => Some (x :: l')
  | _ => None
  end.

(** The filters of [filteredResults], applied one after the other to the
    variable [results]. *)
Definition applyFilters (endpoints : list NormalizedEndpoint) (filters : SearchFilters)
  : list NormalizedEndpoint :=
  let results := endpoints in
  let results :=
    match nonEmptyList (methods filters) with
    | Some ms => List.filter (fun e => includesB (method e) ms) results
    | None => results
    end in
  let results :=
    match nonEmptyList (filter_tags filters) with
    | Some ts =>
        List.filter (fun e => match tags e with
                              | Some ets => existsb (fun tag => includesB tag ts) ets
                              | None => false
                              end) results
    | None => results
    end in
  let results :=
    match filter_deprecated filters with
    | Flagged d => List.filter (fun e => bool_decide (deprecated e = Some d)) results
    | Null => List.filter (fun e => false) results
    | Unset => results
    end in
  let results :=
    match hasParameters filters with
    | Flagged true =>
        List.filter (fun e => negb (Nat.eqb (length (parameters e)) 0)) results
    | Flagged false | Null =>
        List.filter (fun e => Nat.eqb (length (parameters e)) 0) results
    | Unset => results
    end in
  let results :=
    match hasRequestBody filters with
    | Flagged true => List.filter (fun e => bool_decide (is_Some (requestBody e))) results
    | Flagged false | Null =>
        List.filter (fun e => negb (bool_decide (is_Some (requestBody e)))) results
    | Unset => results
    end in
  match nonEmptyList (responseStatusCodes filters) with
  | Some codes =>
      List.filter (fun e => existsb (fun r => includesB (response_statusCode r) codes)
                                    (responses e)) results
  | None => results
  end.

(** [(a, b) => b.score - a.score] *)
Definition byScore (a b : SearchResult) : Qc := score b - score a.

(** [a] may stand before [b] in a list in descending order of score. *)
Definition descending (a b : SearchResult) : Prop := (score b <= score a)%Qc.

Definition sameScore (s : Qc) (r : SearchResult) : bool := bool_decide (score r = s).

(** The [useMemo] body that computes [filteredResults]. *)
Definition filteredResults (options : SearchOptions) (endpoints : list NormalizedEndpoint)
    (filters : SearchFilters) : list SearchResult :=
  let results := applyFilters endpoints filters in
  let unranked :=
    (fun e => {| endpoint := e; score := 1; matchedFields := [];
                 highlights := [] |}) <$> results in
  match nonEmpty (query filters) with
  | Some q =>
      if (minQueryLength options <=? Z.of_nat (String.length q))%Z
      then sort byScore (omap (fun e => searchInEndpoint options e q) results)
      else unranked
  | None => unranked
  end.

End Search.

(** ** The numbers of the code

    JavaScript numbers are the binary64 numbers of IEEE 754. *)

Module Doubles.
#[local] Open Scope Z_scope.

(** The number of a length or of a counter: exact up to 2^53, where a
    counter that is incremented by one comes to rest. *)
Definition ofNat (n : nat) : float :=
  of_uint63 (Uint63.of_Z (Z.min (Z.of_nat n) (2 ^ 53))).

(** [Math.min(a, b)]: NaN when one of them is, and -0 below +0. *)
Definition min (a b : float) : float :=
  if is_nan a then a
  else if is_nan b then b
  else if (a <? b)%float then a
  else if (b <? a)%float then b
  else if get_sign a then a else b.

End Doubles.

(** ** hooks/useSearch.ts: the scores as the code computes them

    JavaScript numbers are the binary64 numbers of IEEE 754; the decimal
    constants below stand for the nearest of them, as in the source. *)

Module Search64.
Import JS Types Search Doubles.
#[local] Set Warnings "-inexact-float".
#[local] Open Scope float_scope.

Record SearchResult : Type := {
  endpoint : NormalizedEndpoint;
  score : float;
  matchedFields : list string;
  highlights : list (string * string)
}.

Section WithOptions.
Variable options : SearchOptions.

Definition fuzzyMatch (query text : string) : float :=
  let normalizedQuery := normalizeText options query in
  let normalizedText := normalizeText options text in
  if includes normalizedQuery normalizedText then 1
  else if negb (fuzzySearch options) then 0
  else
    let '(queryIndex, matches) := fuzzyScan normalizedText normalizedQuery 0 0 in
    if (queryIndex =? String.length normalizedQuery)%nat
    then ofNat matches / ofNat (String.length normalizedQuery) * 0.7
    else 0.

(** The variables [searchInEndpoint] assigns. *)
Record Acc : Type := {
  acc_matchedFields : list string;
  acc_totalScore : float;
  acc_highlights : list (string * string)
}.

Definition record (f : SearchField) (points : float) (highlight : string) (a : Acc) : Acc :=
  {| acc_matchedFields := (acc_matchedFields a ++ [fieldName f])%list;
     acc_totalScore := acc_totalScore a + points;
     acc_highlights := setHighlight (fieldName f) highlight (acc_highlights a) |}.

(** [x > 0] *)
Definition positive (x : float) : bool := 0 <? x.

Definition searchText (f : SearchField) (weight : float) (query : string)
    (text : option string) (a : Acc) : Acc :=
  match (if searches options f then nonEmpty text else None) with
  | Some t =>
      let score := fuzzyMatch query t in
      if positive score then record f (score * weight) t a else a
  | None => a
  end.

Fixpoint searchTags (query : string) (all : list string) (tags : list string) (a : Acc) : Acc :=
  match tags with
  | [] => a
  | tag :: rest =>
      let score := fuzzyMatch query tag in
      if positive score
      then record FTags (score * 1.3) (String.concat ", " all) a
      else searchTags query all rest a
  end.

Fixpoint searchParameters (query : string) (params : list NormalizedParameter) (a : Acc) : Acc :=
  match params with
  | [] => a
  | param :: rest =>
      let nameScore := fuzzyMatch query (param_name param) in
      let descScore :=
        match nonEmpty (param_description param) with
        | Some d => fuzzyMatch query d
        | None => 0
        end in
      if positive nameScore || positive descScore
      then record FParameters ((nameScore + descScore) * 1.2)
                  ("Parameter: " +:+ param_name param) a
      else searchParameters query rest a
  end.

Fixpoint searchResponses (query : string) (rs : list NormalizedResponse) (a : Acc) : Acc :=
  match rs with
  | [] => a
  | response :: rest =>
      let score :=
        match nonEmpty (Some (response_description response)) with
        | Some d => fuzzyMatch query d
        | None => 0
        end in
      if positive score
      then record FResponses (score * 1.1)
                  (response_statusCode response +:+ ": " +:+ response_description response) a
      else searchResponses query rest a
  end.

Definition searchInEndpoint (e : NormalizedEndpoint) (query : string) : option SearchResult :=
  if String.eqb query "" || (Z.of_nat (String.length query) <? minQueryLength options)%Z
  then None
  else
    let a := {| acc_matchedFields := []; acc_totalScore := 0; acc_highlights := [] |} in
    let a := searchText FSummary 2 query (summary e) a in
    let a := searchText FDescription 1.5 query (description e) a in
    let a := searchText FOperationId 1.8 query (operationId e) a in
    let a := if searches options FPath then
               let score := fuzzyMatch query (path e) in
               if positive score then record FPath (score * 1.7) (path e) a else a
             else a in
    let a := match (if searches options FTags then tags e else None) with
             | Some ts => searchTags query ts ts a
             | None => a
             end in
    let a := if searches options FParameters then searchParameters query (parameters e) a else a in
    let a := if searches options FResponses then searchResponses query (responses e) a else a in
    match acc_matchedFields a with
    | [] => None
    | fields =>
        Some {| endpoint := e;
                score := min (acc_totalScore a / ofNat (length fields)) 1;
                matchedFields := fields;
                highlights := acc_highlights a |}
    end.

End WithOptions.

(** [xs.sort(compare)] with a comparator that returns a number: an element
    moves behind the next one when the comparator is above zero. *)
Section Sort.
Context {A : Type} (compare : A -> A -> float).

Fixpoint insertSorted (x : A) (l : list A) : list A :=
  match l with
  | [] => [x]
  | y :: l' => if positive (compare x y) then y :: insertSorted x l' else x :: y :: l'
  end.

Definition sort (l : list A) : list A := foldr insertSorted [] l.

End Sort.

(** [(a, b) => b.score - a.score] *)
Definition byScore (a b : SearchResult) : float := score b - score a.

Definition filteredResults (options : SearchOptions) (endpoints : list NormalizedEndpoint)
    (filters : SearchFilters) : list SearchResult :=
  let results := applyFilters endpoints filters in
  let unranked :=
    (fun e => {| endpoint := e; score := 1; matchedFields := [];
                 highlights := [] |}) <$> results in
  match nonEmpty (query filters) with
  | Some q =>
      if (minQueryLength options <=? Z.of_nat (String.length q))%Z
      then sort byScore (omap (fun e => searchInEndpoint options e q) results)
      else unranked
  | None => unranked
  end.

(** [a] may stand before [b] in a list in descending order of score. *)
Definition descending (a b : SearchResult) : Prop := (score b <=? score a) = true.

Definition sameScore (s : float) (r : SearchResult) : bool := score r =? s.

End Search64.

(** ** hooks/useApiLoader.ts *)

Module Loader.
Import JS Parsing.

Record CacheEntry : Type := {
  cached : ParsedApiSpec;
  timestamp : Z
}.

(** What a load shares with the rest of the process: the clock that
    [Date.now()] reads, the module-scoped [specCache], and the number of
    requests sent so far (a transport may answer the third request
    differently from the first). *)
Record World : Type := {
  now : Z;
  specCache : gmap string CacheEntry;
  requests : nat
}.

Definition Fetcher : Type := string -> World -> Res string.

Record ApiLoaderConfig : Type := {
  url : option string;
  spec : option Value;
  cacheDuration : option Z;
  fetcher : option Fetcher;
  retries : option Z;
  retryDelay : option Z
}.

(** The state cells of [useApiLoader]. *)
Record State : Type := {
  st_spec : option ParsedApiSpec;
  loading : bool;
  error : option string;
  currentUrl : option string
}.

(** What a call does, in order: the state setters it calls and the work
    it starts. *)
Inductive Event : Type :=
| SetSpec (s : option ParsedApiSpec)
| SetLoading (b : bool)
| SetError (e : option string)
| SetCurrentUrl (u : option string)
| FetchCall (url : string)
| ParseCall
| Sleep (ms : Z).

Definition apply (st : State) (ev : Event) : State :=
  match ev with
  | SetSpec s => {| st_spec := s; loading := loading st; error := error st;
                    currentUrl := currentUrl st |}
  | SetLoading b => {| st_spec := st_spec st; loading := b; error := error st;
                       currentUrl := currentUrl st |}
  | SetError e => {| st_spec := st_spec st; loading := loading st; error := e;
                     currentUrl := currentUrl st |}
  | SetCurrentUrl u => {| st_spec := st_spec st; loading := loading st;
                          error := error st; currentUrl := u |}
  | _ => st
  end.

(** The states the hook goes through, one per event. *)
Fixpoint states (st : State) (trace : list Event) : list State :=
  match trace with
  | [] => []
  | ev :: rest => apply st ev :: states (apply st ev) rest
  end.

Definition initialState (initialConfig : option ApiLoaderConfig) : State :=
  {| st_spec := None; loading := false; error := None;
     currentUrl := initialConfig ≫= url |}.

(** The transport behind [defaultFetcher]: the platform's [fetch]. *)
Record Response : Type := {
  ok : bool;
  status : Z;
  statusText : string;
  text : Res string
}.

Class Network := { fetch : string -> World -> Res Response }.

Section WithPlatform.
Context `{Parsers} `{Network}.

Definition defaultFetcher : Fetcher := fun url w =>
  response ← fetch url w;
  if negb (ok response)
  then Throw (Error ("Failed to fetch spec: " +:+ pretty (status response)
                     +:+ " " +:+ statusText response))
  else text response.

(** The values [useApiLoader] destructures from [initialConfig]. *)
Record Defaults : Type := {
  d_cacheDuration : Z;
  d_fetcher : Fetcher;
  d_retries : Z;
  d_retryDelay : Z
}.

Definition defaultsOf (initialConfig : option ApiLoaderConfig) : Defaults :=
  {| d_cacheDuration := default (5 * 60 * 1000)%Z (initialConfig ≫= cacheDuration);
     d_fetcher := default defaultFetcher (initialConfig ≫= fetcher);
     d_retries := default 3%Z (initialConfig ≫= retries);
     d_retryDelay := default 1000%Z (initialConfig ≫= retryDelay) |}.

(** [n || d] on an optional number: [undefined] and [0] are falsy. *)
Definition numOr (n : option Z) (d : Z) : Z :=
  match n with
  | Some 0%Z | None => d
  | Some n => n
  end.

Section WithDefaults.
Variable fuel : nat.
Variable defaults : Defaults.

(** The retry loop of [loadFromUrl]; [remaining] counts the values of
    [attempt] still to run. *)
Fixpoint attempts (url : string) (fetchFn : Fetcher) (maxRetries delay : Z)
    (remaining : nat) (attempt : Z) (lastError : option Exn)
    (w : World) (trace : list Event) : Res ParsedApiSpec * World * list Event :=
  match remaining with
  | O => (Throw (default (Error "Failed to load spec") lastError), w, trace)
  | S remaining' =>
      let fetched := fetchFn url w in
      let w1 := {| now := now w; specCache := specCache w;
                   requests := S (requests w) |} in
      let trace1 := (trace ++ [FetchCall url])%list in
      let '(outcome, trace2) :=
        match fetched with
        | Ok specText =>
            (parseOpenApi fuel (VStr specText), (trace1 ++ [ParseCall])%list)
        | Throw e => (Throw e, trace1)
        | OutOfFuel => (OutOfFuel, trace1)
        end in
      match outcome with
      | Ok parsedSpec =>
          let w2 := {| now := now w1;
                       specCache := <[url := {| cached := parsedSpec;
                                                timestamp := now w1 |}]> (specCache w1);
                       requests := requests w1 |} in
          (Ok parsedSpec, w2, trace2)
      | Throw err =>
          if (attempt <? maxRetries)%Z then
            let ms := (delay * 2 ^ attempt)%Z in
            let w2 := {| now := (now w1 + ms)%Z; specCache := specCache w1;
                         requests := requests w1 |} in
            attempts url fetchFn maxRetries delay remaining' (attempt + 1)%Z
                     (Some err) w2 (trace2 ++ [Sleep ms])%list
          else
            attempts url fetchFn maxRetries delay remaining' (attempt + 1)%Z
                     (Some err) w1 trace2
      | OutOfFuel => (OutOfFuel, w1, trace2)
      end
  end.

Definition loadFromUrl (url : string) (config : ApiLoaderConfig) (w : World)
  : Res ParsedApiSpec * World * list Event :=
  let fresh :=
    match specCache w !! url with
    | Some entry =>
        if (now w - timestamp entry
            <? numOr (cacheDuration config) (d_cacheDuration defaults))%Z
        then Some (cached entry) else None
    | None => None
    end in
  match fresh with
  | Some s => (Ok s, w, [])
  | None =>
      let fetchFn := default (d_fetcher defaults) (fetcher config) in
      let maxRetries := numOr (retries config) (d_retries defaults) in
      let delay := numOr (retryDelay config) (d_retryDelay defaults) in
      attempts url fetchFn maxRetries delay (Z.to_nat (maxRetries + 1)) 0%Z None w []
  end.

Definition loadFromSpec (specInput : Value) : Res ParsedApiSpec :=
  parseOpenApi fuel specInput.

(** ToBoolean of [config.url] and of [config.spec]. *)
Definition suppliedUrl (config : ApiLoaderConfig) : option string :=
  match url config with
  | Some EmptyString | None => None
  | Some u => Some u
  end.

Definition suppliedSpec (config : ApiLoaderConfig) : option Value :=
  match spec config with
  | Some v => if truthy v then Some v else None
  | None => None
  end.

(** [loadSpec(config)] run to the end of its [finally] block: the world it
    leaves and the events in order.  [None] stands for a normalization that
    the model did not follow to its end; in the code it ends, if by the
    error of a stack that is used up, and the call goes on. *)
Definition loadSpec (config : ApiLoaderConfig) (w : World)
  : option (World * list Event) :=
  let start := [SetLoading true; SetError None] in
  let '(outcome, w', body) :=
    match suppliedUrl config with
    | Some u =>
        let '(r, w', t) := loadFromUrl u config w in
        (r, w', (SetCurrentUrl (Some u) :: t))
    | None =>
        match suppliedSpec config with
        | Some s => (loadFromSpec s, w, [SetCurrentUrl None; ParseCall])
        | None => (Throw (Error "Either url or spec must be provided"), w, [])
        end
    end in
  match outcome with
  | Ok parsedSpec =>
      Some (w', (start ++ body ++ [SetSpec (Some parsedSpec); SetLoading false])%list)
  | Throw err =>
      Some (w', (start ++ body ++ [SetError (Some (message err)); SetSpec None;
                                   SetLoading false])%list)
  | OutOfFuel => None
  end.

(** [{ url: currentUrl, cacheDuration, fetcher, retries, retryDelay }] *)
Definition reloadConfig (u : string) : ApiLoaderConfig :=
  {| url := Some u; spec := None;
     cacheDuration := Some (d_cacheDuration defaults);
     fetcher := Some (d_fetcher defaults);
     retries := Some (d_retries defaults);
     retryDelay := Some (d_retryDelay defaults) |}.

(** [specCache.delete(u)] *)
Definition forget (u : string) (w : World) : World :=
  {| now := now w; specCache := delete u (specCache w); requests := requests w |}.

(** [reload()]: the cache entry of the current url is deleted and the url
    loaded again with the values of the hook. *)
Definition reload (st : State) (w : World) : option (World * list Event) :=
  match currentUrl st with
  | Some EmptyString | None => Some (w, [])
  | Some u => loadSpec (reloadConfig u) (forget u w)
  end.

End WithDefaults.

(** The effect [useApiLoader] runs on mount. *)
Definition mount (fuel : nat) (initialConfig : option ApiLoaderConfig) (w : World)
  : option (World * list Event) :=
  match initialConfig with
  | Some config =>
      match suppliedUrl config, suppliedSpec config with
      | None, None => Some (w, [])
      | _, _ => loadSpec fuel (defaultsOf initialConfig) config w
      end
  | None => Some (w, [])
  end.

End WithPlatform.

(** The state the hook is left in by the setters of a trace, when no
    setter of another call comes in between. *)
Definition finalState (st : State) (trace : list Event) : State :=
  fold_left apply trace st.

(** [config] without its inline spec. *)
Definition withoutSpec (config : ApiLoaderConfig) : ApiLoaderConfig :=
  {| url := url config; spec := None; cacheDuration := cacheDuration config;
     fetcher := fetcher config; retries := retries config;
     retryDelay := retryDelay config |}.

Definition missingInput : string := "Either url or spec must be provided".

(** A load is attempted when the transport or the parser is called. *)
Definition isLoadAttempt (ev : Event) : bool :=
  match ev with
  | FetchCall _ | ParseCall => true
  | _ => false
  end.

End Loader.

(** ** The platform the two URL builders and the snippet generator call *)

Module Platform.
Import JS.

(** [URL], [btoa] and [JSON.stringify] belong to the host, not to this
    repository.  [URL_new path base] is [new URL(path, base)], which throws
    a [TypeError] when the two do not make a URL; [btoa] throws when its
    argument holds a character above U+00FF. *)
Class Host := {
  URL : Type;
  URL_new : string -> string -> Res URL;
  searchParams_set : string -> string -> URL -> URL;
  searchParams_append : string -> string -> URL -> URL;
  URL_toString : URL -> string;
  btoa : string -> Res string;
  JSON_stringify : Value -> string
}.

(** [String(v)]; a number is printed in full, as the code prints a safe
    integer. *)
Fixpoint toString (v : Value) : string :=
  match v with
  | VUndef => "undefined"
  | VNull => "null"
  | VBool true => "true"
  | VBool false => "false"
  | VNum n => pretty n
  | VStr s => s
  | VArr xs =>
      String.concat ","
        (List.map (fun x => match x with
                            | VUndef | VNull => EmptyString
                            | _ => toString x
                            end) xs)
  | VObj _ => "[object Object]"
  end.


Definition hexDigit (n : nat) : ascii :=
  if (n <? 10)%nat then ascii_of_nat (48 + n) else ascii_of_nat (55 + n).

Definition isUnreserved (c : ascii) : bool :=
  isUpper c || isLower c || isDigit c
  || bool_decide (c ∈ ["-"; "_"; "."; "!"; "~"; "*"; "'"; "("; ")"]%char).

(** [encodeURIComponent]: the characters it keeps are kept, every other
    character is written as a percent sign and two hexadecimal digits. *)
Fixpoint encodeURIComponent (s : string) : string :=
  match s with
  | EmptyString => EmptyString
  | String c s' =>
      if isUnreserved c then String c (encodeURIComponent s')
      else String "%" (String (hexDigit (nat_of_ascii c / 16))
                         (String (hexDigit (nat_of_ascii c mod 16))
                            (encodeURIComponent s')))
  end.

(** [obj[k] = v] on a record of strings: a key the object has keeps its
    place; a new key that is an array index goes among the indices, in
    ascending order and before every other key; any other new key goes
    last. *)
Fixpoint insertIndexKey {V} (i : nat) (k : string) (v : V) (obj : list (string * V))
  : list (string * V) :=
  match obj with
  | [] => [(k, v)]
  | (k', v') :: rest =>
      match parseIndex k' with
      | Some j => if (j <? i)%nat then (k', v') :: insertIndexKey i k v rest
                  else (k, v) :: (k', v') :: rest
      | None => (k, v) :: (k', v') :: rest
      end
  end.

Definition hasKey {V} (k : string) (obj : list (string * V)) : bool :=
  existsb (fun kv => String.eqb k (fst kv)) obj.

Definition setKey {V} (k : string) (v : V) (obj : list (string * V)) : list (string * V) :=
  if hasKey k obj
  then List.map (fun kv => if String.eqb k (fst kv) then (k, v) else kv) obj
  else match parseIndex k with
       | Some i => insertIndexKey i k v obj
       | None => (obj ++ [(k, v)])%list
       end.

(** [{ ...a, ...b }] *)
Definition spread {V} (a b : list (string * V)) : list (string * V) :=
  fold_left (fun obj kv => setKey (fst kv) (snd kv) obj) b
            (fold_left (fun obj kv => setKey (fst kv) (snd kv) obj) a []).

End Platform.

(** ** hooks/useExecuteOperation.ts *)

Module Execute.
Import JS Types Platform.

Inductive Scalar : Type :=
| SStr (s : string)
| SNum (n : Z)
| SBool (b : bool).

(** [String(value)]; a number is printed in full, as the code prints a
    safe integer. *)
Definition scalarToString (v : Scalar) : string :=
  match v with
  | SStr s => s
  | SNum n => pretty n
  | SBool true => "true"
  | SBool false => "false"
  end.


Record ExecuteOperationParams : Type := {
  pathParams : option (list (string * Scalar));
  queryParams : option (list (string * (Scalar + list Scalar)))
}.

(** [{ ...params, pathParams }] *)
Definition withPathParams (params : ExecuteOperationParams)
    (ps : option (list (string * Scalar))) : ExecuteOperationParams :=
  {| pathParams := ps; queryParams := queryParams params |}.

Definition placeholder (key : string) : string := "{" +:+ key +:+ "}".

(** One turn of the loop over [Object.entries(params.pathParams)]. *)
Definition substitute (path : string) (entry : string * Scalar) : string :=
  replace (placeholder (fst entry))
          (encodeURIComponent (scalarToString (snd entry))) path.

(** The path after the loop. *)
Definition substitutePath (path : string) (pathParams : option (list (string * Scalar)))
  : string :=
  fold_left substitute (default [] pathParams) path.

Section WithHost.
Context `{Host}.

Definition addQuery (url : URL) (entry : string * (Scalar + list Scalar)) : URL :=
  match snd entry with
  | inr values =>
      fold_left (fun u v => searchParams_append (fst entry) (scalarToString v) u)
                values url
  | inl value => searchParams_set (fst entry) (scalarToString value) url
  end.

(** [buildUrl(endpoint, params)]; [configBaseUrl] is
    [defaultConfig.baseUrl] and [servers] is [spec?.servers]. *)
Definition buildUrl (configBaseUrl : option string) (servers : option (list Server))
    (endpoint : NormalizedEndpoint) (params : ExecuteOperationParams) : Res string :=
  let baseUrl :=
    match nonEmpty configBaseUrl with
    | Some b => Some b
    | None => match servers with
              | Some (server :: _) => nonEmpty (Some (server_url server))
              | _ => None
              end
    end in
  match baseUrl with
  | None =>
      Throw (Error "No base URL available. Provide baseUrl in config or ensure OpenAPI spec has servers.")
  | Some baseUrl =>
      let path := substitutePath (path endpoint) (pathParams params) in
      url ← URL_new path baseUrl;
      mret (URL_toString (fold_left addQuery (default [] (queryParams params)) url))
  end.

End WithHost.
End Execute.

(** ** hooks/useCodeSnippet.ts *)

Module Snippet.
Import JS Types Platform.

Inductive AuthType : Type := ApiKey | Bearer | Basic | OAuth2.

Inductive ApiKeyIn : Type := InHeader | InQuery.

Record ApiKeyAuth : Type := {
  apiKey_name : string;
  apiKey_value : string;
  apiKey_in : ApiKeyIn
}.

Record BasicAuth : Type := {
  username : string;
  password : string
}.

Record TokenAuth : Type := {
  token : string
}.

Record Auth : Type := {
  auth_type : AuthType;
  apiKey : option ApiKeyAuth;
  bearer : option TokenAuth;
  basic : option BasicAuth;
  oauth2 : option TokenAuth
}.

Record Parameters : Type := {
  pathParams : option (list (string * Value));
  queryParams : option (list (string * Value));
  headers : option (list (string * string));
  body : Value
}.

Inductive Language : Type :=
| Curl | JavaScript | TypeScript | Python | Node | Php | Java | Go.

Record CodeSnippetOptions : Type := {
  language : Language;
  includeAuth : option bool;
  auth : option Auth;
  parameters : option Parameters;
  serverUrl : option string;
  formatted : option bool
}.

Definition placeholder (key : string) : string := "{" +:+ key +:+ "}".

(** One turn of the loop over [Object.entries(options.parameters.pathParams)]. *)
Definition substitute (path : string) (entry : string * Value) : string :=
  replace (placeholder (fst entry)) (toString (snd entry)) path.

(** The path after the loop. *)
Definition substitutePath (path : string) (pathParams : option (list (string * Value)))
  : string :=
  fold_left substitute (default [] pathParams) path.

(** [options] with other path parameters. *)
Definition withPathParams (options : CodeSnippetOptions)
    (ps : option (list (string * Value))) : CodeSnippetOptions :=
  {| language := language options;
     includeAuth := includeAuth options; auth := auth options;
     parameters :=
       (fun p => {| pathParams := ps; queryParams := queryParams p;
                    headers := headers p; body := body p |}) <$> parameters options;
     serverUrl := serverUrl options; formatted := formatted options |}.

Definition isTrue (b : option bool) : bool :=
  match b with Some true => true | _ => false end.

Section WithHost.
Context `{Host}.
Variable servers : option (list Server).

Definition getBaseUrl (serverUrl : option string) : string :=
  match nonEmpty serverUrl with
  | Some u => u
  | None => match servers with
            | Some (server :: _) => server_url server
            | _ => "https://api.example.com"
            end
  end.

Definition addQuery (url : URL) (entry : string * Value) : URL :=
  match snd entry with
  | VUndef | VNull => url
  | value => searchParams_set (fst entry) (toString value) url
  end.

Definition buildUrl (endpoint : NormalizedEndpoint) (options : CodeSnippetOptions)
  : Res string :=
  let baseUrl := getBaseUrl (serverUrl options) in
  let path := substitutePath (path endpoint) (parameters options ≫= pathParams) in
  url ← URL_new path baseUrl;
  mret (URL_toString
          (fold_left addQuery (default [] (parameters options ≫= queryParams)) url)).

Definition generateAuthHeaders (auth : option Auth) : Res (list (string * string)) :=
  match auth with
  | None => Ok []
  | Some auth =>
      match auth_type auth with
      | ApiKey =>
          match apiKey auth with
          | Some k => match apiKey_in k with
                      | InHeader => Ok (setKey (apiKey_name k) (apiKey_value k) [])
                      | InQuery => Ok []
                      end
          | None => Ok []
          end
      | Bearer =>
          match nonEmpty (token <$> bearer auth) with
          | Some token => Ok (setKey "Authorization" ("Bearer " +:+ token) [])
          | None => Ok []
          end
      | Basic =>
          match basic auth with
          | Some b =>
              match nonEmpty (Some (username b)), nonEmpty (Some (password b)) with
              | Some u, Some p =>
                  credentials ← btoa (u +:+ ":" +:+ p);
                  mret (setKey "Authorization" ("Basic " +:+ credentials) [])
              | _, _ => Ok []
              end
          | None => Ok []
          end
      | OAuth2 =>
          match nonEmpty (token <$> oauth2 auth) with
          | Some token => Ok (setKey "Authorization" ("Bearer " +:+ token) [])
          | None => Ok []
          end
      end
  end.

(** [options.includeAuth ? generateAuthHeaders(options.auth) : {}] *)
Definition authHeaders (options : CodeSnippetOptions) : Res (list (string * string)) :=
  if isTrue (includeAuth options) then generateAuthHeaders (auth options) else Ok [].

(** The pieces of the template literals of [generateCurl], the generator
    [generateForEndpoint] calls for the language [curl]; the string it
    returns is the [code] of the snippet. *)
Definition quote : string := String "034"%char EmptyString.
Definition continuation : string := " \" +:+ String "010"%char "  ".

Definition headerFlag (key value : string) : string :=
  continuation +:+ "-H " +:+ quote +:+ key +:+ ": " +:+ value +:+ quote.

(** The flag that carries a bearer token, as it is to appear in the code. *)
Definition bearerFlag (token : string) : string :=
  "-H " +:+ quote +:+ "Authorization: Bearer " +:+ token +:+ quote.

Definition generateCurl (endpoint : NormalizedEndpoint) (options : CodeSnippetOptions)
  : Res string :=
  url ← buildUrl endpoint options;
  let method := toUpperCase (methodName (method endpoint)) in
  authHeaders ← authHeaders options;
  let customHeaders := default [] (parameters options ≫= headers) in
  let allHeaders := spread authHeaders customHeaders in
  let curl := "curl -X " +:+ method in
  let curl :=
    fold_left (fun curl kv => curl +:+ headerFlag (fst kv) (snd kv)) allHeaders curl in
  let body := default VUndef (body <$> parameters options) in
  let curl :=
    if truthy body && bool_decide (method ∈ ["POST"; "PUT"; "PATCH"]) then
      let bodyStr := match body with
                     | VStr b => b
                     | _ => JSON_stringify body
                     end in
      curl +:+ headerFlag "Content-Type" "application/json"
           +:+ continuation +:+ "-d '" +:+ bodyStr +:+ "'"
    else curl in
  let queryKey :=
    if isTrue (includeAuth options) then
      match auth options with
      | Some a => match auth_type a, apiKey a with
                  | ApiKey, Some k => match apiKey_in k with
                                      | InQuery => Some k
                                      | InHeader => None
                                      end
                  | _, _ => None
                  end
      | None => None
      end
    else None in
  match queryKey with
  | Some k =>
      let separator := if includes "?" url then "&" else "?" in
      mret (curl +:+ continuation +:+ quote +:+ url +:+ separator
                 +:+ apiKey_name k +:+ "=" +:+ apiKey_value k +:+ quote)
  | None => mret (curl +:+ continuation +:+ quote +:+ url +:+ quote)
  end.

End WithHost.
End Snippet.


(** ** From the objects of the normalizer to the declared interfaces

    [parseOpenApi] is declared to return the interfaces of types.ts.  The
    functions below read an object the normalizer built at that type; they
    answer [None] when a member does not have the type declared for it. *)

Module View.
Import JS.

Definition asString (v : Value) : option string :=
  match v with VStr s => Some s | _ => None end.

Definition asOptionalString (v : Value) : option (option string) :=
  match v with
  | VUndef => Some None
  | VStr s => Some (Some s)
  | _ => None
  end.

Definition asBool (v : Value) : option bool :=
  match v with VBool b => Some b | _ => None end.

Definition asOptionalBool (v : Value) : option (option bool) :=
  match v with
  | VUndef => Some None
  | VBool b => Some (Some b)
  | _ => None
  end.

Definition asOptionalStrings (v : Value) : option (option (list string)) :=
  match v with
  | VUndef => Some None
  | VArr xs => Some <$> mapM asString xs
  | _ => None
  end.

Definition parameter (p : Parsing.NormalizedParameter) : option Types.NormalizedParameter :=
  name ← asString (Parsing.param_name p);
  in_ ← asString (Parsing.param_in p);
  description ← asOptionalString (Parsing.param_description p);
  required ← asBool (Parsing.param_required p);
  deprecated ← asOptionalBool (Parsing.param_deprecated p);
  Some {| Types.param_name := name; Types.param_in := in_;
          Types.param_description := description;
          Types.param_required := required;
          Types.param_deprecated := deprecated;
          Types.param_schema := Parsing.param_schema p;
          Types.param_example := Parsing.param_example p |}.

Definition response (r : Parsing.NormalizedResponse) : option Types.NormalizedResponse :=
  description ← asString (Parsing.response_description r);
  Some {| Types.response_statusCode := Parsing.response_statusCode r;
          Types.response_description := description;
          Types.response_content := Parsing.response_content r;
          Types.response_headers := Parsing.response_headers r |}.

Definition requestBody (b : Parsing.NormalizedRequestBody)
  : option Types.NormalizedRequestBody :=
  description ← asOptionalString (Parsing.body_description b);
  required ← asBool (Parsing.body_required b);
  Some {| Types.body_description := description;
          Types.body_required := required;
          Types.body_content := Parsing.body_content b |}.

Definition endpoint (e : Parsing.NormalizedEndpoint) : option Types.NormalizedEndpoint :=
  id ← asString (Parsing.id e);
  summary ← asOptionalString (Parsing.summary e);
  description ← asOptionalString (Parsing.description e);
  operationId ← asOptionalString (Parsing.operationId e);
  tags ← asOptionalStrings (Parsing.tags e);
  parameters ← mapM parameter (Parsing.parameters e);
  body ← match Parsing.requestBody e with
         | Some b => Some <$> requestBody b
         | None => Some None
         end;
  responses ← mapM response (Parsing.responses e);
  deprecated ← asOptionalBool (Parsing.deprecated e);
  Some {| Types.id := id; Types.method := Parsing.method e;
          Types.path := Parsing.path e; Types.summary := summary;
          Types.description := description; Types.operationId := operationId;
          Types.tags := tags; Types.parameters := parameters;
          Types.requestBody := body; Types.responses := responses;
          Types.deprecated := deprecated; Types.security := Parsing.security e |}.

Definition server (v : Value) : option Types.Server :=
  url ← asString (getPropOpt v "url");
  description ← asOptionalString (getPropOpt v "description");
  Some {| Types.server_url := url; Types.server_description := description |}.

(** [spec.endpoints] and [spec.servers] of a parsed specification. *)
Definition endpoints (spec : Parsing.ParsedApiSpec) : option (list Types.NormalizedEndpoint) :=
  mapM endpoint (Parsing.endpoints spec).

Definition servers (spec : Parsing.ParsedApiSpec) : option (list Types.Server) :=
  match Parsing.servers spec with
  | VArr xs => mapM server xs
  | _ => None
  end.

End View.

(** ** Documents and test doubles the examples below run on *)

Module Examples.
Import JS Parsing.


Definition petstore : Value :=
  VObj [("components",
         VObj [("schemas",
                VObj [("Pet", VObj [("type", VStr "object");
                                    ("nullable", VBool false)])])])].

Definition okResponses : Value :=
  VObj [("200", VObj [("description", VStr "OK")])].

(** Two paths, three operations. *)
Definition usersPaths : list (string * Value) :=
  [("/users",
    VObj [("get", VObj [("operationId", VStr "listUsers"); ("responses", okResponses)]);
          ("post", VObj [("operationId", VStr "createUser"); ("responses", okResponses)])]);
   ("/users/{id}",
    VObj [("get", VObj [("responses", okResponses)])])].
Definition usersApi : Value := VObj [("paths", VObj usersPaths)].

(** Two operations that declare the same [operationId]. *)
Definition collidingApi : Value :=
  VObj [("paths",
         VObj [("/pets",
                VObj [("get", VObj [("operationId", VStr "pets");
                                    ("responses", okResponses)]);
                      ("post", VObj [("operationId", VStr "pets");
                                     ("responses", okResponses)])])])].

(** Two paths whose derived slugs are the same. *)
(** A path item whose [get] is present and holds no operation, as YAML
    reads a key that is left empty. *)
Definition emptyGetPaths : list (string * Value) :=
  [("/a", VObj [("get", VNull)])].
Definition emptyGetApi : Value := VObj [("paths", VObj emptyGetPaths)].

Definition slugApi : Value :=
  VObj [("paths",
         VObj [("/a-b", VObj [("get", VObj [("responses", okResponses)])]);
               ("/a_b", VObj [("get", VObj [("responses", okResponses)])])])].


End Examples.

Module SearchExamples.
Import JS Types Search.

Definition taggedEndpoint (i : string) (m : HttpMethod) (p s tag : string)
  : NormalizedEndpoint :=
  {| id := i; method := m; path := p; summary := Some s; description := None;
     operationId := Some i; tags := Some [tag]; parameters := []; requestBody := None;
     responses := []; deprecated := None; security := VUndef |}.

Definition addPet : NormalizedEndpoint :=
  taggedEndpoint "addPet" Post "/pets" "Add pet" "customers".
Definition listUsers : NormalizedEndpoint :=
  taggedEndpoint "listUsers" Get "/users" "List users" "users".
Definition addToy : NormalizedEndpoint :=
  taggedEndpoint "addToy" Post "/toys" "Add toy" "purchasers".

Definition queryFor (q : string) : SearchFilters :=
  {| query := Some q; methods := None; filter_tags := None;
     filter_deprecated := Unset; hasParameters := Unset; hasRequestBody := Unset;
     responseStatusCodes := None |}.

Definition fuzzyOptions : SearchOptions :=
  {| searchFields := searchFields defaultOptions; caseSensitive := false;
     fuzzySearch := true; minQueryLength := 1 |}.

End SearchExamples.

Module Search64Examples.
Import JS Types Search SearchExamples.

(** Two endpoints whose scores for the query [usr] are one rational number,
    91/100, and two numbers of the machine. *)
Definition oneField : NormalizedEndpoint :=
  {| id := "x"; method := Get; path := "/a"; summary := None; description := None;
     operationId := None; tags := Some ["users"]; parameters := []; requestBody := None;
     responses := []; deprecated := None; security := VUndef |}.

Definition threeFields : NormalizedEndpoint :=
  {| id := "z"; method := Get; path := "/b"; summary := None;
     description := Some "users"; operationId := None; tags := Some ["users"];
     parameters := []; requestBody := None;
     responses := [{| response_statusCode := "200"; response_description := "users";
                      response_content := None; response_headers := None |}];
     deprecated := None; security := VUndef |}.

End Search64Examples.

Module LoaderExamples.
Import JS Parsing Loader.

(** Parsers that accept nothing. *)
Definition rejectingParsers : Parsers :=
  {| JSON_parse := fun _ => Throw (SyntaxError "Unexpected token i in JSON at position 0");
     yaml_load := fun _ => Throw (YAMLException "end of the stream or a document separator is expected") |}.

(** A JSON parser that knows one document. *)
Definition usersText : string := "{ users api as json }".
Definition usersParsers : Parsers :=
  {| JSON_parse := fun s => if String.eqb s usersText then Ok Examples.usersApi
                            else Throw (SyntaxError "Unexpected token");
     yaml_load := fun _ => Throw (YAMLException "bad indentation of a mapping entry") |}.

(** A transport that always answers with that document. *)
Definition usersNetwork : Network :=
  {| fetch := fun _ _ => Ok {| ok := true; status := 200; statusText := "OK";
                               text := Ok usersText |} |}.

Definition emptyWorld : World := {| now := 0; specCache := ∅; requests := 0 |}.

(** A world in which the url of the examples was loaded a moment ago. *)
Definition olderSpec : ParsedApiSpec :=
  {| info := VStr "older"; servers := VUndef; endpoints := []; schemas := [];
     spec_tags := VUndef; securitySchemes := VUndef |}.
Definition cachedWorld : World :=
  {| now := 1000;
     specCache := {[ "https://x/api.json" := {| cached := olderSpec; timestamp := 990 |} ]};
     requests := 1 |}.

Definition noConfig : ApiLoaderConfig :=
  {| url := None; spec := None; cacheDuration := None; fetcher := None;
     retries := None; retryDelay := None |}.
Definition bothConfig : ApiLoaderConfig :=
  {| url := Some "https://x/api.json"; spec := Some Examples.slugApi;
     cacheDuration := None; fetcher := None; retries := None; retryDelay := None |}.

End LoaderExamples.

(** ** A host for the examples

    The parts of the URL Standard, of [btoa] and of [JSON.stringify] that
    the examples run on.  A text is read as UTF-8.  Where this model does
    not follow the standard, the host gives no answer. *)

Module StandardHost.
Import JS Platform.

Definition every (p : ascii -> bool) (s : string) : bool :=
  forallb p (list_ascii_of_string s).

Definition isAlnum (c : ascii) : bool := isUpper c || isLower c || isDigit c.

(** *** URLs

    A URL is kept as its origin, its path and the list of its query
    parameters; it has no fragment. *)
Record Url : Type := {
  origin : string;
  pathname : string;
  searchParams : list (string * string)
}.

(** The base URLs that are read: [http] or [https], a host name made of
    labels of lower-case letters and digits, the last label starting with
    a letter, and then nothing or a path of plain characters.  No port, no
    credentials, no query. *)
Definition isLabel (s : string) : bool :=
  negb (String.eqb s EmptyString) && every (fun c => isLower c || isDigit c) s.

Definition startsWithLetter (s : string) : bool :=
  match s with
  | String c _ => isLower c
  | EmptyString => false
  end.

Definition isHostName (h : string) : bool :=
  let labels := split "." h in
  forallb isLabel labels && startsWithLetter (List.last labels EmptyString).

Definition isPlainPath (p : string) : bool :=
  every (fun c => isAlnum c || bool_decide (c ∈ ["-"; "_"; "."; "~"; "/"]%char)) p.

Definition afterScheme (base : string) : option (string * string) :=
  if String.prefix "https://" base then Some ("https://", dropString 8 base)
  else if String.prefix "http://" base then Some ("http://", dropString 7 base)
  else None.

(** The origin of a base URL. *)
Definition originOf (base : string) : option string :=
  match afterScheme base with
  | None => None
  | Some (scheme, rest) =>
      let '(host, path) := match splitFirst "/" rest with
                           | Some (h, p) => (h, "/" +:+ p)
                           | None => (rest, EmptyString)
                           end in
      if isHostName host && isPlainPath path then Some (scheme +:+ host) else None
  end.

(** The characters of a path that are read: those that the path state
    keeps as they are, and the braces, which it percent-encodes. *)
Definition isPathChar (c : ascii) : bool :=
  isAlnum c
  || bool_decide (c ∈ ["-"; "_"; "."; "~"; "!"; "$"; "&"; "'"; "("; ")"; "*"; "+"; ",";
                       ";"; "="; ":"; "@"; "/"; "%"; "{"; "}"]%char).

(** A segment that the path state does not append. *)
Definition isDotSegment (s : string) : bool :=
  bool_decide (toLowerCase s ∈ ["."; ".."; "%2e"; ".%2e"; "%2e."; "%2e%2e"]).

Fixpoint encodePath (s : string) : string :=
  match s with
  | EmptyString => EmptyString
  | String c s' =>
      if Ascii.eqb c "{" then "%7B" +:+ encodePath s'
      else if Ascii.eqb c "}" then "%7D" +:+ encodePath s'
      else String c (encodePath s')
  end.

(** [new URL(path, base)] for a [path] that starts with one slash: the
    URL has the origin of the base and this path; the path of the base is
    dropped. *)
Definition URL_new (path base : string) : Res Url :=
  match originOf base, path with
  | Some o, String "/" rest =>
      if negb (String.prefix "/" rest) && every isPathChar path
         && negb (existsb isDotSegment (split "/" rest))
      then Ok {| origin := o; pathname := encodePath path; searchParams := [] |}
      else OutOfFuel
  | _, _ => OutOfFuel
  end.

(** The application/x-www-form-urlencoded serializer. *)
Fixpoint formEncode (s : string) : string :=
  match s with
  | EmptyString => EmptyString
  | String c s' =>
      if isAlnum c || bool_decide (c ∈ ["*"; "-"; "."; "_"]%char)
      then String c (formEncode s')
      else if Ascii.eqb c " " then String "+" (formEncode s')
      else String "%" (String (hexDigit (nat_of_ascii c / 16))
                         (String (hexDigit (nat_of_ascii c mod 16)) (formEncode s')))
  end.

Definition serializeParams (params : list (string * string)) : string :=
  String.concat "&" (List.map (fun kv => formEncode (fst kv) +:+ "=" +:+ formEncode (snd kv))
                              params).

(** [url.searchParams.set(k, v)]: the first parameter named [k] takes the
    value and the others of that name go; without one, the parameter is
    appended. *)
Fixpoint setParam (k v : string) (params : list (string * string))
  : list (string * string) :=
  match params with
  | [] => [(k, v)]
  | kv :: rest =>
      if String.eqb k (fst kv)
      then (k, v) :: List.filter (fun kv' => negb (String.eqb k (fst kv'))) rest
      else kv :: setParam k v rest
  end.

Definition withParams (u : Url) (params : list (string * string)) : Url :=
  {| origin := origin u; pathname := pathname u; searchParams := params |}.

(** [url.toString()] *)
Definition href (u : Url) : string :=
  origin u +:+ pathname u
  +:+ match searchParams u with
      | [] => EmptyString
      | params => "?" +:+ serializeParams params
      end.

(** *** btoa *)

Definition base64Char (n : nat) : ascii :=
  if (n <? 26)%nat then ascii_of_nat (65 + n)
  else if (n <? 52)%nat then ascii_of_nat (71 + n)
  else if (n <? 62)%nat then ascii_of_nat (n - 4)
  else if (n =? 62)%nat then "+"%char else "/"%char.

Fixpoint base64 (bytes : list nat) : string :=
  match bytes with
  | a :: b :: c :: rest =>
      String (base64Char (a / 4))
        (String (base64Char (a mod 4 * 16 + b / 16))
           (String (base64Char (b mod 16 * 4 + c / 64))
              (String (base64Char (c mod 64)) (base64 rest))))
  | [a; b] =>
      String (base64Char (a / 4))
        (String (base64Char (a mod 4 * 16 + b / 16))
           (String (base64Char (b mod 16 * 4)) "="))
  | [a] =>
      String (base64Char (a / 4)) (String (base64Char (a mod 4 * 16)) "==")
  | [] => EmptyString
  end.

(** The code points of a text, when none is above U+00FF; [Throw] when
    one is. *)
Fixpoint latin1 (s : string) : Res (list nat) :=
  match s with
  | EmptyString => Ok []
  | String c s' =>
      let n := nat_of_ascii c in
      if (n <? 128)%nat then (bytes ← latin1 s'; mret (n :: bytes))
      else if (196 <=? n)%nat && (n <=? 244)%nat
      then Throw (Error "Invalid character")
      else match s' with
           | String d s'' =>
               let m := nat_of_ascii d in
               if ((n =? 194)%nat || (n =? 195)%nat) && (128 <=? m)%nat && (m <? 192)%nat
               then (bytes ← latin1 s''; mret (((n - 194) * 64 + m)%nat :: bytes))
               else OutOfFuel
           | EmptyString => OutOfFuel
           end
  end.

(** [btoa(s)]; what it throws is a [DOMException] named
    [InvalidCharacterError]. *)
Definition btoa (s : string) : Res string :=
  bytes ← latin1 s; mret (base64 bytes).

(** *** JSON.stringify *)

Definition hex4 (n : nat) : string :=
  let digit k := toLowerCase (String (hexDigit k) EmptyString) in
  "00" +:+ digit (n / 16)%nat +:+ digit (n mod 16)%nat.

(** QuoteJSONString *)
Fixpoint escapeJSON (s : string) : string :=
  match s with
  | EmptyString => EmptyString
  | String c s' =>
      let n := nat_of_ascii c in
      (if (n =? 8)%nat then "\b"
       else if (n =? 9)%nat then "\t"
       else if (n =? 10)%nat then "\n"
       else if (n =? 12)%nat then "\f"
       else if (n =? 13)%nat then "\r"
       else if (n =? 34)%nat then String "\" (String "034" EmptyString)
       else if (n =? 92)%nat then "\\"
       else if (n <? 32)%nat then "\u" +:+ hex4 n
       else String c EmptyString) +:+ escapeJSON s'
  end.

Definition quoteJSON (s : string) : string :=
  String "034" (escapeJSON s +:+ String "034" EmptyString).

Definition newline : string := String "010" EmptyString.

(** A list of serialized members between its brackets. *)
Definition bracket (opening closing gap stepback : string) (members : list string)
  : string :=
  match members with
  | [] => opening +:+ closing
  | _ =>
      match gap with
      | EmptyString => opening +:+ String.concat "," members +:+ closing
      | _ =>
          let indent := stepback +:+ gap in
          opening +:+ newline +:+ indent
          +:+ String.concat ("," +:+ newline +:+ indent) members
          +:+ newline +:+ stepback +:+ closing
      end
  end.

(** SerializeJSONProperty, with the indentation [gap]; [None] is
    [undefined]. *)
Fixpoint serializeJSON (gap stepback : string) (v : Value) : option string :=
  match v with
  | VUndef => None
  | VNull => Some "null"
  | VBool true => Some "true"
  | VBool false => Some "false"
  | VNum n => Some (pretty n)
  | VStr s => Some (quoteJSON s)
  | VArr xs =>
      Some (bracket "[" "]" gap stepback
              (List.map (fun x => default "null" (serializeJSON gap (stepback +:+ gap) x))
                        xs))
  | VObj fields =>
      Some (bracket "{" "}" gap stepback
              (omap (fun kv =>
                       match serializeJSON gap (stepback +:+ gap) (snd kv) with
                       | Some str =>
                           Some (quoteJSON (fst kv) +:+ ":"
                                 +:+ match gap with
                                     | EmptyString => EmptyString
                                     | _ => " "
                                     end +:+ str)
                       | None => None
                       end) fields))
  end.

(** [JSON.stringify(v, null, n)] as a template literal prints it. *)
Definition stringify (spaces : nat) (v : Value) : string :=
  default "undefined"
          (serializeJSON (string_of_list_ascii (repeat " "%char spaces)) EmptyString v).

End StandardHost.

Module UrlExamples.
Import JS Types Platform.

(** The host of the examples; its [JSON_stringify] is
    [JSON.stringify(v, null, 2)]. *)
Definition standardHost : Host :=
  {| URL := StandardHost.Url;
     URL_new := StandardHost.URL_new;
     searchParams_set := fun k v u =>
       StandardHost.withParams u (StandardHost.setParam k v (StandardHost.searchParams u));
     searchParams_append := fun k v u =>
       StandardHost.withParams u (StandardHost.searchParams u ++ [(k, v)])%list;
     URL_toString := StandardHost.href;
     btoa := StandardHost.btoa;
     JSON_stringify := StandardHost.stringify 2 |}.

Definition getEndpoint (p : string) : NormalizedEndpoint :=
  {| id := "op"; method := Get; path := p; summary := None; description := None;
     operationId := None; tags := None; parameters := []; requestBody := None;
     responses := []; deprecated := None; security := VUndef |}.

Definition friends : NormalizedEndpoint := getEndpoint "/users/{id}/friends/{id}".


Definition sevenOptions : Snippet.CodeSnippetOptions :=
  {| Snippet.language := Snippet.Curl;
     Snippet.includeAuth := None; Snippet.auth := None;
     Snippet.parameters :=
       Some {| Snippet.pathParams := Some [("id", VNum 7)];
               Snippet.queryParams := None; Snippet.headers := None;
               Snippet.body := VUndef |};
     Snippet.serverUrl := None; Snippet.formatted := None |}.

End UrlExamples.

Module SnippetExamples.
Import JS Types Platform Snippet UrlExamples.

Definition bearerAuth : Auth :=
  {| auth_type := Bearer; apiKey := None; bearer := Some {| token := "test-token" |};
     basic := None; oauth2 := None |}.

(** Bearer authentication configured, [includeAuth] left out. *)
Definition bearerOnly : CodeSnippetOptions :=
  {| language := Curl; includeAuth := None; auth := Some bearerAuth; parameters := None;
     serverUrl := None; formatted := None |}.

(** The options of the test: the same with [includeAuth: true]. *)
Definition bearerIncluded : CodeSnippetOptions :=
  {| language := Curl; includeAuth := Some true; auth := Some bearerAuth; parameters := None;
     serverUrl := None; formatted := None |}.

End SnippetExamples.

(** ** The repository's test data *)

Module Mocks.
Import JS.

(** [mockOpenApiSpec] of test/mockData.ts. *)
Definition mockOpenApiSpec : Value :=
  VObj
    [("openapi", VStr "3.0.3");
     ("info", VObj
      [("title", VStr "Test API");
       ("version", VStr "1.0.0");
       ("description", VStr "A test API for unit testing")]);
     ("servers", VArr [VObj
        [("url", VStr "https://api.test.com/v1");
         ("description", VStr "Test server")]]);
     ("paths", VObj
      [("/users", VObj
        [("get", VObj
          [("tags", VArr [VStr "users"]);
           ("summary", VStr "List users");
           ("description", VStr "Get a list of all users");
           ("operationId", VStr "listUsers");
           ("parameters", VArr [VObj
              [("name", VStr "limit");
               ("in", VStr "query");
               ("description", VStr "Maximum number of users to return");
               ("required", VBool false);
               ("schema", VObj
                [("type", VStr "integer");
                 ("minimum", VNum 1);
                 ("maximum", VNum 100);
                 ("default", VNum 20)])]]);
           ("responses", VObj
            [("200", VObj
              [("description", VStr "A list of users");
               ("content", VObj
                [("application/json", VObj
                  [("schema", VObj
                    [("type", VStr "array");
                     ("items", VObj [("$ref", VStr "#/components/schemas/User")])])])])])])]);
         ("post", VObj
          [("tags", VArr [VStr "users"]);
           ("summary", VStr "Create user");
           ("description", VStr "Create a new user");
           ("operationId", VStr "createUser");
           ("requestBody", VObj
            [("description", VStr "User to create");
             ("required", VBool true);
             ("content", VObj
              [("application/json", VObj
                [("schema", VObj [("$ref", VStr "#/components/schemas/NewUser")])])])]);
           ("responses", VObj
            [("201", VObj
              [("description", VStr "User created");
               ("content", VObj
                [("application/json", VObj
                  [("schema", VObj [("$ref", VStr "#/components/schemas/User")])])])]);
             ("400", VObj [("description", VStr "Invalid input")])])])]);
       ("/users/{userId}", VObj
        [("get", VObj
          [("tags", VArr [VStr "users"]);
           ("summary", VStr "Get user by ID");
           ("description", VStr "Retrieve a specific user by ID");
           ("operationId", VStr "getUserById");
           ("parameters", VArr [VObj
              [("name", VStr "userId");
               ("in", VStr "path");
               ("description", VStr "ID of user to retrieve");
               ("required", VBool true);
               ("schema", VObj [("type", VStr "integer"); ("format", VStr "int64")])]]);
           ("responses", VObj
            [("200", VObj
              [("description", VStr "User details");
               ("content", VObj
                [("application/json", VObj
                  [("schema", VObj [("$ref", VStr "#/components/schemas/User")])])])]);
             ("404", VObj [("description", VStr "User not found")])])]);
         ("delete", VObj
          [("tags", VArr [VStr "users"]);
           ("summary", VStr "Delete user");
           ("description", VStr "Delete a user by ID");
           ("operationId", VStr "deleteUser");
           ("parameters", VArr [VObj
              [("name", VStr "userId");
               ("in", VStr "path");
               ("description", VStr "ID of user to delete");
               ("required", VBool true);
               ("schema", VObj [("type", VStr "integer"); ("format", VStr "int64")])]]);
           ("responses", VObj
            [("204", VObj [("description", VStr "User deleted")]);
             ("404", VObj [("description", VStr "User not found")])])])]);
       ("/posts", VObj
        [("get", VObj
          [("tags", VArr [VStr "posts"]);
           ("summary", VStr "List posts");
           ("description", VStr "Get a list of all posts");
           ("operationId", VStr "listPosts");
           ("responses", VObj
            [("200", VObj
              [("description", VStr "A list of posts");
               ("content", VObj
                [("application/json", VObj
                  [("schema", VObj
                    [("type", VStr "array");
                     ("items", VObj [("$ref", VStr "#/components/schemas/Post")])])])])])])])])]);
     ("components", VObj
      [("schemas", VObj
        [("User", VObj
          [("type", VStr "object");
           ("required", VArr [VStr "id"; VStr "username"]);
           ("properties", VObj
            [("id", VObj
              [("type", VStr "integer");
               ("format", VStr "int64");
               ("description", VStr "User ID")]);
             ("username", VObj [("type", VStr "string"); ("description", VStr "Username")]);
             ("email", VObj
              [("type", VStr "string");
               ("format", VStr "email");
               ("description", VStr "Email address")]);
             ("status", VObj
              [("type", VStr "string");
               ("enum", VArr [VStr "active"; VStr "inactive"]);
               ("description", VStr "User status")])])]);
         ("NewUser", VObj
          [("type", VStr "object");
           ("required", VArr [VStr "username"]);
           ("properties", VObj
            [("username", VObj [("type", VStr "string"); ("description", VStr "Username")]);
             ("email", VObj
              [("type", VStr "string");
               ("format", VStr "email");
               ("description", VStr "Email address")])])]);
         ("Post", VObj
          [("type", VStr "object");
           ("required", VArr [VStr "id"; VStr "title"]);
           ("properties", VObj
            [("id", VObj
              [("type", VStr "integer");
               ("format", VStr "int64");
               ("description", VStr "Post ID")]);
             ("title", VObj [("type", VStr "string"); ("description", VStr "Post title")]);
             ("content", VObj
              [("type", VStr "string");
               ("description", VStr "Post content")])])])])]);
     ("tags", VArr [VObj [("name", VStr "users"); ("description", VStr "User operations")];
          VObj [("name", VStr "posts"); ("description", VStr "Post operations")]])].

(** [mockSpec] of hooks/__tests__/useSearch.test.tsx. *)
Definition searchMockSpec : Value :=
  VObj
    [("openapi", VStr "3.0.0");
     ("info", VObj [("title", VStr "Test API"); ("version", VStr "1.0.0")]);
     ("paths", VObj
      [("/users", VObj
        [("get", VObj
          [("operationId", VStr "listUsers");
           ("summary", VStr "List all users");
           ("description", VStr "Get a list of all users in the system");
           ("tags", VArr [VStr "users"]);
           ("parameters", VArr [VObj
              [("name", VStr "limit");
               ("in", VStr "query");
               ("description", VStr "Number of users to return");
               ("schema", VObj [("type", VStr "integer")])]]);
           ("responses", VObj
            [("200", VObj
              [("description", VStr "Successful response");
               ("content", VObj
                [("application/json", VObj [("schema", VObj [("type", VStr "array")])])])])])]);
         ("post", VObj
          [("operationId", VStr "createUser");
           ("summary", VStr "Create user");
           ("description", VStr "Create a new user account");
           ("tags", VArr [VStr "users"]);
           ("requestBody", VObj
            [("description", VStr "User data");
             ("content", VObj
              [("application/json", VObj [("schema", VObj [("type", VStr "object")])])])]);
           ("responses", VObj
            [("201", VObj
              [("description", VStr "User created");
               ("content", VObj
                [("application/json", VObj [("schema", VObj [("type", VStr "object")])])])])])])]);
       ("/posts", VObj
        [("get", VObj
          [("operationId", VStr "listPosts");
           ("summary", VStr "List posts");
           ("description", VStr "Get blog posts from the system");
           ("tags", VArr [VStr "posts"; VStr "blog"]);
           ("responses", VObj
            [("200", VObj
              [("description", VStr "List of posts");
               ("content", VObj
                [("application/json", VObj [("schema", VObj [("type", VStr "array")])])])])])])]);
       ("/admin/stats", VObj
        [("get", VObj
          [("operationId", VStr "getAdminStats");
           ("summary", VStr "Get admin statistics");
           ("description", VStr "Get administrative statistics");
           ("tags", VArr [VStr "admin"]);
           ("deprecated", VBool true);
           ("responses", VObj
            [("200", VObj
              [("description", VStr "Statistics data");
               ("content", VObj
                [("application/json", VObj [("schema", VObj [("type", VStr "object")])])])])])])])])].

(** [mockSpec] of hooks/__tests__/useCodeSnippet.test.tsx. *)
Definition snippetMockSpec : Value :=
  VObj
    [("openapi", VStr "3.0.0");
     ("info", VObj [("title", VStr "Test API"); ("version", VStr "1.0.0")]);
     ("servers", VArr [VObj [("url", VStr "https://api.example.com")];
          VObj [("url", VStr "https://staging-api.example.com")]]);
     ("paths", VObj
      [("/users", VObj
        [("get", VObj
          [("operationId", VStr "listUsers");
           ("summary", VStr "List all users");
           ("parameters", VArr [VObj
              [("name", VStr "limit");
               ("in", VStr "query");
               ("schema", VObj [("type", VStr "integer")])]]);
           ("responses", VObj [("200", VObj [("description", VStr "Successful response")])])]);
         ("post", VObj
          [("operationId", VStr "createUser");
           ("summary", VStr "Create a new user");
           ("requestBody", VObj
            [("content", VObj
              [("application/json", VObj [("schema", VObj [("type", VStr "object")])])])]);
           ("responses", VObj [("201", VObj [("description", VStr "User created")])])])]);
       ("/users/{id}", VObj
        [("get", VObj
          [("operationId", VStr "getUserById");
           ("summary", VStr "Get user by ID");
           ("parameters", VArr [VObj
              [("name", VStr "id");
               ("in", VStr "path");
               ("required", VBool true);
               ("schema", VObj [("type", VStr "string")])]]);
           ("responses", VObj [("200", VObj [("description", VStr "User found")])])])])])].

End Mocks.

(** ** The fixtures of the repository's tests *)

Module Fixtures.
Import JS Mocks LoaderExamples UrlExamples.

Definition parsed (doc : Value) : option Parsing.ParsedApiSpec :=
  match @Parsing.parseOpenApi rejectingParsers 8 doc with
  | Ok spec => Some spec
  | _ => None
  end.

Definition parsedEndpoints (doc : Value) : list Parsing.NormalizedEndpoint :=
  default [] (Parsing.endpoints <$> parsed doc).

Definition byOperationId (doc : Value) (operationId : string)
  : option Parsing.NormalizedEndpoint :=
  List.find (fun e => strictEq (Parsing.operationId e) (VStr operationId))
            (parsedEndpoints doc).

(** useSearch.test.tsx *)

Definition searchEndpoints : list Types.NormalizedEndpoint :=
  default [] (parsed searchMockSpec ≫= View.endpoints).

Definition noFilters : Search.SearchFilters :=
  {| Search.query := None; Search.methods := None; Search.filter_tags := None;
     Search.filter_deprecated := Search.Unset; Search.hasParameters := Search.Unset;
     Search.hasRequestBody := Search.Unset; Search.responseStatusCodes := None |}.

Definition search (filters : Search.SearchFilters) : list Search.SearchResult :=
  Search.filteredResults Search.defaultOptions searchEndpoints filters.

Definition operationIds (results : list Search.SearchResult) : list (option string) :=
  (fun r => Types.operationId (Search.endpoint r)) <$> results.

(** useApiLoader.test.ts *)

Definition mockText : string := "JSON.stringify(mockSpec)".

(** [JSON.parse] on the one text the tests fetch. *)
Definition mockParsers : Parsing.Parsers :=
  {| Parsing.JSON_parse := fun s =>
       if String.eqb s mockText then Ok searchMockSpec
       else Throw (SyntaxError "Unexpected token i in JSON at position 0");
     Parsing.yaml_load := fun _ =>
       Throw (YAMLException "end of the stream or a document separator is expected") |}.

Definition okResponse : Loader.Response :=
  {| Loader.ok := true; Loader.status := 200; Loader.statusText := "OK";
     Loader.text := Ok mockText |}.

(** [mockFetch] as the tests program it. *)
Definition resolves : Loader.Network := {| Loader.fetch := fun _ _ => Ok okResponse |}.
Definition rejects : Loader.Network :=
  {| Loader.fetch := fun _ _ => Throw (Error "Network error") |}.
Definition notFound : Loader.Network :=
  {| Loader.fetch := fun _ _ =>
       Ok {| Loader.ok := false; Loader.status := 404;
             Loader.statusText := "Not Found"; Loader.text := Ok EmptyString |} |}.
Definition failsOnce : Loader.Network :=
  {| Loader.fetch := fun _ w =>
       if Nat.eqb (Loader.requests w) 0 then Throw (Error "First attempt failed")
       else Ok okResponse |}.

Definition fromUrl (retries retryDelay : option Z) : Loader.ApiLoaderConfig :=
  {| Loader.url := Some "https://example.com/api.json"; Loader.spec := None;
     Loader.cacheDuration := None; Loader.fetcher := None;
     Loader.retries := retries; Loader.retryDelay := retryDelay |}.

Definition fromSpec (spec : Value) : Loader.ApiLoaderConfig :=
  {| Loader.url := None; Loader.spec := Some spec;
     Loader.cacheDuration := None; Loader.fetcher := None;
     Loader.retries := None; Loader.retryDelay := None |}.

(** What a test reads once [loading] is false again: whether there is a
    spec, the error, and how often the transport was called. *)
Definition outcome (network : Loader.Network) (config : Loader.ApiLoaderConfig)
    (w : Loader.World) : option (bool * option string * nat * bool) :=
  (fun '(w', trace) =>
     let st := Loader.finalState (Loader.initialState (Some config)) trace in
     (bool_decide (is_Some (Loader.st_spec st)), Loader.error st, Loader.requests w',
      Loader.loading st))
    <$> @Loader.mount mockParsers network 8 (Some config) w.

(** The loader scenario of the specification: two failures, then success,
    with [retries: 2]. *)
Definition failsTwice : Loader.Network :=
  {| Loader.fetch := fun _ w =>
       if (Loader.requests w <? 2)%nat then Throw (Error "Network error")
       else Ok okResponse |}.

(** useCodeSnippet.test.tsx *)

Definition snippetServers : option (list Types.Server) :=
  parsed snippetMockSpec ≫= View.servers.

Definition snippetEndpoint (operationId : string) : option Types.NormalizedEndpoint :=
  byOperationId snippetMockSpec operationId ≫= View.endpoint.

Definition curl (operationId : string) (options : Snippet.CodeSnippetOptions)
  : option string :=
  e ← snippetEndpoint operationId;
  match @Snippet.generateCurl standardHost snippetServers e options with
  | Ok code => Some code
  | _ => None
  end.

Definition contains (needle : string) (code : option string) : bool :=
  match code with Some c => includes needle c | None => false end.

Definition withAuth (a : Snippet.Auth) : Snippet.CodeSnippetOptions :=
  {| Snippet.language := Snippet.Curl; Snippet.includeAuth := Some true;
     Snippet.auth := Some a; Snippet.parameters := None;
     Snippet.serverUrl := None; Snippet.formatted := None |}.

Definition withParameters (p : Snippet.Parameters) : Snippet.CodeSnippetOptions :=
  {| Snippet.language := Snippet.Curl; Snippet.includeAuth := None;
     Snippet.auth := None; Snippet.parameters := Some p;
     Snippet.serverUrl := None; Snippet.formatted := None |}.

(** useExecuteOperation.test.tsx *)

Definition requestUrl (operationId : string) (params : Execute.ExecuteOperationParams)
  : option (Res string) :=
  e ← snippetEndpoint operationId;
  Some (@Execute.buildUrl standardHost None snippetServers e params).

End Fixtures.

(** ** parsing/parseOpenApi.ts: the operations of a document *)

Module Operations.
Import JS Parsing.

(** The operations [extractEndpoints] normalizes: for each path item, the
    values under the method keys that are truthy, with path and method. *)
Definition operations (paths : list (string * Value))
  : list (string * HttpMethod * Value) :=
  List.flat_map
    (fun entry => List.map (fun m => (fst entry, m, getPropOpt (snd entry) (methodName m)))
                           (truthyMethods (snd entry))) paths.

(** Every character of [s] passes [p]. *)
Fixpoint allChars (p : ascii -> bool) (s : string) : bool :=
  match s with
  | EmptyString => true
  | String c s' => p c && allChars p s'
  end.

Definition notSlash (c : ascii) : bool := negb (Ascii.eqb c "/").

(** The characters of an id that [generateEndpointId] derives. *)
Definition isIdChar (c : ascii) : bool :=
  isUpper c || isLower c || isDigit c || Ascii.eqb c "_".

End Operations.

(** ** parsing/parseOpenApi.ts: the lookups the provider offers *)

Module Lookup.
Import JS Parsing Platform.

(** [endpoints.find((endpoint) => endpoint.method === method &&
    endpoint.path === path)]; the provider passes the method as any
    lower-cased string. *)
Definition findEndpointByMethodAndPath (endpoints : list NormalizedEndpoint)
    (method' path' : string) : option NormalizedEndpoint :=
  List.find (fun endpoint => String.eqb (methodName (method endpoint)) method'
                             && String.eqb (path endpoint) path') endpoints.

(** [xs.filter(f)] with a callback that can throw. *)
Fixpoint filterRes {A} (f : A -> Res bool) (xs : list A) : Res (list A) :=
  match xs with
  | [] => Ok []
  | x :: xs' =>
      keep ← f x; rest ← filterRes f xs';
      mret (if keep : bool then x :: rest else rest)
  end.

(** ToBoolean of [tags?.includes(tag)]: an array has the tag among its
    elements, a string has it as a part; any other value that is not null
    or undefined has no [includes] to call. *)
Definition tagsInclude (tags : Value) (tag : string) : Res bool :=
  match tags with
  | VUndef | VNull => Ok false
  | VArr xs => Ok (existsb (fun x => strictEq x (VStr tag)) xs)
  | VStr s => Ok (includes tag s)
  | _ => Throw (TypeError "endpoint.tags?.includes is not a function")
  end.

Definition filterEndpointsByTag (endpoints : list NormalizedEndpoint) (tag : string)
  : Res (list NormalizedEndpoint) :=
  filterRes (fun endpoint => tagsInclude (tags endpoint) tag) endpoints.

Definition notAFunction : Exn := TypeError "group.push is not a function".

(** The object [groups]: its own keys in enumeration order. *)
Definition Groups : Type := list (string * list NormalizedEndpoint).

Fixpoint getKey {V} (k : string) (obj : list (string * V)) : option V :=
  match obj with
  | [] => None
  | (k', v) :: rest => if String.eqb k k' then Some v else getKey k rest
  end.

(** The members an object literal inherits from [Object.prototype]: under
    these keys [groups[key]] is a function, or the prototype itself, before
    any group is stored there. *)
Definition inherited : list string :=
  ["constructor"; "__proto__"; "hasOwnProperty"; "isPrototypeOf";
   "propertyIsEnumerable"; "toLocaleString"; "toString"; "valueOf";
   "__defineGetter__"; "__defineSetter__"; "__lookupGetter__"; "__lookupSetter__"].

(** [const group = groups[key] || []; group.push(endpoint);
    groups[key] = group] *)
Definition pushTo (key : string) (endpoint : NormalizedEndpoint) (groups : Groups)
  : Res Groups :=
  match getKey key groups with
  | Some group => Ok (setKey key (group ++ [endpoint])%list groups)
  | None =>
      if bool_decide (key ∈ inherited)
      then Throw notAFunction
      else Ok (setKey key [endpoint] groups)
  end.

(** What [for (const tag of tags)] goes through: the elements of an array,
    the characters of a string; nothing else here can be iterated. *)
Definition iterate (tags : Value) : Res (list Value) :=
  match tags with
  | VArr xs => Ok xs
  | VStr s => Ok (charsOf s)
  | _ => Throw (TypeError "endpoint.tags is not iterable")
  end.

(** [!endpoint.tags || endpoint.tags.length === 0] *)
Definition untagged (endpoint : NormalizedEndpoint) : bool :=
  negb (truthy (tags endpoint))
  || strictEq (getPropOpt (tags endpoint) "length") (VNum 0).

Definition groupEndpointsByTag (endpoints : list NormalizedEndpoint) : Res Groups :=
  forEach (fun (groups : Groups) endpoint =>
    if untagged endpoint then pushTo "Untagged" endpoint groups
    else
      ts ← iterate (tags endpoint);
      forEach (fun (groups : Groups) tag => pushTo (toString tag) endpoint groups)
              ts groups) endpoints [].

(** The group under [key], empty when there is none. *)
Definition groupOf (key : string) (groups : Groups) : list NormalizedEndpoint :=
  default [] (getKey key groups).

(** The tags of an endpoint that has the type declared for it: no [tags]
    member, or an array of strings. *)
Definition tagNames (endpoint : NormalizedEndpoint) : option (list string) :=
  match tags endpoint with
  | VUndef => Some []
  | VArr xs => mapM (fun x => match x with VStr s => Some s | _ => None end) xs
  | _ => None
  end.

(** How often [groupEndpointsByTag] files an endpoint with these tag names
    under [key]. *)
Definition filed (key : string) (names : list string) : nat :=
  match names with
  | [] => if String.eqb key "Untagged" then 1 else 0
  | _ => length (List.filter (String.eqb key) names)
  end.

(** No tag is the name of an inherited member. *)
Definition plainTags (endpoints : list NormalizedEndpoint) : bool :=
  forallb (fun endpoint =>
             forallb (fun name => negb (bool_decide (name ∈ inherited)))
                     (default [] (tagNames endpoint))) endpoints.

(** No inherited member is a key of [groups] itself. *)
Definition fresh (groups : Groups) : Prop :=
  forall k, (k ∈ inherited) -> getKey k groups = None.

End Lookup.

Module LookupExamples.
Import JS Parsing.

Definition tagged (p : string) (ts : Value) : NormalizedEndpoint :=
  {| id := VStr ("GET_" +:+ p); method := Get; path := p; summary := VUndef;
     description := VUndef; operationId := VUndef; tags := ts; parameters := [];
     requestBody := None; responses := []; deprecated := VBool false;
     security := VUndef |}.

Definition pets : NormalizedEndpoint := tagged "/pets" (VArr [VStr "pets"; VStr "store"]).
Definition orders : NormalizedEndpoint := tagged "/orders" (VArr [VStr "store"]).
Definition health : NormalizedEndpoint := tagged "/health" VUndef.
Definition odd : NormalizedEndpoint := tagged "/odd" (VArr [VStr "constructor"]).

End LookupExamples.

(** ** context/ApiProvider.tsx and the hooks that read the context *)

Module Provider.
Import JS Parsing Lookup.

(** [spec?.endpoints || []] *)
Definition endpointsOf (spec : option ParsedApiSpec) : list NormalizedEndpoint :=
  default [] (endpoints <$> spec).

Section WithSpec.
Variable spec : option ParsedApiSpec.

Definition getEndpointById (id' : string) : option NormalizedEndpoint :=
  findEndpointById (endpointsOf spec) (VStr id').

Definition getEndpointByMethodAndPath (method' path' : string)
  : option NormalizedEndpoint :=
  findEndpointByMethodAndPath (endpointsOf spec) (toLowerCase method') path'.

Definition getEndpointsByTag (tag : string) : Res (list NormalizedEndpoint) :=
  filterEndpointsByTag (endpointsOf spec) tag.

(** hooks/useEndpoint.ts *)
Inductive EndpointIdentifier : Type :=
| ById (id' : string)
| ByMethodAndPath (method' path' : string).

Definition useEndpoint (identifier : EndpointIdentifier) : option NormalizedEndpoint :=
  match identifier with
  | ById id' => getEndpointById id'
  | ByMethodAndPath method' path' => getEndpointByMethodAndPath method' path'
  end.

(** hooks/useEndpoints.ts *)
Record UseEndpointsOptions : Type := {
  use_filter : option (NormalizedEndpoint -> bool);
  use_tag : option string;
  use_method : option string;
  use_search : option string
}.

(** ToBoolean of [text?.toLowerCase().includes(searchLower)] for a member
    [text] of the endpoint. *)
Definition lowerIncludes (member : string) (text : Value) (searchLower : string)
  : Res bool :=
  match text with
  | VUndef | VNull => Ok false
  | VStr s => Ok (includes searchLower (toLowerCase s))
  | _ => Throw (TypeError ("endpoint." +:+ member +:+ "?.toLowerCase is not a function"))
  end.

(** [a || b], [b] evaluated when [a] is false. *)
Definition orElse (a : bool) (b : Res bool) : Res bool :=
  if a then Ok true else b.

Definition matchesSearch (searchLower : string) (endpoint : NormalizedEndpoint)
  : Res bool :=
  orElse (includes searchLower (toLowerCase (path endpoint)))
    (s ← lowerIncludes "summary" (summary endpoint) searchLower;
     orElse s
       (d ← lowerIncludes "description" (description endpoint) searchLower;
        orElse d (lowerIncludes "operationId" (operationId endpoint) searchLower))).

Definition sameMethod (method' : string) (endpoint : NormalizedEndpoint) : bool :=
  String.eqb (toLowerCase (methodName (method endpoint))) (toLowerCase method').

Definition useEndpoints (options : UseEndpointsOptions) : Res (list NormalizedEndpoint) :=
  let filtered := endpointsOf spec in
  filtered ←
    match Types.nonEmpty (use_tag options) with
    | Some tag => getEndpointsByTag tag
    | None => Ok filtered
    end;
  let filtered :=
    match Types.nonEmpty (use_method options) with
    | Some method' => List.filter (sameMethod method') filtered
    | None => filtered
    end in
  filtered ←
    match Types.nonEmpty (use_search options) with
    | Some search => filterRes (matchesSearch (toLowerCase search)) filtered
    | None => Ok filtered
    end;
  mret match use_filter options with
       | Some f => List.filter f filtered
       | None => filtered
       end.

End WithSpec.

(** The texts of an endpoint that has the type declared for it. *)
Definition text (v : Value) : option (option string) :=
  match v with
  | VUndef => Some None
  | VStr s => Some (Some s)
  | _ => None
  end.

Definition typedEndpoint (e : NormalizedEndpoint) : bool :=
  bool_decide (is_Some (text (summary e)))
  && bool_decide (is_Some (text (description e)))
  && bool_decide (is_Some (text (operationId e)))
  && bool_decide (is_Some (tagNames e)).

Definition textIncludes (v : Value) (searchLower : string) : bool :=
  match v with
  | VStr s => includes searchLower (toLowerCase s)
  | _ => false
  end.

(** Whether [useEndpoints] keeps an endpoint of the declared type. *)
Definition kept (options : UseEndpointsOptions) (e : NormalizedEndpoint) : bool :=
  match Types.nonEmpty (use_tag options) with
  | Some tag => existsb (String.eqb tag) (default [] (tagNames e))
  | None => true
  end
  && match Types.nonEmpty (use_method options) with
     | Some method' => sameMethod method' e
     | None => true
     end
  && match Types.nonEmpty (use_search options) with
     | Some search =>
         let searchLower := toLowerCase search in
         includes searchLower (toLowerCase (path e))
         || textIncludes (summary e) searchLower
         || textIncludes (description e) searchLower
         || textIncludes (operationId e) searchLower
     | None => true
     end
  && match use_filter options with
     | Some f => f e
     | None => true
     end.

End Provider.

(** ** hooks/useApiLoader.ts: the cache and the retries *)

Module Cache.
Import JS Parsing Loader.

(** [clearSpecCache()] *)
Definition clearSpecCache (w : World) : World :=
  {| now := now w; specCache := ∅; requests := requests w |}.

(** The world [dt] milliseconds later. *)
Definition later (dt : Z) (w : World) : World :=
  {| now := (now w + dt)%Z; specCache := specCache w; requests := requests w |}.

(** The waits of a trace, and its calls of the transport. *)
Definition sleeps (trace : list Event) : list Z :=
  omap (fun ev => match ev with Sleep ms => Some ms | _ => None end) trace.

Definition fetches (trace : list Event) : list string :=
  omap (fun ev => match ev with FetchCall u => Some u | _ => None end) trace.

(** One turn of the retry loop: the text is fetched and parsed. *)
Definition attemptOnce `{Parsers} (fuel : nat) (fetchFn : Fetcher) (url : string)
    (w : World) : Res ParsedApiSpec :=
  specText ← fetchFn url w; parseOpenApi fuel (VStr specText).

(** An event that changes no state cell of the hook. *)
Definition quiet (ev : Event) : bool :=
  match ev with
  | FetchCall _ | ParseCall | Sleep _ => true
  | _ => false
  end.

(** The waits between [n + 1] attempts that all fail: [delay], twice as
    long, ... *)
Definition backoff (delay : Z) (n : nat) : list Z :=
  List.map (fun k => (delay * 2 ^ Z.of_nat k)%Z) (seq 0 n).

End Cache.

(** ** hooks/useSearch.ts: the score and the fields of a result *)

Module Ranking.
Import JS Types Search.

(** The least share of a field's weight that a matching field adds to the
    total: a match in order adds 0.7 of it, a part of the text all of it. *)
Definition least (options : SearchOptions) : Qc :=
  if fuzzySearch options then Q2Qc (77 # 100) else Q2Qc (11 # 10).

(** What [totalScore] is at least, for the fields matched so far. *)
Definition sound (options : SearchOptions) (a : Acc) : Prop :=
  (least options * num (length (acc_matchedFields a)) <= acc_totalScore a)%Qc.

End Ranking.

Module Fields.
Import JS Types Search.

(** The fields in the order in which [searchInEndpoint] looks at them. *)
Definition fieldOrder : list SearchField :=
  [FSummary; FDescription; FOperationId; FPath; FTags; FParameters; FResponses].

(** The state of [searchInEndpoint] once the fields [seen] are behind it:
    the matched fields are some of the searched ones among them, in order,
    and the highlights have one entry for each. *)
Definition matched (options : SearchOptions) (seen : list SearchField) (a : Acc) : Prop :=
  exists fields,
    fields `sublist_of` List.filter (searches options) seen /\
    acc_matchedFields a = List.map fieldName fields /\
    List.map fst (acc_highlights a) = List.map fieldName fields.

(** What the block of one field does to the state. *)
Definition advance (options : SearchOptions) (f : SearchField) (a a' : Acc) : Prop :=
  a' = a \/ (searches options f = true /\ exists points highlight, a' = record f points highlight a).

End Fields.

(** ** hooks/useSearch.ts: the state of the search and the filter options *)

Module SearchState.
Import JS Types Search.

(** [{}] *)
Definition clearFilters : SearchFilters :=
  {| query := None; methods := None; filter_tags := None; filter_deprecated := Unset;
     hasParameters := Unset; hasRequestBody := Unset; responseStatusCodes := None |}.

(** A key of [SearchFilters] with a value for it. *)
Inductive Update : Type :=
| Query (value : option string)
| Methods (value : option (list HttpMethod))
| Tags (value : option (list string))
| Deprecated (value : Flag)
| HasParameters (value : Flag)
| HasRequestBody (value : Flag)
| ResponseStatusCodes (value : option (list string)).

(** [updateFilter(key, value)]: [{ ...prev, [key]: value }] *)
Definition updateFilter (prev : SearchFilters) (update : Update) : SearchFilters :=
  match update with
  | Query v =>
      {| query := v; methods := methods prev; filter_tags := filter_tags prev;
         filter_deprecated := filter_deprecated prev; hasParameters := hasParameters prev;
         hasRequestBody := hasRequestBody prev;
         responseStatusCodes := responseStatusCodes prev |}
  | Methods v =>
      {| query := query prev; methods := v; filter_tags := filter_tags prev;
         filter_deprecated := filter_deprecated prev; hasParameters := hasParameters prev;
         hasRequestBody := hasRequestBody prev;
         responseStatusCodes := responseStatusCodes prev |}
  | Tags v =>
      {| query := query prev; methods := methods prev; filter_tags := v;
         filter_deprecated := filter_deprecated prev; hasParameters := hasParameters prev;
         hasRequestBody := hasRequestBody prev;
         responseStatusCodes := responseStatusCodes prev |}
  | Deprecated v =>
      {| query := query prev; methods := methods prev; filter_tags := filter_tags prev;
         filter_deprecated := v; hasParameters := hasParameters prev;
         hasRequestBody := hasRequestBody prev;
         responseStatusCodes := responseStatusCodes prev |}
  | HasParameters v =>
      {| query := query prev; methods := methods prev; filter_tags := filter_tags prev;
         filter_deprecated := filter_deprecated prev; hasParameters := v;
         hasRequestBody := hasRequestBody prev;
         responseStatusCodes := responseStatusCodes prev |}
  | HasRequestBody v =>
      {| query := query prev; methods := methods prev; filter_tags := filter_tags prev;
         filter_deprecated := filter_deprecated prev; hasParameters := hasParameters prev;
         hasRequestBody := v; responseStatusCodes := responseStatusCodes prev |}
  | ResponseStatusCodes v =>
      {| query := query prev; methods := methods prev; filter_tags := filter_tags prev;
         filter_deprecated := filter_deprecated prev; hasParameters := hasParameters prev;
         hasRequestBody := hasRequestBody prev; responseStatusCodes := v |}
  end.

(** [setQuery(query)] *)
Definition setQuery (prev : SearchFilters) (q : string) : SearchFilters :=
  updateFilter prev (Query (Some q)).

Definition isFlagged (f : Flag) : bool :=
  match f with
  | Flagged _ => true
  | Unset | Null => false
  end.

(** [isSearching]: some key holds a value that is not [undefined], not
    [null], and not an empty array or an empty string. *)
Definition isSearching (filters : SearchFilters) : bool :=
  bool_decide (is_Some (nonEmpty (query filters)))
  || bool_decide (is_Some (nonEmptyList (methods filters)))
  || bool_decide (is_Some (nonEmptyList (filter_tags filters)))
  || isFlagged (filter_deprecated filters)
  || isFlagged (hasParameters filters)
  || isFlagged (hasRequestBody filters)
  || bool_decide (is_Some (nonEmptyList (responseStatusCodes filters))).

(** No boolean filter holds [null]. *)
Definition noNull (filters : SearchFilters) : bool :=
  match filter_deprecated filters, hasParameters filters, hasRequestBody filters with
  | Null, _, _ | _, Null, _ | _, _, Null => false
  | _, _, _ => true
  end.

(** The result for an endpoint when no text is searched for. *)
Definition unranked (e : NormalizedEndpoint) : SearchResult :=
  {| endpoint := e; score := 1; matchedFields := []; highlights := [] |}.

(** Whether an endpoint passes each filter that is set. *)
Definition passes (filters : SearchFilters) (e : NormalizedEndpoint) : bool :=
  match nonEmptyList (methods filters) with
  | Some ms => includesB (method e) ms
  | None => true
  end
  && match nonEmptyList (filter_tags filters) with
     | Some ts => match tags e with
                  | Some ets => existsb (fun tag => includesB tag ts) ets
                  | None => false
                  end
     | None => true
     end
  && match filter_deprecated filters with
     | Flagged d => bool_decide (deprecated e = Some d)
     | Null => false
     | Unset => true
     end
  && match hasParameters filters with
     | Flagged true => negb (Nat.eqb (length (parameters e)) 0)
     | Flagged false | Null => Nat.eqb (length (parameters e)) 0
     | Unset => true
     end
  && match hasRequestBody filters with
     | Flagged true => bool_decide (is_Some (requestBody e))
     | Flagged false | Null => negb (bool_decide (is_Some (requestBody e)))
     | Unset => true
     end
  && match nonEmptyList (responseStatusCodes filters) with
     | Some codes => existsb (fun r => includesB (response_statusCode r) codes) (responses e)
     | None => true
     end.

(** [set.add(x)] on a [Set], kept in insertion order. *)
Definition add {A} `{EqDecision A} (x : A) (set : list A) : list A :=
  if includesB x set then set else (set ++ [x])%list.

(** The comparison [xs.sort()] uses when it is given none: by the strings
    of the elements, code unit by code unit. *)
Definition sortCompare {A} (toString : A -> string) (x y : A) : Qc :=
  if String.ltb (toString x) (toString y) then (-1)%Qc
  else if String.ltb (toString y) (toString x) then 1%Qc
  else 0%Qc.

Record FilterOptions : Type := {
  option_methods : list HttpMethod;
  option_tags : list string;
  option_statusCodes : list string
}.

Definition getFilterOptions (endpoints : list NormalizedEndpoint) : FilterOptions :=
  let '(methods, tags, statusCodes) :=
    fold_left
      (fun '(methods, tags, statusCodes) e =>
         (add (method e) methods,
          fold_left (fun tags tag => add tag tags) (default [] (Types.tags e)) tags,
          fold_left (fun statusCodes response => add (response_statusCode response) statusCodes)
                    (responses e) statusCodes))
      endpoints ([], [], []) in
  {| option_methods := sort (sortCompare methodName) methods;
     option_tags := sort (sortCompare (fun s => s)) tags;
     option_statusCodes := sort (sortCompare (fun s => s)) statusCodes |}.

(** [l] lists the members once each, in ascending order of their strings. *)
Definition Listing {A} (toString : A -> string) (members : A -> Prop) (l : list A) : Prop :=
  NoDup l /\
  Sorted (fun x y => String.leb (toString x) (toString y) = true) l /\
  forall x, In x l <-> members x.

(** [useTextSearch]: the query it reports and what [clearSearch] does. *)
Definition textQuery (filters : SearchFilters) : string :=
  default EmptyString (nonEmpty (query filters)).

Definition clearSearch (prev : SearchFilters) : SearchFilters := setQuery prev EmptyString.

End SearchState.

(** ** hooks/useCodeSnippet.ts: the other generators and the entry points *)

Module Generators.
Import JS Types Platform Snippet.

(** [JSON.stringify(v)] and [JSON.stringify(v, null, 4)]; the
    [JSON_stringify] of the host stands for [JSON.stringify(v, null, 2)]. *)
Class Printer := {
  JSON_stringify_compact : Value -> string;
  JSON_stringify_wide : Value -> string
}.

Definition nl : string := String "010"%char EmptyString.

(** [s.split("\n").join("\n  ")] *)
Fixpoint indent (s : string) : string :=
  match s with
  | EmptyString => EmptyString
  | String c s' =>
      if Ascii.eqb c "010" then nl +:+ "  " +:+ indent s' else String c (indent s')
  end.

(** [s.replace] with the pattern of the double quote, global: every double
    quote becomes a backtick. *)
Definition backticks : string -> string :=
  mapString (fun c => if Ascii.eqb c "034" then "`"%char else c).

Record CodeSnippetLanguage : Type := {
  language_id : string;
  language_name : string;
  extension : string
}.

Record CodeSnippetResult : Type := {
  code : string;
  snippet_language : CodeSnippetLanguage;
  snippet_description : string
}.

Definition languageId (l : Language) : string :=
  match l with
  | Curl => "curl" | JavaScript => "javascript" | TypeScript => "typescript"
  | Python => "python" | Node => "node" | Php => "php" | Java => "java" | Go => "go"
  end.

Definition availableLanguages : list CodeSnippetLanguage :=
  [ {| language_id := "curl"; language_name := "cURL"; extension := "sh" |};
    {| language_id := "javascript"; language_name := "JavaScript (fetch)";
       extension := "js" |};
    {| language_id := "typescript"; language_name := "TypeScript (fetch)";
       extension := "ts" |};
    {| language_id := "python"; language_name := "Python (requests)";
       extension := "py" |};
    {| language_id := "node"; language_name := "Node.js (axios)"; extension := "js" |};
    {| language_id := "php"; language_name := "PHP (cURL)"; extension := "php" |};
    {| language_id := "java"; language_name := "Java (OkHttp)"; extension := "java" |};
    {| language_id := "go"; language_name := "Go (net/http)"; extension := "go" |} ].

(** [options] with another [auth]. *)
Definition withAuth (options : CodeSnippetOptions) (a : option Auth) : CodeSnippetOptions :=
  {| language := language options; includeAuth := includeAuth options; auth := a;
     parameters := parameters options; serverUrl := serverUrl options;
     formatted := formatted options |}.

(** [options] with another [body]. *)
Definition withBody (options : CodeSnippetOptions) (b : Value) : CodeSnippetOptions :=
  {| language := language options; includeAuth := includeAuth options;
     auth := auth options;
     parameters :=
       Some {| pathParams := parameters options ≫= pathParams;
               queryParams := parameters options ≫= queryParams;
               headers := parameters options ≫= headers;
               body := b |};
     serverUrl := serverUrl options; formatted := formatted options |}.

(** [endpoint.summary || "API Request"] *)
Definition title (endpoint : NormalizedEndpoint) : string :=
  default "API Request" (nonEmpty (summary endpoint)).

(** [options.parameters?.body] *)
Definition bodyOf (options : CodeSnippetOptions) : Value :=
  default VUndef (body <$> parameters options).

Section WithHost.
Context `{Host} `{Printer}.
Variable servers : option (list Server).

(** [{ ...authHeaders, ...customHeaders }] *)
Definition allHeaders (options : CodeSnippetOptions) : Res (list (string * string)) :=
  authHeaders ← authHeaders options;
  mret (spread authHeaders (default [] (parameters options ≫= headers))).

(** [code += line(key, value)] for each header. *)
Definition addHeaders (line : string -> string -> string)
    (headers : list (string * string)) (code : string) : string :=
  fold_left (fun code kv => code +:+ line (fst kv) (snd kv)) headers code.

Definition nonEmptyHeaders (headers : list (string * string)) : bool :=
  match headers with [] => false | _ => true end.

(** [options.parameters?.body && methods.includes(method)] *)
Definition hasBody (methods : list string) (method : string)
    (options : CodeSnippetOptions) : bool :=
  truthy (bodyOf options) && bool_decide (method ∈ methods).

Definition generateJavaScript (endpoint : NormalizedEndpoint)
    (options : CodeSnippetOptions) (isTypeScript : bool) : Res string :=
  url ← buildUrl servers endpoint options;
  let method := toUpperCase (methodName (method endpoint)) in
  allHeaders ← allHeaders options;
  let hasBody := hasBody ["POST"; "PUT"; "PATCH"] method options in
  let allHeaders :=
    if hasBody then setKey "Content-Type" "application/json" allHeaders else allHeaders in
  let code := "// " +:+ title endpoint +:+ nl in
  let code :=
    if isTypeScript
    then code +:+ "interface ApiResponse {" +:+ nl
              +:+ "  // Define your response type here" +:+ nl
              +:+ "  [key: string]: any;" +:+ nl +:+ "}" +:+ nl +:+ nl
    else code in
  let code := code +:+ "const response" in
  let code := if isTypeScript then code +:+ ": Response" else code in
  let code := code +:+ " = await fetch('" +:+ url +:+ "', {" +:+ nl in
  let code := code +:+ "  method: '" +:+ method +:+ "'," +:+ nl in
  let code :=
    if nonEmptyHeaders allHeaders then
      addHeaders (fun key value => "    '" +:+ key +:+ "': '" +:+ value +:+ "'," +:+ nl)
                 allHeaders (code +:+ "  headers: {" +:+ nl)
      +:+ "  }," +:+ nl
    else code in
  let code :=
    if hasBody then
      let bodyStr := match bodyOf options with
                     | VStr b => "'" +:+ b +:+ "'"
                     | b => indent (JSON_stringify_wide b)
                     end in
      code +:+ "  body: JSON.stringify(" +:+ bodyStr +:+ ")," +:+ nl
    else code in
  let code := code +:+ "});" +:+ nl +:+ nl in
  let code := code +:+ "if (!response.ok) {" +:+ nl in
  let code :=
    code +:+ "  throw new Error(`HTTP error! status: ${response.status}`);" +:+ nl in
  let code := code +:+ "}" +:+ nl +:+ nl in
  let code := code +:+ "const data" in
  let code := if isTypeScript then code +:+ ": ApiResponse" else code in
  let code := code +:+ " = await response.json();" +:+ nl in
  mret (code +:+ "console.log(data);").

Definition generatePython (endpoint : NormalizedEndpoint) (options : CodeSnippetOptions)
  : Res string :=
  url ← buildUrl servers endpoint options;
  let method := toLowerCase (methodName (method endpoint)) in
  allHeaders ← allHeaders options;
  let code := "import requests" +:+ nl +:+ "import json" +:+ nl +:+ nl in
  let code := code +:+ "# " +:+ title endpoint +:+ nl in
  let code := code +:+ "url = " +:+ quote +:+ url +:+ quote +:+ nl in
  let code :=
    if nonEmptyHeaders allHeaders then
      addHeaders (fun key value => "    " +:+ quote +:+ key +:+ quote +:+ ": "
                                   +:+ quote +:+ value +:+ quote +:+ "," +:+ nl)
                 allHeaders (code +:+ "headers = {" +:+ nl)
      +:+ "}" +:+ nl
    else code in
  let hasBody := hasBody ["post"; "put"; "patch"] method options in
  let code :=
    if hasBody then
      let bodyStr := match bodyOf options with
                     | VStr b => b
                     | b => JSON_stringify b
                     end in
      code +:+ nl +:+ "data = "
           +:+ (if includes "{" bodyStr then bodyStr else quote +:+ bodyStr +:+ quote)
           +:+ nl
    else code in
  let code := code +:+ nl +:+ "response = requests." +:+ method +:+ "(url" in
  let code := if nonEmptyHeaders allHeaders then code +:+ ", headers=headers" else code in
  let code :=
    if hasBody then code +:+ ", json=data if isinstance(data, dict) else data" else code in
  let code := code +:+ ")" +:+ nl +:+ nl in
  let code :=
    code +:+ "response.raise_for_status()  # Raises an HTTPError for bad responses"
         +:+ nl in
  let code := code +:+ "result = response.json()" +:+ nl in
  mret (code +:+ "print(result)").

Definition generateNode (endpoint : NormalizedEndpoint) (options : CodeSnippetOptions)
  : Res string :=
  url ← buildUrl servers endpoint options;
  let method := toLowerCase (methodName (method endpoint)) in
  allHeaders ← allHeaders options;
  let code := "const axios = require('axios');" +:+ nl +:+ nl in
  let code := code +:+ "// " +:+ title endpoint +:+ nl in
  let code := code +:+ "const config = {" +:+ nl in
  let code := code +:+ "  method: '" +:+ method +:+ "'," +:+ nl in
  let code := code +:+ "  url: '" +:+ url +:+ "'," +:+ nl in
  let code :=
    if nonEmptyHeaders allHeaders then
      addHeaders (fun key value => "    '" +:+ key +:+ "': '" +:+ value +:+ "'," +:+ nl)
                 allHeaders (code +:+ "  headers: {" +:+ nl)
      +:+ "  }," +:+ nl
    else code in
  let hasBody := hasBody ["post"; "put"; "patch"] method options in
  let code :=
    if hasBody then
      let bodyStr := match bodyOf options with
                     | VStr b => "'" +:+ b +:+ "'"
                     | b => JSON_stringify b
                     end in
      code +:+ "  data: " +:+ bodyStr +:+ "," +:+ nl
    else code in
  let code := code +:+ "};" +:+ nl +:+ nl in
  let code := code +:+ "axios(config)" +:+ nl in
  let code := code +:+ "  .then(response => {" +:+ nl in
  let code := code +:+ "    console.log(response.data);" +:+ nl in
  let code := code +:+ "  })" +:+ nl in
  let code := code +:+ "  .catch(error => {" +:+ nl in
  let code :=
    code +:+ "    console.error('Error:', error.response?.data || error.message);"
         +:+ nl in
  mret (code +:+ "  });").

Definition generatePhp (endpoint : NormalizedEndpoint) (options : CodeSnippetOptions)
  : Res string :=
  url ← buildUrl servers endpoint options;
  let method := toUpperCase (methodName (method endpoint)) in
  allHeaders ← allHeaders options;
  let code := "<?php" +:+ nl +:+ nl in
  let code := code +:+ "// " +:+ title endpoint +:+ nl in
  let code := code +:+ "$url = " +:+ quote +:+ url +:+ quote +:+ ";" +:+ nl in
  let hasBody := hasBody ["POST"; "PUT"; "PATCH"] method options in
  let code := code +:+ "$curl = curl_init();" +:+ nl +:+ nl in
  let code := code +:+ "curl_setopt_array($curl, [" +:+ nl in
  let code := code +:+ "    CURLOPT_URL => $url," +:+ nl in
  let code := code +:+ "    CURLOPT_RETURNTRANSFER => true," +:+ nl in
  let code :=
    code +:+ "    CURLOPT_CUSTOMREQUEST => " +:+ quote +:+ method +:+ quote +:+ ","
         +:+ nl in
  let code :=
    if nonEmptyHeaders allHeaders || hasBody then
      let code :=
        addHeaders (fun key value => "        " +:+ quote +:+ key +:+ ": " +:+ value
                                     +:+ quote +:+ "," +:+ nl)
                   allHeaders (code +:+ "    CURLOPT_HTTPHEADER => [" +:+ nl) in
      let code :=
        if hasBody
        then code +:+ "        " +:+ quote +:+ "Content-Type: application/json" +:+ quote
                  +:+ "," +:+ nl
        else code in
      code +:+ "    ]," +:+ nl
    else code in
  let code :=
    if hasBody then
      let bodyStr := match bodyOf options with
                     | VStr b => b
                     | b => JSON_stringify_compact b
                     end in
      code +:+ "    CURLOPT_POSTFIELDS => '" +:+ bodyStr +:+ "'," +:+ nl
    else code in
  let code := code +:+ "]);" +:+ nl +:+ nl in
  let code := code +:+ "$response = curl_exec($curl);" +:+ nl in
  let code := code +:+ "$httpCode = curl_getinfo($curl, CURLINFO_HTTP_CODE);" +:+ nl in
  let code := code +:+ "curl_close($curl);" +:+ nl +:+ nl in
  let code := code +:+ "if ($httpCode >= 200 && $httpCode < 300) {" +:+ nl in
  let code := code +:+ "    $data = json_decode($response, true);" +:+ nl in
  let code := code +:+ "    print_r($data);" +:+ nl in
  let code := code +:+ "} else {" +:+ nl in
  let code :=
    code +:+ "    echo " +:+ quote +:+ "HTTP Error: $httpCode\n" +:+ quote +:+ ";" +:+ nl in
  let code := code +:+ "    echo $response;" +:+ nl in
  mret (code +:+ "}").

Definition generateJava (endpoint : NormalizedEndpoint) (options : CodeSnippetOptions)
  : Res string :=
  url ← buildUrl servers endpoint options;
  let method := toUpperCase (methodName (method endpoint)) in
  allHeaders ← allHeaders options;
  let code := "import okhttp3.*;" +:+ nl +:+ "import java.io.IOException;" +:+ nl +:+ nl in
  let code := code +:+ "public class ApiClient {" +:+ nl in
  let code :=
    code +:+ "    public static void main(String[] args) throws IOException {" +:+ nl in
  let code := code +:+ "        OkHttpClient client = new OkHttpClient();" +:+ nl +:+ nl in
  let hasBody := hasBody ["POST"; "PUT"; "PATCH"] method options in
  let code :=
    if hasBody then
      let bodyStr := match bodyOf options with
                     | VStr b => b
                     | b => JSON_stringify_compact b
                     end in
      let code := code +:+ "        RequestBody body = RequestBody.create(" +:+ nl in
      let code := code +:+ "            " +:+ quote +:+ bodyStr +:+ quote +:+ "," +:+ nl in
      let code :=
        code +:+ "            MediaType.parse(" +:+ quote +:+ "application/json" +:+ quote
             +:+ ")" +:+ nl in
      code +:+ "        );" +:+ nl +:+ nl
    else code in
  let code :=
    code +:+ "        Request.Builder requestBuilder = new Request.Builder()" +:+ nl in
  let code := code +:+ "            .url(" +:+ quote +:+ url +:+ quote +:+ ")" +:+ nl in
  let code :=
    code +:+ "            .method(" +:+ quote +:+ method +:+ quote +:+ ", "
         +:+ (if hasBody then "body" else "null") +:+ ");" +:+ nl +:+ nl in
  let code :=
    if nonEmptyHeaders allHeaders then
      addHeaders (fun key value => "        requestBuilder.addHeader(" +:+ quote +:+ key
                                   +:+ quote +:+ ", " +:+ quote +:+ value +:+ quote
                                   +:+ ");" +:+ nl)
                 allHeaders code
      +:+ nl
    else code in
  let code := code +:+ "        Request request = requestBuilder.build();" +:+ nl in
  let code :=
    code +:+ "        Response response = client.newCall(request).execute();"
         +:+ nl +:+ nl in
  let code := code +:+ "        if (response.isSuccessful()) {" +:+ nl in
  let code :=
    code +:+ "            System.out.println(response.body().string());" +:+ nl in
  let code := code +:+ "        } else {" +:+ nl in
  let code :=
    code +:+ "            System.err.println(" +:+ quote +:+ "HTTP Error: " +:+ quote
         +:+ " + response.code());" +:+ nl in
  let code :=
    code +:+ "            System.err.println(response.body().string());" +:+ nl in
  let code := code +:+ "        }" +:+ nl in
  let code := code +:+ "    }" +:+ nl in
  mret (code +:+ "}").

Definition generateGo (endpoint : NormalizedEndpoint) (options : CodeSnippetOptions)
  : Res string :=
  url ← buildUrl servers endpoint options;
  let method := toUpperCase (methodName (method endpoint)) in
  allHeaders ← allHeaders options;
  let body := bodyOf options in
  let code := "package main" +:+ nl +:+ nl in
  let code := code +:+ "import (" +:+ nl in
  let code := code +:+ "    " +:+ quote +:+ "bytes" +:+ quote +:+ nl in
  let code := code +:+ "    " +:+ quote +:+ "fmt" +:+ quote +:+ nl in
  let code := code +:+ "    " +:+ quote +:+ "io" +:+ quote +:+ nl in
  let code := code +:+ "    " +:+ quote +:+ "net/http" +:+ quote +:+ nl in
  let code :=
    if truthy body && isObjectValue body
    then code +:+ "    " +:+ quote +:+ "encoding/json" +:+ quote +:+ nl
    else code in
  let code := code +:+ ")" +:+ nl +:+ nl in
  let code := code +:+ "func main() {" +:+ nl in
  let hasBody := hasBody ["POST"; "PUT"; "PATCH"] method options in
  let request := fun reader =>
    "    req, err := http.NewRequest(" +:+ quote +:+ method +:+ quote +:+ ", "
    +:+ quote +:+ url +:+ quote +:+ ", " +:+ reader +:+ ")" +:+ nl in
  let code :=
    if hasBody then
      if isObjectValue body then
        let code :=
          code +:+ "    data := map[string]interface{}"
               +:+ backticks (JSON_stringify_wide body) +:+ nl in
        let code := code +:+ "    jsonData, _ := json.Marshal(data)" +:+ nl in
        code +:+ request "bytes.NewBuffer(jsonData)"
      else
        let code := code +:+ "    body := []byte(`" +:+ toString body +:+ "`)" +:+ nl in
        code +:+ request "bytes.NewBuffer(body)"
    else code +:+ request "nil" in
  let code := code +:+ "    if err != nil {" +:+ nl in
  let code := code +:+ "        panic(err)" +:+ nl in
  let code := code +:+ "    }" +:+ nl +:+ nl in
  let code :=
    if nonEmptyHeaders allHeaders || hasBody then
      let code :=
        addHeaders (fun key value => "    req.Header.Set(" +:+ quote +:+ key +:+ quote
                                     +:+ ", " +:+ quote +:+ value +:+ quote +:+ ")" +:+ nl)
                   allHeaders code in
      let code :=
        if hasBody
        then code +:+ "    req.Header.Set(" +:+ quote +:+ "Content-Type" +:+ quote +:+ ", "
                  +:+ quote +:+ "application/json" +:+ quote +:+ ")" +:+ nl
        else code in
      code +:+ nl
    else code in
  let code := code +:+ "    client := &http.Client{}" +:+ nl in
  let code := code +:+ "    resp, err := client.Do(req)" +:+ nl in
  let code := code +:+ "    if err != nil {" +:+ nl in
  let code := code +:+ "        panic(err)" +:+ nl in
  let code := code +:+ "    }" +:+ nl in
  let code := code +:+ "    defer resp.Body.Close()" +:+ nl +:+ nl in
  let code := code +:+ "    body, err := io.ReadAll(resp.Body)" +:+ nl in
  let code := code +:+ "    if err != nil {" +:+ nl in
  let code := code +:+ "        panic(err)" +:+ nl in
  let code := code +:+ "    }" +:+ nl +:+ nl in
  let code :=
    code +:+ "    fmt.Printf(" +:+ quote +:+ "Status: %s\n" +:+ quote +:+ ", resp.Status)"
         +:+ nl in
  let code :=
    code +:+ "    fmt.Printf(" +:+ quote +:+ "Response: %s\n" +:+ quote
         +:+ ", string(body))" +:+ nl in
  mret (code +:+ "}").

(** The generator of each language. *)
Definition generator (l : Language) (endpoint : NormalizedEndpoint)
    (options : CodeSnippetOptions) : Res string :=
  match l with
  | Curl => generateCurl servers endpoint options
  | JavaScript => generateJavaScript endpoint options false
  | TypeScript => generateJavaScript endpoint options true
  | Python => generatePython endpoint options
  | Node => generateNode endpoint options
  | Php => generatePhp endpoint options
  | Java => generateJava endpoint options
  | Go => generateGo endpoint options
  end.

Definition generateForEndpoint (endpoint : NormalizedEndpoint)
    (options : CodeSnippetOptions) : Res CodeSnippetResult :=
  match List.find (fun lang => String.eqb (language_id lang) (languageId (language options)))
                  availableLanguages with
  | None => Throw (Error ("Unsupported language: " +:+ languageId (language options)))
  | Some lang =>
      code ← generator (language options) endpoint options;
      mret {| code := code; snippet_language := lang;
              snippet_description :=
                language_name lang +:+ " code for "
                +:+ toUpperCase (methodName (method endpoint)) +:+ " " +:+ path endpoint |}
  end.

(** [findEndpointById(spec.endpoints, operationId)] on endpoints of the
    declared type. *)
Definition findById (endpoints : list NormalizedEndpoint) (id' : string)
  : option NormalizedEndpoint :=
  List.find (fun endpoint => String.eqb (id endpoint) id') endpoints.

Definition notFound (operationId : string) : Exn :=
  Error ("Operation with ID " +:+ quote +:+ operationId +:+ quote +:+ " not found").

(** [generate(operationId, options)]; [endpoints] is [spec?.endpoints]. *)
Definition generate (endpoints : option (list NormalizedEndpoint)) (operationId : string)
    (options : CodeSnippetOptions) : Res CodeSnippetResult :=
  match endpoints with
  | None => Throw (Error "No API spec available")
  | Some endpoints =>
      match findById endpoints operationId with
      | None => Throw (notFound operationId)
      | Some endpoint => generateForEndpoint endpoint options
      end
  end.

(** [useEndpointCodeSnippet(endpoint).generate(options)] *)
Definition generateFor (endpoint : option NormalizedEndpoint)
    (options : CodeSnippetOptions) : Res CodeSnippetResult :=
  match endpoint with
  | None => Throw (Error "No endpoint provided")
  | Some endpoint => generateForEndpoint endpoint options
  end.

End WithHost.
End Generators.

Module GeneratorExamples.
Import JS Types Platform Snippet Generators UrlExamples.

Definition standardPrinter : Printer :=
  {| JSON_stringify_compact := StandardHost.stringify 0;
     JSON_stringify_wide := StandardHost.stringify 4 |}.

Definition usersServers : option (list Server) :=
  Some [{| server_url := "https://api.example.com/v1"; server_description := None |}].

Definition apiKeyInQuery : Auth :=
  {| auth_type := ApiKey;
     apiKey := Some {| apiKey_name := "api_key"; apiKey_value := "secret";
                       apiKey_in := InQuery |};
     bearer := None; basic := None; oauth2 := None |}.

(** Basic authentication with a password that holds a euro sign, U+20AC. *)
Definition euroAuth : Auth :=
  {| auth_type := Basic; apiKey := None; bearer := None;
     basic := Some {| username := "user"; password := "5€" |}; oauth2 := None |}.

Definition inLanguage (l : Language) (a : option Auth) (b : Value) : CodeSnippetOptions :=
  {| language := l; includeAuth := Some true; auth := a;
     parameters := Some {| pathParams := None; queryParams := None; headers := None;
                           body := b |};
     serverUrl := None; formatted := None |}.

End GeneratorExamples.

(** ** hooks/useExecuteOperation.ts: the entry points *)

Module Executor.
Import JS Types Platform Execute.

Definition notFound (operationId : string) : Exn :=
  Error ("Operation with ID " +:+ Snippet.quote +:+ operationId +:+ Snippet.quote
         +:+ " not found").

Section WithRequest.
(** [executeRequest] sends the request; what it returns is the outcome of
    the promise. *)
Context {Result : Type}.
Variable executeRequest :
  NormalizedEndpoint -> option ExecuteOperationParams -> Res Result.

(** [executeById(operationId, params)]; [endpoints] is [spec?.endpoints]. *)
Definition executeById (endpoints : option (list NormalizedEndpoint))
    (operationId' : string) (params : option ExecuteOperationParams) : Res Result :=
  match endpoints with
  | None => Throw (Error "No API specification loaded")
  | Some endpoints =>
      match List.find (fun ep => bool_decide (operationId ep = Some operationId'))
                      endpoints with
      | None => Throw (notFound operationId')
      | Some endpoint => executeRequest endpoint params
      end
  end.

(** [execute(endpoint, params)] *)
Definition execute (endpoint : NormalizedEndpoint)
    (params : option ExecuteOperationParams) : Res Result :=
  executeRequest endpoint params.

(** [useExecuteEndpoint(endpoint).execute(params)] *)
Definition executeEndpoint (endpoint : option NormalizedEndpoint)
    (params : option ExecuteOperationParams) : Res Result :=
  match endpoint with
  | None => Throw (Error "No endpoint provided")
  | Some endpoint => execute endpoint params
  end.

End WithRequest.

(** How often [c] stands in [s]. *)
Fixpoint count (c : ascii) (s : string) : nat :=
  match s with
  | EmptyString => 0
  | String d s' => (if Ascii.eqb c d then 1 else 0) + count c s'
  end.



Definition requestParams (pathParams queryParams : option (list (string * Scalar)))
  : ExecuteOperationParams :=
  {| pathParams := pathParams;
     queryParams := List.map (fun kv => (fst kv, inl (snd kv))) <$> queryParams |}.

End Executor.

(** * Properties

    ** Strings *)

Module StringFacts.
Import JS.
#[local] Arguments append !s1 s2 / : simpl nomatch.

Lemma append_assoc (a b c : string) : (a +:+ b) +:+ c = a +:+ (b +:+ c).
Proof. induction a as [|x a IH]; simpl; [done | by f_equal]. Qed.

Lemma append_nil_r (a : string) : a +:+ EmptyString = a.
Proof. induction a as [|x a IH]; simpl; [done | by f_equal]. Qed.

Lemma length_append (a b : string) :
  String.length (a +:+ b) = (String.length a + String.length b)%nat.
Proof. induction a as [|x a IH]; simpl; [done | by f_equal]. Qed.

Lemma prefix_append (p s : string) : String.prefix p (p +:+ s) = true.
Proof.
  induction p as [|c p IH]; simpl; [by destruct s |].
  destruct (ascii_dec c c); [done | congruence].
Qed.

Lemma prefix_split (p s : string) :
  String.prefix p s = true -> exists t, s = p +:+ t.
Proof.
  revert s. induction p as [|c p IH]; intros s Hp; simpl in *.
  - exists s. reflexivity.
  - destruct s as [|d s]; simpl in Hp; [done |].
    destruct (ascii_dec c d) as [-> | ?]; [| done].
    destruct (IH _ Hp) as [t ->]. exists t. reflexivity.
Qed.

Lemma dropString_append (p s : string) : dropString (String.length p) (p +:+ s) = s.
Proof. induction p as [|c p IH]; simpl; [by destruct s | done]. Qed.

Lemma splitFirst_unfold (pat s : string) :
  splitFirst pat s =
  if String.prefix pat s then Some (EmptyString, dropString (String.length pat) s)
  else match s with
       | EmptyString => None
       | String c s' =>
           match splitFirst pat s' with
           | Some (a, b) => Some (String c a, b)
           | None => None
           end
       end.
Proof. by destruct s. Qed.

(** [splitFirst] returns a decomposition of the text around the pattern. *)
Lemma splitFirst_sound (pat s a b : string) :
  splitFirst pat s = Some (a, b) -> s = a +:+ pat +:+ b.
Proof.
  revert a b. induction s as [|c s IH]; intros a b; rewrite splitFirst_unfold.
  - destruct pat as [|p pat]; simpl; [| done]. intros E. by simplify_eq.
  - destruct (String.prefix pat (String c s)) eqn:Hp.
    + intros E. simplify_eq. destruct (prefix_split _ _ Hp) as [t Ht].
      rewrite Ht, dropString_append. reflexivity.
    + destruct (splitFirst pat s) as [[a' b']|] eqn:Hs; [| done].
      intros [= <- <-]. simpl. by rewrite (IH a' b' eq_refl) at 1.
Qed.




Lemma splitFirst_complete (pat a b : string) :
  is_Some (splitFirst pat (a +:+ pat +:+ b)).
Proof.
  induction a as [|c a IH]; rewrite splitFirst_unfold.
  - simpl (EmptyString +:+ _). rewrite prefix_append. eauto.
  - destruct (String.prefix pat _); [eauto |].
    simpl. destruct IH as [[a' b'] ->]. eauto.
Qed.

Lemma includes_append (pat a b : string) : includes pat (a +:+ pat +:+ b) = true.
Proof. unfold includes. by destruct (splitFirst_complete pat a b) as [? ->]. Qed.

Lemma includes_inv (pat s : string) :
  includes pat s = true -> exists a b, s = a +:+ pat +:+ b.
Proof.
  unfold includes. destruct (splitFirst pat s) as [[a b]|] eqn:E; [| done].
  intros _. exists a, b. by apply splitFirst_sound.
Qed.

Lemma includes_before pat s t :
  includes pat s = true -> includes pat (s +:+ t) = true.
Proof.
  intros (x & y & ->)%includes_inv.
  rewrite !append_assoc. apply includes_append.
Qed.

Lemma includes_after pat a s :
  includes pat s = true -> includes pat (a +:+ s) = true.
Proof.
  intros (x & y & ->)%includes_inv.
  rewrite <- append_assoc. apply includes_append.
Qed.

End StringFacts.

(** ** The repository's tests, run on the model *)

Module RepositoryTests.
Import JS Mocks LoaderExamples UrlExamples Fixtures.

(** parseOpenApi.test.ts *)

Example parses_the_mock_spec :
  (fun spec => (Parsing.info spec, Parsing.servers spec, Parsing.spec_tags spec,
                length (Parsing.endpoints spec))) <$> parsed mockOpenApiSpec
  = Some (getPropOpt mockOpenApiSpec "info", getPropOpt mockOpenApiSpec "servers",
          getPropOpt mockOpenApiSpec "tags", 5%nat).
Proof. vm_compute. reflexivity. Qed.

Example throws_for_invalid_json_and_yaml :
  exists rest,
    @Parsing.parseOpenApi rejectingParsers 8 (VStr "invalid content {[}")
    = Throw (Error ("Failed to parse OpenAPI specification" +:+ rest)).
Proof. eexists. vm_compute. reflexivity. Qed.

Example normalizes_endpoints :
  (fun e => (Parsing.method e, Parsing.path e, Parsing.summary e, Parsing.tags e,
             (fun p => (Parsing.param_name p, Parsing.param_required p))
               <$> Parsing.parameters e))
    <$> byOperationId mockOpenApiSpec "listUsers"
  = Some (Parsing.Get, "/users", VStr "List users", VArr [VStr "users"],
          [(VStr "limit", VBool false)]).
Proof. vm_compute. reflexivity. Qed.

Example handles_parameters :
  (fun e => (fun p => (Parsing.param_name p, Parsing.param_in p,
                       Parsing.param_required p, Parsing.param_description p))
              <$> Parsing.parameters e)
    <$> byOperationId mockOpenApiSpec "getUserById"
  = Some [(VStr "userId", VStr "path", VBool true, VStr "ID of user to retrieve")].
Proof. vm_compute. reflexivity. Qed.

Example handles_request_bodies :
  (fun e => (fun b => (Parsing.body_required b, Parsing.body_description b,
                       Parsing.media_mediaType <$> Parsing.body_content b))
              <$> Parsing.requestBody e)
    <$> byOperationId mockOpenApiSpec "createUser"
  = Some (Some (VBool true, VStr "User to create", ["application/json"])).
Proof. vm_compute. reflexivity. Qed.

Example handles_responses :
  (fun e => (fun r => (Parsing.response_statusCode r, Parsing.response_description r))
              <$> Parsing.responses e)
    <$> byOperationId mockOpenApiSpec "createUser"
  = Some [("201", VStr "User created"); ("400", VStr "Invalid input")].
Proof. vm_compute. reflexivity. Qed.

Example extracts_schemas :
  (fun spec =>
     (fun user =>
        (Parsing.schema_type user, Parsing.schema_required user,
         (fun ps => Parsing.schema_type <$> List.find (fun p => String.eqb (fst p) "id") ps
                    ≫= Some ∘ snd)
           <$> Parsing.schema_properties user))
       <$> (snd <$> List.find (fun p => String.eqb (fst p) "User") (Parsing.schemas spec)))
    <$> parsed mockOpenApiSpec
  = Some (Some (VStr "object", VArr [VStr "id"; VStr "username"],
                Some (Some (VStr "integer")))).
Proof. vm_compute. reflexivity. Qed.

Example finds_endpoint_by_operation_id :
  Parsing.operationId
    <$> Parsing.findEndpointById (parsedEndpoints mockOpenApiSpec) (VStr "listUsers")
  = Some (VStr "listUsers") /\
  Parsing.findEndpointById (parsedEndpoints mockOpenApiSpec) (VStr "nonExistent") = None.
Proof. split; vm_compute; reflexivity. Qed.

(** useSearch.test.tsx *)

Example returns_all_endpoints_without_filters :
  length (search noFilters) = 4%nat.
Proof. vm_compute. reflexivity. Qed.

Example filters_by_method :
  (fun r => Types.method (Search.endpoint r))
    <$> search {| Search.query := None; Search.methods := Some [Parsing.Post];
                  Search.filter_tags := None; Search.filter_deprecated := Search.Unset;
                  Search.hasParameters := Search.Unset; Search.hasRequestBody := Search.Unset;
                  Search.responseStatusCodes := None |}
  = [Parsing.Post].
Proof. vm_compute. reflexivity. Qed.

Example filters_by_tags :
  operationIds
    (search {| Search.query := None; Search.methods := None;
               Search.filter_tags := Some ["users"];
               Search.filter_deprecated := Search.Unset; Search.hasParameters := Search.Unset;
               Search.hasRequestBody := Search.Unset; Search.responseStatusCodes := None |})
  = [Some "listUsers"; Some "createUser"].
Proof. vm_compute. reflexivity. Qed.

Example filters_by_deprecated_status :
  operationIds
    (search {| Search.query := None; Search.methods := None;
               Search.filter_tags := None; Search.filter_deprecated := Search.Flagged true;
               Search.hasParameters := Search.Unset; Search.hasRequestBody := Search.Unset;
               Search.responseStatusCodes := None |})
  = [Some "getAdminStats"].
Proof. vm_compute. reflexivity. Qed.

Example filters_by_hasParameters :
  operationIds
    (search {| Search.query := None; Search.methods := None;
               Search.filter_tags := None; Search.filter_deprecated := Search.Unset;
               Search.hasParameters := Search.Flagged true; Search.hasRequestBody := Search.Unset;
               Search.responseStatusCodes := None |})
  = [Some "listUsers"].
Proof. vm_compute. reflexivity. Qed.

Example filters_by_hasRequestBody :
  operationIds
    (search {| Search.query := None; Search.methods := None;
               Search.filter_tags := None; Search.filter_deprecated := Search.Unset;
               Search.hasParameters := Search.Unset; Search.hasRequestBody := Search.Flagged true;
               Search.responseStatusCodes := None |})
  = [Some "createUser"].
Proof. vm_compute. reflexivity. Qed.

Example filters_by_response_status_codes :
  operationIds
    (search {| Search.query := None; Search.methods := None;
               Search.filter_tags := None; Search.filter_deprecated := Search.Unset;
               Search.hasParameters := Search.Unset; Search.hasRequestBody := Search.Unset;
               Search.responseStatusCodes := Some ["201"] |})
  = [Some "createUser"].
Proof. vm_compute. reflexivity. Qed.

Example combines_filters :
  operationIds
    (search {| Search.query := None; Search.methods := Some [Parsing.Get];
               Search.filter_tags := Some ["users"];
               Search.filter_deprecated := Search.Unset; Search.hasParameters := Search.Flagged true;
               Search.hasRequestBody := Search.Unset; Search.responseStatusCodes := None |})
  = [Some "listUsers"].
Proof. vm_compute. reflexivity. Qed.

Example ranks_results_by_relevance :
  (fun r => (Types.operationId (Search.endpoint r), Search.score r,
             Search.matchedFields r))
    <$> search (SearchExamples.queryFor "user")
  = [(Some "listUsers", 1,
      ["summary"; "description"; "operationId"; "path"; "tags"; "parameters"]);
     (Some "createUser", 1,
      ["summary"; "description"; "operationId"; "path"; "tags"; "responses"])].
Proof. vm_compute. reflexivity. Qed.

Example respects_minimum_query_length :
  (fun r => Search.matchedFields r)
    <$> Search.filteredResults
          {| Search.searchFields := Search.searchFields Search.defaultOptions;
             Search.caseSensitive := false; Search.fuzzySearch := false;
             Search.minQueryLength := 3 |}
          searchEndpoints (SearchExamples.queryFor "u")
  = [[]; []; []; []].
Proof. vm_compute. reflexivity. Qed.

(** useApiLoader.test.ts *)

Example loads_spec_from_object :
  outcome resolves (fromSpec searchMockSpec) emptyWorld
  = Some (true, None, 0%nat, false).
Proof. vm_compute. reflexivity. Qed.

Example loads_spec_from_url :
  outcome resolves (fromUrl None None) emptyWorld = Some (true, None, 1%nat, false).
Proof. vm_compute. reflexivity. Qed.

Example handles_fetch_errors :
  outcome rejects (fromUrl (Some 0%Z) None) emptyWorld
  = Some (false, Some "Network error", 1%nat, false).
Proof. vm_compute. reflexivity. Qed.

Example handles_http_errors :
  outcome notFound (fromUrl (Some 0%Z) None) emptyWorld
  = Some (false, Some "Failed to fetch spec: 404 Not Found", 1%nat, false).
Proof. vm_compute. reflexivity. Qed.

Example caches_successful_requests :
  (fun '(w', _) => outcome resolves (fromUrl None None) w')
    <$> @Loader.mount mockParsers resolves 8 (Some (fromUrl None None)) emptyWorld
  = Some (Some (true, None, 1%nat, false)).
Proof. vm_compute. reflexivity. Qed.

Example retries_on_failure :
  outcome failsOnce (fromUrl (Some 1%Z) (Some 10%Z)) emptyWorld
  = Some (true, None, 2%nat, false).
Proof. vm_compute. reflexivity. Qed.

Example handles_invalid_spec_data :
  exists rest,
    outcome resolves (fromSpec (VStr "invalid json {[}")) emptyWorld
    = Some (false, Some ("Failed to parse OpenAPI specification" +:+ rest),
            0%nat, false).
Proof. eexists. vm_compute. reflexivity. Qed.

Example succeeds_on_the_third_request :
  outcome failsTwice (fromUrl (Some 2%Z) (Some 10%Z)) emptyWorld
  = Some (true, None, 3%nat, false).
Proof. vm_compute. reflexivity. Qed.

(** useCodeSnippet.test.tsx *)

Example generates_curl_snippet :
  let code :=
    curl "getUserById"
         (withParameters {| Snippet.pathParams := Some [("id", VStr "123")];
                            Snippet.queryParams := None; Snippet.headers := None;
                            Snippet.body := VUndef |}) in
  contains "curl -X GET" code = true /\
  contains "https://api.example.com/users/123" code = true.
Proof. split; vm_compute; reflexivity. Qed.

Example generates_curl_snippet_with_authentication :
  contains (Snippet.bearerFlag "test-token")
           (curl "listUsers" (withAuth SnippetExamples.bearerAuth)) = true.
Proof. vm_compute. reflexivity. Qed.

Example generates_curl_snippet_with_api_key_in_header :
  contains ("-H " +:+ Snippet.quote +:+ "X-API-Key: secret-key" +:+ Snippet.quote)
    (curl "listUsers"
       (withAuth {| Snippet.auth_type := Snippet.ApiKey;
                    Snippet.apiKey :=
                      Some {| Snippet.apiKey_name := "X-API-Key";
                              Snippet.apiKey_value := "secret-key";
                              Snippet.apiKey_in := Snippet.InHeader |};
                    Snippet.bearer := None; Snippet.basic := None;
                    Snippet.oauth2 := None |})) = true.
Proof. vm_compute. reflexivity. Qed.

Example generates_curl_snippet_with_api_key_in_query :
  contains "api_key=secret-key"
    (curl "listUsers"
       (withAuth {| Snippet.auth_type := Snippet.ApiKey;
                    Snippet.apiKey :=
                      Some {| Snippet.apiKey_name := "api_key";
                              Snippet.apiKey_value := "secret-key";
                              Snippet.apiKey_in := Snippet.InQuery |};
                    Snippet.bearer := None; Snippet.basic := None;
                    Snippet.oauth2 := None |})) = true.
Proof. vm_compute. reflexivity. Qed.

Example generates_curl_snippet_with_basic_auth :
  @Platform.btoa standardHost "user:pass" = Ok "dXNlcjpwYXNz" /\
  contains ("-H " +:+ Snippet.quote +:+ "Authorization: Basic dXNlcjpwYXNz"
            +:+ Snippet.quote)
    (curl "listUsers"
       (withAuth {| Snippet.auth_type := Snippet.Basic; Snippet.apiKey := None;
                    Snippet.bearer := None;
                    Snippet.basic := Some {| Snippet.username := "user";
                                             Snippet.password := "pass" |};
                    Snippet.oauth2 := None |})) = true.
Proof. split; vm_compute; reflexivity. Qed.

Example generates_curl_snippet_with_request_body :
  contains ("-H " +:+ Snippet.quote +:+ "Content-Type: application/json"
            +:+ Snippet.quote)
    (curl "createUser"
       (withParameters
          {| Snippet.pathParams := None; Snippet.queryParams := None;
             Snippet.headers := None;
             Snippet.body := VObj [("name", VStr "John Doe");
                                   ("email", VStr "john@example.com")] |})) = true.
Proof. vm_compute. reflexivity. Qed.

(** useExecuteOperation.test.tsx *)

Example executes_operation_by_id :
  requestUrl "getUserById"
    {| Execute.pathParams := Some [("id", Execute.SStr "123")];
       Execute.queryParams := None |}
  = Some (Ok "https://api.example.com/users/123").
Proof. vm_compute. reflexivity. Qed.

Example executes_operation_with_query_parameters :
  requestUrl "listUsers"
    {| Execute.pathParams := None;
       Execute.queryParams := Some [("limit", inl (Execute.SNum 10));
                                    ("active", inl (Execute.SBool true))] |}
  = Some (Ok "https://api.example.com/users?limit=10&active=true").
Proof. vm_compute. reflexivity. Qed.

End RepositoryTests.

(** ** The reference resolver *)

Module ResolverProofs.
Import JS Parsing StringFacts Examples.

Lemma truthy_not_nullish v : truthy v = true -> nullish v = false.
Proof. by destruct v. Qed.

Lemma isObjectValue_not_nullish v : isObjectValue v = true -> nullish v = false.
Proof. by destruct v. Qed.

Lemma getProp_ok v k :
  nullish v = false -> getProp v k = Ok (default VUndef (ownProp v k)).
Proof. by destruct v. Qed.

Lemma getComputed_own v k x : ownProp v k = Some x -> getComputed v k = Ok x.
Proof. destruct v; simpl; try done; by intros ->. Qed.

Lemma descend_own ref v segment rest next :
  ownProp v segment = Some next ->
  descend ref v (segment :: rest)
  = if truthy next then descend ref next rest else Throw (unresolved ref).
Proof. intros Hown. simpl. by rewrite (getComputed_own _ _ _ Hown). Qed.



(** A pointer that passes through a falsy value is never resolved. *)
Lemma descend_falsy ref pre : forall v segment post next,
  target v (pre ++ [segment]) = Some next -> truthy next = false ->
  descend ref v (pre ++ segment :: post) = Throw (unresolved ref).
Proof.
  induction pre as [|s pre IH]; intros v segment post next Ht Hn.
  - simpl app. simpl in Ht.
    destruct (ownProp v segment) as [n|] eqn:Hown; [| done].
    rewrite (descend_own _ _ _ _ _ Hown). simplify_eq. by rewrite Hn.
  - simpl app. simpl in Ht.
    destruct (ownProp v s) as [n|] eqn:Hown; [| done].
    rewrite (descend_own _ _ _ _ _ Hown).
    destruct (truthy n) eqn:Hn'; [| done].
    eapply IH; eauto.
Qed.

Lemma resolveReference_ref item spec ref :
  refOf item = Some ref ->
  resolveReference item spec = descend ref spec (pointerSegments ref).
Proof.
  destruct item as [| | | | | |fields]; try done. unfold refOf, resolveReference.
  simpl. unfold hasProp. simpl.
  destruct (lookupField "$ref" fields) as [[]|]; try done.
  by intros [= ->].
Qed.



(** A pointer into [Object.prototype]: the segment is no property of the
    document, and it is not absent; the code goes on with the function it
    finds, and the model does not follow it. *)
Example resolveReference_inherited_member :
  target petstore ["constructor"] = None /\
  absent petstore "constructor" = false /\
  resolveReference (VObj [("$ref", VStr "#/constructor/name")]) petstore = OutOfFuel.
Proof. repeat split; reflexivity. Qed.


Lemma falsy_values :
  Forall (fun v => truthy v = false) [VBool false; VNum 0; VStr EmptyString; VNull].
Proof. repeat constructor. Qed.

(** C9: some pointer whose segments all exist is reported as unresolvable;
    this happens whenever the value a segment leads to, the last one
    included, is falsy. *)
Theorem resolveReference_rejects_falsy_values :
  (exists spec ref node,
     isObjectValue spec = true /\
     target spec (pointerSegments ref) = Some node /\
     resolveReference (VObj [("$ref", VStr ref)]) spec = Throw (unresolved ref)) /\
  (forall item spec ref pre segment post value,
     nullish spec = false -> refOf item = Some ref ->
     pointerSegments ref = (pre ++ segment :: post)%list ->
     target spec (pre ++ [segment]) = Some value -> truthy value = false ->
     resolveReference item spec = Throw (unresolved ref)).
Proof.
  split.
  - exists petstore, "#/components/schemas/Pet/nullable", (VBool false).
    by repeat split.
  - intros item spec ref pre segment post value _ Href Hsegs Ht Hv.
    rewrite (resolveReference_ref _ _ _ Href), Hsegs.
    eapply descend_falsy; eauto.
Qed.

Lemma resolveReference_rejects_falsy_values_witness :
  target petstore ["components"; "schemas"; "Pet"; "nullable"] = Some (VBool false) /\
  resolveReference (VObj [("$ref", VStr "#/components/schemas/Pet/nullable")]) petstore
  = Throw (Error "Unable to resolve reference: #/components/schemas/Pet/nullable").
Proof.
  split; [reflexivity |].
  apply (proj2 resolveReference_rejects_falsy_values
           (VObj [("$ref", VStr "#/components/schemas/Pet/nullable")]) petstore
           "#/components/schemas/Pet/nullable"
           ["components"; "schemas"; "Pet"] "nullable" [] (VBool false));
    reflexivity.
Defined.

End ResolverProofs.

(** ** The bound on recursion

    The depth of recursion through [$ref] is bounded in the model only.
    Once a run comes back within the bound, a larger bound gives the same
    outcome. *)

Module FuelProofs.
Import JS Parsing Mocks LoaderExamples.

Lemma upTo_refl {A} (r : Res A) : upTo r r.
Proof. by right. Qed.

Lemma upTo_trans {A} (r1 r2 r3 : Res A) : upTo r1 r2 -> upTo r2 r3 -> upTo r1 r3.
Proof. intros [-> | ->]; [by left | done]. Qed.

Lemma upTo_bind {A B} (m m' : Res A) (f f' : A -> Res B) :
  upTo m m' -> (forall a, upTo (f a) (f' a)) -> upTo (m ≫= f) (m' ≫= f').
Proof.
  intros [-> | ->] Hf; [by left |].
  destruct m' as [a| |]; simpl; [apply Hf | by right | by left].
Qed.

Lemma upTo_mapRes {A B} (f f' : A -> Res B) (xs : list A) :
  (forall x, upTo (f x) (f' x)) -> upTo (mapRes f xs) (mapRes f' xs).
Proof.
  intros Hf. induction xs as [|x xs IH]; simpl; [apply upTo_refl |].
  apply upTo_bind; [apply Hf |]. intros y.
  apply upTo_bind; [apply IH |]. intros ys. apply upTo_refl.
Qed.

Lemma upTo_forEach {A S} (body body' : S -> A -> Res S) (xs : list A) : forall s,
  (forall s x, upTo (body s x) (body' s x)) ->
  upTo (forEach body xs s) (forEach body' xs s).
Proof.
  induction xs as [|x xs IH]; intros s Hb; simpl; [apply upTo_refl |].
  apply upTo_bind; [apply Hb |]. intros s'. by apply IH.
Qed.

Lemma upTo_whenTruthy {A} (v : Value) (f f' : Value -> Res A) :
  (forall x, upTo (f x) (f' x)) -> upTo (whenTruthy v f) (whenTruthy v f').
Proof.
  intros Hf. unfold whenTruthy. destruct (truthy v); [| apply upTo_refl].
  apply upTo_bind; [apply Hf |]. intros a. apply upTo_refl.
Qed.

(** One step of a proof that two runs of the same code agree: the same
    sub-run on both sides, or a construct whose parts agree. *)
Ltac agree :=
  repeat first
    [ match goal with |- upTo ?r ?r' => constr_eq r r'; exact (upTo_refl r) end
    | match goal with
      | H : forall schema spec, upTo (normalizeSchema ?n schema spec) _
        |- upTo (normalizeSchema ?n ?s ?d) _ => exact (H s d)
      end
    | match goal with
      | |- upTo (_ ≫= _) (_ ≫= _) => apply upTo_bind; [| intros ?]
      | |- upTo (mapRes _ _) (mapRes _ _) => apply upTo_mapRes; intros ?
      | |- upTo (whenTruthy _ _) (whenTruthy _ _) => apply upTo_whenTruthy; intros ?
      | |- upTo (forEach _ _ _) (forEach _ _ _) => apply upTo_forEach; intros ? ?
      | |- upTo (let '(_, _) := ?p in _) _ => destruct p
      | |- upTo (match ?v with _ => _ end) _ => destruct v
      | |- upTo (if ?c then _ else _) _ => destruct c
      end ].

Lemma normalizeSchema_step (fuel : nat) : forall schema spec,
  upTo (normalizeSchema fuel schema spec) (normalizeSchema (S fuel) schema spec).
Proof.
  induction fuel as [|fuel IH]; intros schema spec; [by left |].
  change (normalizeSchema (S (S fuel)) schema spec) with
    (ltac:(let t := eval cbv beta iota delta [normalizeSchema] in
                    (normalizeSchema (S (S fuel)) schema spec) in
           let t := eval cbv beta iota in t in exact t)).
  unfold normalizeSchema at 1; fold normalizeSchema.
  agree.
Qed.

Lemma normalizeSchema_fuel (fuel fuel' : nat) (schema spec : Value) :
  (fuel <= fuel')%nat ->
  upTo (normalizeSchema fuel schema spec) (normalizeSchema fuel' schema spec).
Proof.
  induction 1 as [|fuel' _ IH]; [apply upTo_refl |].
  eapply upTo_trans; [apply IH | apply normalizeSchema_step].
Qed.

Section Larger.
Variables fuel fuel' : nat.
Hypothesis Hle : (fuel <= fuel')%nat.

Lemma normalizeParameters_fuel (parameters : list Value) (spec : Value) :
  upTo (normalizeParameters fuel parameters spec)
       (normalizeParameters fuel' parameters spec).
Proof. unfold normalizeParameters. agree. by apply normalizeSchema_fuel. Qed.

Lemma normalizeMediaType_fuel (mediaType : string) (content spec : Value) :
  upTo (normalizeMediaType fuel mediaType content spec)
       (normalizeMediaType fuel' mediaType content spec).
Proof. unfold normalizeMediaType. agree. by apply normalizeSchema_fuel. Qed.

Lemma normalizeContent_fuel (content spec : Value) :
  upTo (normalizeContent fuel content spec) (normalizeContent fuel' content spec).
Proof. unfold normalizeContent. agree. apply normalizeMediaType_fuel. Qed.

Lemma normalizeRequestBody_fuel (requestBody spec : Value) :
  upTo (normalizeRequestBody fuel requestBody spec)
       (normalizeRequestBody fuel' requestBody spec).
Proof. unfold normalizeRequestBody. agree. apply normalizeContent_fuel. Qed.

Lemma normalizeHeader_fuel (name : string) (header spec : Value) :
  upTo (normalizeHeader fuel name header spec)
       (normalizeHeader fuel' name header spec).
Proof. unfold normalizeHeader. agree. by apply normalizeSchema_fuel. Qed.

Lemma normalizeResponses_fuel (responses spec : Value) :
  upTo (normalizeResponses fuel responses spec)
       (normalizeResponses fuel' responses spec).
Proof.
  unfold normalizeResponses. agree;
    [apply normalizeContent_fuel | apply normalizeHeader_fuel].
Qed.

Lemma normalizeEndpoint_fuel (path : string) (method : HttpMethod)
    (operation spec : Value) :
  upTo (normalizeEndpoint fuel path method operation spec)
       (normalizeEndpoint fuel' path method operation spec).
Proof.
  unfold normalizeEndpoint. agree;
    [ apply normalizeParameters_fuel | apply normalizeRequestBody_fuel
    | apply normalizeResponses_fuel ].
Qed.

Lemma extractEndpoints_fuel (spec : Value) :
  upTo (extractEndpoints fuel spec) (extractEndpoints fuel' spec).
Proof. unfold extractEndpoints. agree. apply normalizeEndpoint_fuel. Qed.

Lemma extractSchemas_fuel (spec : Value) :
  upTo (extractSchemas fuel spec) (extractSchemas fuel' spec).
Proof. unfold extractSchemas. agree. by apply normalizeSchema_fuel. Qed.

Lemma parseOpenApi_fuel `{Parsers} (spec : Value) :
  upTo (parseOpenApi fuel spec) (parseOpenApi fuel' spec).
Proof.
  unfold parseOpenApi. agree; [apply extractEndpoints_fuel | apply extractSchemas_fuel].
Qed.

End Larger.

(** A result obtained within some bound is the result for every larger
    bound: what [parseOpenApi] returns or throws does not depend on the
    fuel that was enough to get it. *)
Theorem parseOpenApi_result_stable `{Parsers} (fuel fuel' : nat) (spec : Value) :
  (fuel <= fuel')%nat ->
  parseOpenApi fuel spec <> OutOfFuel ->
  parseOpenApi fuel' spec = parseOpenApi fuel spec.
Proof.
  intros Hle Hrun.
  destruct (parseOpenApi_fuel fuel fuel' Hle spec) as [Hout | Hsame];
    [exact (False_ind _ (Hrun Hout)) | symmetry; exact Hsame].
Qed.

(** A depth of 4 is enough for the mock document of the tests. *)
Example parseOpenApi_mock_any_fuel (fuel : nat) :
  (4 <= fuel)%nat ->
  @parseOpenApi rejectingParsers fuel mockOpenApiSpec
  = @parseOpenApi rejectingParsers 4 mockOpenApiSpec.
Proof.
  intros Hle. apply parseOpenApi_result_stable; [exact Hle |].
  vm_compute. discriminate.
Qed.

End FuelProofs.

(** ** The normalizer *)

Module NormalizerProofs.
Import JS Parsing StringFacts Examples Mocks LoaderExamples.

Lemma bind_Ok {A B} (m : Res A) (f : A -> Res B) (b : B) :
  m ≫= f = Ok b -> exists a, m = Ok a /\ f a = Ok b.
Proof. destruct m; simpl; [eauto | done | done]. Qed.

(** Take apart a hypothesis [x ← m; k = Ok b]. *)
Tactic Notation "bind_inv" hyp(H) "as" ident(a) ident(E) :=
  apply bind_Ok in H; destruct H as (a & E & H).

Lemma forEach_app {A S} (body : S -> A -> Res S) (xs ys : list A) (s : S) :
  forEach body (xs ++ ys) s = forEach body xs s ≫= forEach body ys.
Proof.
  revert s. induction xs as [|x xs IH]; intros s; simpl; [done |].
  destruct (body s x); simpl; auto.
Qed.

Lemma normalizeEndpoint_fields fuel p m operation spec e :
  normalizeEndpoint fuel p m operation spec = Ok e ->
  path e = p /\ method e = m /\
  exists operationId, getProp operation "operationId" = Ok operationId /\
                      id e = generateEndpointId m p operationId.
Proof.
  unfold normalizeEndpoint. intros H.
  bind_inv H as operationId Hid.
  repeat (let E := fresh in apply bind_Ok in H; destruct H as (? & E & H)).
  injection H as <-. simpl. eauto.
Qed.

Section PathItem.
Context (fuel : nat) (spec : Value) (p : string) (pathItem : Value).

Let visit := fun (endpoints : list NormalizedEndpoint) (m : HttpMethod) =>
  operation ← getProp pathItem (methodName m);
  if truthy operation then
    endpoint ← normalizeEndpoint fuel p m operation spec;
    mret (endpoints ++ [endpoint])%list
  else mret endpoints.

(** The loop over the method keys adds one endpoint for each key that holds
    a truthy value, in the order of the keys. *)
Lemma methods_loop (ms : list HttpMethod) : forall acc acc',
  forEach visit ms acc = Ok acc' ->
  exists new,
    acc' = (acc ++ new)%list /\
    List.map (fun e => (path e, method e)) new =
    List.map (fun m => (p, m))
             (List.filter (fun m => truthy (getPropOpt pathItem (methodName m))) ms).
Proof.
  induction ms as [|m ms IH]; intros acc acc' H; simpl in H.
  - injection H as <-. exists []. by rewrite app_nil_r.
  - bind_inv H as acc1 Hvisit. unfold visit in Hvisit.
    bind_inv Hvisit as operation Hop.
    assert (operation = getPropOpt pathItem (methodName m)) as ->.
    { destruct pathItem; simpl in *; congruence. }
    simpl. destruct (truthy _) eqn:Ht.
    + bind_inv Hvisit as endpoint Hnorm. injection Hvisit as <-.
      destruct (IH _ _ H) as (new & -> & Hnew).
      exists (endpoint :: new). split; [by rewrite <- app_assoc |].
      simpl. apply normalizeEndpoint_fields in Hnorm as (-> & -> & _). by f_equal.
    + injection Hvisit as <-. by apply IH.
Qed.

End PathItem.

Section Paths.
Context (fuel : nat) (spec : Value).

Let visitPath := fun (endpoints : list NormalizedEndpoint) '(p, pathItem) =>
  forEach (fun (endpoints : list NormalizedEndpoint) m =>
    operation ← getProp pathItem (methodName m);
    if truthy operation then
      endpoint ← normalizeEndpoint fuel p m operation spec;
      mret (endpoints ++ [endpoint])%list
    else mret endpoints) httpMethods endpoints.

Lemma paths_loop (es : list (string * Value)) : forall acc acc',
  forEach visitPath es acc = Ok acc' ->
  exists new,
    acc' = (acc ++ new)%list /\
    List.map (fun e => (path e, method e)) new =
    List.flat_map (fun entry => List.map (fun m => (fst entry, m))
                                         (truthyMethods (snd entry))) es.
Proof.
  induction es as [|[p pathItem] es IH]; intros acc acc' H.
  - injection H as <-. exists []. by rewrite app_nil_r.
  - change (visitPath acc (p, pathItem) ≫= forEach visitPath es = Ok acc') in H.
    bind_inv H as acc1 Hitem.
    apply methods_loop in Hitem as (new1 & -> & Hnew1).
    destruct (IH _ _ H) as (new2 & -> & Hnew2).
    exists (new1 ++ new2)%list. split; [by rewrite app_assoc |].
    simpl. by rewrite map_app, Hnew1, Hnew2.
Qed.

End Paths.

(** Whatever the document holds, the endpoints are the truthy operations, one
    each, path by path in the order of the method keys. *)
Lemma extractEndpoints_operations fuel spec endpoints :
  extractEndpoints fuel spec = Ok endpoints ->
  exists paths,
    getProp spec "paths" ≫= entries = Ok paths /\
    List.map (fun e => (path e, method e)) endpoints =
    List.flat_map (fun entry => List.map (fun m => (fst entry, m))
                                         (truthyMethods (snd entry))) paths.
Proof.
  unfold extractEndpoints. intros H.
  bind_inv H as paths Hpaths. bind_inv H as es Hes.
  exists es. split; [by rewrite Hpaths |].
  by apply paths_loop in H as (new & -> & Hnew).
Qed.

Lemma typedPathItem_present pathItem :
  typedPathItem pathItem = true -> truthyMethods pathItem = presentMethods pathItem.
Proof.
  intros Ht. unfold truthyMethods, presentMethods. apply filter_ext_in.
  intros m Hm. unfold typedPathItem in Ht.
  rewrite forallb_forall in Ht. specialize (Ht m Hm). simpl in Ht.
  by destruct (getPropOpt pathItem (methodName m)) as [| |[]| |[]| |].
Qed.

Lemma extractEndpoints_declared (fuel : nat) (spec : Value)
    (paths : list (string * Value)) (endpoints : list NormalizedEndpoint) :
  getProp spec "paths" ≫= entries = Ok paths ->
  Forall (fun entry => typedPathItem (snd entry) = true) paths ->
  extractEndpoints fuel spec = Ok endpoints ->
  List.map (fun e => (path e, method e)) endpoints = declaredOperations paths.
Proof.
  intros Hpaths Htyped H.
  apply extractEndpoints_operations in H as (es & Hes & Hops).
  assert (es = paths) as -> by congruence.
  rewrite Hops. unfold declaredOperations.
  rewrite !flat_map_concat_map. f_equal. apply map_ext_in.
  intros entry Hin. rewrite Forall_forall in Htyped.
  rewrite typedPathItem_present; [done |]. by apply Htyped.
Qed.

Lemma parseOpenApi_endpoints `{Parsers} (fuel : nat) (spec : Value) (parsed : ParsedApiSpec) :
  (forall s, spec <> VStr s) ->
  parseOpenApi fuel spec = Ok parsed ->
  extractEndpoints fuel spec = Ok (endpoints parsed).
Proof.
  intros Hspec Hparse. unfold parseOpenApi in Hparse.
  bind_inv Hparse as parsedSpec Hin.
  assert (parsedSpec = spec) as ->.
  { destruct spec; try (by injection Hin). by destruct (Hspec s). }
  bind_inv Hparse as eps Heps.
  repeat (let E := fresh in apply bind_Ok in Hparse; destruct Hparse as (? & E & Hparse)).
  by injection Hparse as <-.
Qed.

(** C1, as the code has it: the endpoints of the parsed specification are
    as many as the method keys that hold a truthy value, over all path
    items, one endpoint for each, in the order of the paths and of the eight
    keys.  These are the keys that are present when every path item has its
    declared type. *)
Theorem parseOpenApi_endpoint_count `{Parsers} (fuel : nat) (spec : Value)
    (paths : list (string * Value)) (parsed : ParsedApiSpec) :
  getProp spec "paths" ≫= entries = Ok paths ->
  parseOpenApi fuel spec = Ok parsed ->
  length (endpoints parsed) = takenCount paths /\
  List.map (fun e => (path e, method e)) (endpoints parsed) = takenOperations paths /\
  (Forall (fun entry => typedPathItem (snd entry) = true) paths ->
   takenCount paths = operationCount paths /\
   takenOperations paths = declaredOperations paths).
Proof.
  intros Hpaths Hparse.
  assert (forall s, spec <> VStr s) as Hspec by (by intros s ->).
  pose proof (parseOpenApi_endpoints _ _ _ Hspec Hparse) as Hextract.
  apply extractEndpoints_operations in Hextract as (es & Hes & Hops).
  assert (es = paths) as -> by congruence.
  split; [| split; [done |]].
  - rewrite <- (length_map (fun e => (path e, method e))), Hops.
    unfold takenCount. rewrite length_flat_map. f_equal. apply map_ext. intros entry.
    by rewrite length_map.
  - intros Htyped. rewrite Forall_forall in Htyped.
    unfold takenCount, operationCount, takenOperations, declaredOperations.
    split.
    + f_equal. apply map_ext_in. intros entry Hin.
      by rewrite typedPathItem_present by (by apply Htyped).
    + rewrite !flat_map_concat_map. f_equal. apply map_ext_in. intros entry Hin.
      by rewrite typedPathItem_present by (by apply Htyped).
Qed.

Lemma parseOpenApi_endpoint_count_witness :
  exists parsed,
    @parseOpenApi rejectingParsers 8 mockOpenApiSpec = Ok parsed /\
    length (endpoints parsed) = 5%nat /\
    List.map (fun e => (path e, method e)) (endpoints parsed)
    = [("/users", Get); ("/users", Post); ("/users/{userId}", Get);
       ("/users/{userId}", Delete); ("/posts", Get)].
Proof.
  destruct (@parseOpenApi rejectingParsers 8 mockOpenApiSpec) as [parsed| |] eqn:E;
    [| by vm_compute in E | by vm_compute in E].
  exists parsed. split; [done |].
  destruct (getProp mockOpenApiSpec "paths" ≫= entries) as [paths| |] eqn:Hpaths;
    [| by vm_compute in Hpaths | by vm_compute in Hpaths].
  destruct (@parseOpenApi_endpoint_count rejectingParsers 8 mockOpenApiSpec paths parsed
              Hpaths E) as (Hlen & Hops & _).
  vm_compute in Hpaths. injection Hpaths as <-. done.
Defined.

(** The claim as stated fails: the key [get] is present, its value being
    [null] and not [undefined], and the loop, which asks [if (operation)],
    makes no endpoint of it. *)
Lemma parseOpenApi_skips_null_operation :
  getProp emptyGetApi "paths" ≫= entries = Ok emptyGetPaths /\
  operationCount emptyGetPaths = 1%nat /\
  exists parsed,
    @parseOpenApi rejectingParsers 1 emptyGetApi = Ok parsed /\
    length (endpoints parsed) = 0%nat.
Proof.
  split; [reflexivity |]. split; [reflexivity |].
  destruct (@parseOpenApi rejectingParsers 1 emptyGetApi) as [parsed| |] eqn:E;
    [| by vm_compute in E | by vm_compute in E].
  exists parsed. split; [done |]. vm_compute in E. by injection E as <-.
Qed.

(** *** Lookup by id *)

Lemma strictEq_eq a b : strictEq a b = true -> a = b.
Proof.
  destruct a, b; simpl; try done.
  - by intros ->%Bool.eqb_prop.
  - by intros ->%Z.eqb_eq.
  - by intros ->%String.eqb_eq.
Qed.

Lemma strictEq_refl a : isPrimitive a = true -> strictEq a a = true.
Proof.
  destruct a; simpl; try done; intros _.
  - by destruct b.
  - apply Z.eqb_refl.
  - apply String.eqb_refl.
Qed.

Lemma find_first {A} (f : A -> bool) (l : list A) (x : A) :
  List.find f l = Some x ->
  exists before after,
    l = (before ++ x :: after)%list /\ f x = true /\
    Forall (fun y => f y = false) before.
Proof.
  induction l as [|y l IH]; simpl; [done |].
  destruct (f y) eqn:Hy.
  - intros [= ->]. by exists [], l.
  - intros (before & after & -> & Hx & Hb)%IH.
    exists (y :: before), after. repeat split; [done |]. by constructor.
Qed.

(** C2, as the code has it: the lookup by the id of an endpoint returns the
    first endpoint of the list that has that id; it is the endpoint itself
    when no other endpoint shares the id. *)
Theorem findEndpointById_first (fuel : nat) (spec : Value)
    (endpoints : list NormalizedEndpoint) (e : NormalizedEndpoint) :
  extractEndpoints fuel spec = Ok endpoints ->
  In e endpoints -> isPrimitive (id e) = true ->
  exists found before after,
    findEndpointById endpoints (id e) = Some found /\
    id found = id e /\
    endpoints = (before ++ found :: after)%list /\
    Forall (fun x => id x <> id e) before /\
    ((forall x, In x endpoints -> id x = id e -> x = e) -> found = e).
Proof.
  intros _ Hin Hprim. unfold findEndpointById.
  destruct (List.find _ endpoints) as [found|] eqn:Hfind.
  - destruct (find_first _ _ _ Hfind) as (before & after & -> & Hid & Hbefore).
    apply strictEq_eq in Hid.
    exists found, before, after. repeat split; try done.
    + eapply Forall_impl; [| exact Hbefore]. simpl. intros x Hx Heq.
      rewrite Heq, strictEq_refl in Hx; done.
    + intros Huniq. apply Huniq; [| done]. apply in_elt.
  - apply (find_none _ _ Hfind) in Hin. by rewrite strictEq_refl in Hin.
Qed.

Lemma findEndpointById_first_witness :
  exists endpoints e,
    extractEndpoints 1 usersApi = Ok endpoints /\
    In e endpoints /\ id e = VStr "createUser" /\
    findEndpointById endpoints (id e) = Some e.
Proof.
  destruct (extractEndpoints 1 usersApi) as [endpoints| |] eqn:E;
    [| by vm_compute in E | by vm_compute in E].
  assert (exists e, List.nth_error endpoints 1 = Some e /\ id e = VStr "createUser"
                    /\ forall x, In x endpoints -> id x = id e -> x = e)
    as (e & Hnth & Hid & Huniq).
  { vm_compute in E. injection E as <-. eexists. split; [reflexivity |].
    split; [reflexivity |]. simpl. intros x [<- | [<- | [<- | []]]]; done. }
  exists endpoints, e.
  assert (In e endpoints) as Hin by (eapply nth_error_In; eauto).
  repeat split; [done | done |].
  destruct (findEndpointById_first 1 usersApi endpoints e E Hin)
    as (found & before & after & -> & _ & _ & _ & Hsame).
  { by rewrite Hid. }
  by rewrite (Hsame Huniq).
Defined.

(** The claim as stated fails: of two endpoints with one id the lookup
    returns the first, for a declared [operationId] and for a derived slug
    alike. *)
Lemma findEndpointById_collision :
  exists first second,
    extractEndpoints 1 collidingApi = Ok [first; second] /\
    id first = VStr "pets" /\ id second = VStr "pets" /\
    findEndpointById [first; second] (id second) = Some first /\
    findEndpointById [first; second] (id second) <> Some second.
Proof.
  do 2 eexists. split; [vm_compute; reflexivity |].
  repeat split; try done; vm_compute; intros [=].
Qed.

Lemma findEndpointById_slug_collision :
  exists first second,
    extractEndpoints 1 slugApi = Ok [first; second] /\
    id first = VStr "GET__a_b" /\ id second = VStr "GET__a_b" /\
    findEndpointById [first; second] (id second) = Some first /\
    first <> second.
Proof.
  do 2 eexists. split; [vm_compute; reflexivity |].
  repeat split; try done; vm_compute; intros [=].
Qed.

End NormalizerProofs.

(** ** Search *)

Module SearchProofs.
Import JS Types Search StringFacts SearchExamples.

(** *** The score of one field *)

(** The two counters of the loop of [fuzzyMatch] move together. *)
Lemma fuzzyScan_counters text : forall query queryIndex matches,
  let '(queryIndex', matches') := fuzzyScan text query queryIndex matches in
  (queryIndex' - queryIndex = matches' - matches)%nat /\
  (queryIndex <= queryIndex')%nat /\ (matches <= matches')%nat /\
  (queryIndex' <= queryIndex + String.length query)%nat.
Proof.
  induction text as [|t text IH]; intros query queryIndex matches; simpl.
  - destruct query; simpl; lia.
  - destruct query as [|q query]; [simpl; lia |].
    destruct (Ascii.eqb t q).
    + specialize (IH query (S queryIndex) (S matches)).
      destruct (fuzzyScan _ _ _ _). simpl. lia.
    + specialize (IH (String q query) queryIndex matches).
      destruct (fuzzyScan _ _ _ _). simpl in *. lia.
Qed.

Lemma fuzzyScan_same text query :
  fst (fuzzyScan text query 0 0) = snd (fuzzyScan text query 0 0).
Proof.
  pose proof (fuzzyScan_counters text query 0 0) as H.
  destruct (fuzzyScan _ _ _ _). simpl. lia.
Qed.

Lemma includes_empty s : includes EmptyString s = true.
Proof. by destruct s. Qed.

Lemma num_nonzero n : n <> 0%nat -> num n <> 0.
Proof.
  intros Hn E. unfold num in E. change 0 with (Q2Qc 0) in E.
  apply Q2Qc_eq_iff in E. unfold Qeq in E. simpl in E. lia.
Qed.

Lemma full_match_score n : n <> 0%nat -> num n / num n * Q2Qc (7 # 10) = Q2Qc (7 # 10).
Proof. intros Hn. field. by apply num_nonzero. Qed.

(** C5, as the code has it: a substring match scores 1; otherwise, with fuzzy
    search off the score is 0, and with fuzzy search on it is
    (matched / length) * 0.7 when every character of the query was matched
    in order, which is 0.7, and 0 when only a part of them was. *)
Theorem fuzzyMatch_score (options : SearchOptions) (query text : string) :
  let q := normalizeText options query in
  let t := normalizeText options text in
  let matched := snd (fuzzyScan t q 0 0) in
  (includes q t = true -> fuzzyMatch options query text = 1) /\
  (includes q t = false -> fuzzySearch options = false ->
   fuzzyMatch options query text = 0) /\
  (includes q t = false -> fuzzySearch options = true ->
   matched = String.length q ->
   fuzzyMatch options query text = num matched / num (String.length q) * Q2Qc (7 # 10)
   /\ fuzzyMatch options query text = Q2Qc (7 # 10)) /\
  (includes q t = false -> fuzzySearch options = true ->
   matched <> String.length q ->
   (matched < String.length q)%nat /\ fuzzyMatch options query text = 0).
Proof.
  intros q t matched. unfold fuzzyMatch. fold q t.
  pose proof (fuzzyScan_same t q) as Hsame.
  pose proof (fuzzyScan_counters t q 0 0) as Hcount.
  subst matched. destruct (fuzzyScan t q 0 0) as [queryIndex matches].
  simpl in *. subst queryIndex.
  split; [| split; [| split]].
  - by intros ->.
  - by intros -> ->.
  - intros Hsub -> Hm. rewrite Hsub, Hm, Nat.eqb_refl. simpl.
    split; [done |]. apply full_match_score.
    intros Hlen. destruct q; [| done]. by rewrite includes_empty in Hsub.
  - intros -> -> Hm. split; [lia |]. by apply Nat.eqb_neq in Hm as ->.
Qed.

Lemma fuzzyMatch_score_witness :
  fuzzyMatch fuzzyOptions "usr" "List Users" = Q2Qc (7 # 10) /\
  fuzzyMatch fuzzyOptions "user" "List Users" = 1 /\
  fuzzyMatch defaultOptions "usr" "List Users" = 0 /\
  fuzzyMatch fuzzyOptions "usx" "List Users" = 0.
Proof.
  split; [| split; [| split]].
  - apply (proj1 (proj2 (proj2 (fuzzyMatch_score fuzzyOptions "usr" "List Users"))));
      reflexivity.
  - apply (proj1 (fuzzyMatch_score fuzzyOptions "user" "List Users")); reflexivity.
  - apply (proj1 (proj2 (fuzzyMatch_score defaultOptions "usr" "List Users")));
      reflexivity.
  - apply (proj2 (proj2 (proj2 (fuzzyMatch_score fuzzyOptions "usx" "List Users"))));
      [reflexivity.. |].
    vm_compute. lia.
Defined.

(** The claim as stated fails: two of the three characters of the query are
    matched in order, and the score is 0, not two thirds of 0.7. *)
Lemma fuzzyMatch_partial_is_zero :
  includes (normalizeText fuzzyOptions "usx") (normalizeText fuzzyOptions "List Users")
  = false /\
  fuzzySearch fuzzyOptions = true /\
  snd (fuzzyScan (normalizeText fuzzyOptions "List Users")
                 (normalizeText fuzzyOptions "usx") 0 0) = 2%nat /\
  fuzzyMatch fuzzyOptions "usx" "List Users" = 0 /\
  fuzzyMatch fuzzyOptions "usx" "List Users"
  <> num 2 / num (String.length "usx") * Q2Qc (7 # 10).
Proof. repeat split; try reflexivity. vm_compute. intros [=]. Qed.

(** *** Sublists *)

Lemma filter_sublist {A} (f : A -> bool) (l : list A) : List.filter f l `sublist_of` l.
Proof.
  induction l as [|x l IH]; simpl; [done |].
  destruct (f x); [by apply sublist_skip | by apply sublist_cons].
Qed.

Lemma applyFilters_sublist endpoints filters :
  applyFilters endpoints filters `sublist_of` endpoints.
Proof.
  unfold applyFilters.
  repeat match goal with
         | |- context [match ?x with _ => _ end] => destruct x
         end;
    repeat (etrans; [apply filter_sublist |]); done.
Qed.

End SearchProofs.

(** ** Binary64 numbers

    A number that is not NaN stands for an integer, its value in units of
    the smallest positive number; the comparisons of the numbers are those
    of the integers. *)

Module Binary64.
#[local] Open Scope Z_scope.
Import Doubles.

Lemma digits_bounds (m : positive) :
  2 ^ (Zpos (digits2_pos m) - 1) <= Zpos m < 2 ^ Zpos (digits2_pos m).
Proof.
  induction m as [m IH|m IH|]; simpl digits2_pos.
  - rewrite Pos2Z.inj_succ. change (Zpos m~1) with (2 * Zpos m + 1).
    replace (Z.succ (Zpos (digits2_pos m)) - 1) with (Z.succ (Zpos (digits2_pos m) - 1)) by lia.
    rewrite !Z.pow_succ_r by lia. lia.
  - rewrite Pos2Z.inj_succ. change (Zpos m~0) with (2 * Zpos m).
    replace (Z.succ (Zpos (digits2_pos m)) - 1) with (Z.succ (Zpos (digits2_pos m) - 1)) by lia.
    rewrite !Z.pow_succ_r by lia. lia.
  - simpl. lia.
Qed.

Lemma bounded_inv m e :
  bounded prec emax m e = true ->
  -1074 <= e <= 971 /\ Zpos (digits2_pos m) <= 53 /\
  (-1074 < e -> Zpos (digits2_pos m) = 53).
Proof.
  unfold bounded, canonical_mantissa, fexp, SpecFloat.emin, prec, emax.
  intros [H1 H2]%andb_prop. apply Z.eqb_eq in H1. apply Z.leb_le in H2. lia.
Qed.

(** The value of a float that is not NaN, in units of the least positive
    float; an infinity counts as the least power of two above every float. *)
Definition scaled (x : spec_float) : Z :=
  match x with
  | S754_zero _ | S754_nan => 0
  | S754_infinity s => if s then - 2 ^ 2098 else 2 ^ 2098
  | S754_finite s m e => if s then - (Zpos m * 2 ^ (e + 1074)) else Zpos m * 2 ^ (e + 1074)
  end.

Definition notNaN (x : spec_float) : bool :=
  match x with S754_nan => false | _ => true end.

Lemma finite_range m e :
  bounded prec emax m e = true ->
  0 < Zpos m * 2 ^ (e + 1074) < 2 ^ 2098.
Proof.
  intros (He & Hd & _)%bounded_inv.
  pose proof (digits_bounds m) as [_ Hm].
  assert (0 < 2 ^ (e + 1074)) by (apply Z.pow_pos_nonneg; lia).
  split; [lia |].
  apply Z.lt_le_trans with (2 ^ Zpos (digits2_pos m) * 2 ^ (e + 1074)).
  - apply Z.mul_lt_mono_pos_r; lia.
  - rewrite <- Z.pow_add_r by lia. apply Z.pow_le_mono_r; lia.
Qed.

(** Two valid mantissas: the lower exponent has the lower value. *)
Lemma exponent_order m1 e1 m2 e2 :
  bounded prec emax m1 e1 = true -> bounded prec emax m2 e2 = true ->
  e1 < e2 ->
  Zpos m1 * 2 ^ (e1 + 1074) < Zpos m2 * 2 ^ (e2 + 1074).
Proof.
  intros (He1 & Hd1 & _)%bounded_inv (He2 & _ & Hd2)%bounded_inv Hlt.
  specialize (Hd2 ltac:(lia)).
  pose proof (digits_bounds m1) as [_ Hm1].
  pose proof (digits_bounds m2) as [Hm2 _]. rewrite Hd2 in Hm2.
  assert (Zpos m1 < 2 ^ 53).
  { eapply Z.lt_le_trans; [exact Hm1 |]. apply Z.pow_le_mono_r; lia. }
  replace (e2 + 1074) with ((e2 - e1 - 1) + 1 + (e1 + 1074)) by lia.
  rewrite (Z.pow_add_r 2 (e2 - e1 - 1 + 1)), (Z.pow_add_r 2 (e2 - e1 - 1)) by lia.
  assert (0 < 2 ^ (e1 + 1074)) by (apply Z.pow_pos_nonneg; lia).
  assert (1 <= 2 ^ (e2 - e1 - 1)) by (apply (Z.pow_le_mono_r 2 0); lia).
  change (2 ^ 1) with 2. change (53 - 1) with 52 in Hm2.
  apply Z.lt_le_trans with (2 ^ 53 * 2 ^ (e1 + 1074)).
  - apply Z.mul_lt_mono_pos_r; lia.
  - rewrite !Z.mul_assoc. apply Z.mul_le_mono_nonneg_r; [lia |].
    change (2 ^ 53) with (2 ^ 52 * 2). apply Z.mul_le_mono_nonneg_r; [lia |].
    assert (2 ^ 52 * 1 <= Zpos m2 * 2 ^ (e2 - e1 - 1)); [| lia].
    apply Z.mul_le_mono_nonneg; lia.
Qed.

Lemma compare_cont_Eq m1 m2 : Pos.compare_cont Eq m1 m2 = (Zpos m1 ?= Zpos m2).
Proof. reflexivity. Qed.

Lemma mul_compare a b c : 0 < c -> (a * c ?= b * c) = (a ?= b).
Proof.
  intros Hc. destruct (Z.compare_spec a b) as [-> | H | H].
  - apply Z.compare_refl.
  - apply Z.compare_lt_iff. by apply Z.mul_lt_mono_pos_r.
  - apply Z.compare_gt_iff. by apply Z.mul_lt_mono_pos_r.
Qed.

Lemma compare_lt a b : a < b -> Some Lt = Some (a ?= b).
Proof. intros H. f_equal. symmetry. by apply Z.compare_lt_iff. Qed.

Lemma compare_gt a b : b < a -> Some Gt = Some (a ?= b).
Proof. intros H. f_equal. symmetry. apply Z.compare_gt_iff. lia. Qed.

Lemma SFcompare_scaled x y :
  valid_binary x = true -> valid_binary y = true ->
  notNaN x = true -> notNaN y = true ->
  SFcompare x y = Some (scaled x ?= scaled y).
Proof.
  destruct x as [sx|sx| |sx mx ex], y as [sy|sy| |sy my ey]; try discriminate;
    intros Hx Hy _ _; cbn [valid_binary] in Hx, Hy; cbn [SFcompare scaled];
    try (pose proof (finite_range _ _ Hx)); try (pose proof (finite_range _ _ Hy));
    assert (0 < 2 ^ 2098) by (by apply Z.pow_pos_nonneg).
  - reflexivity.
  - destruct sy; [apply compare_gt | apply compare_lt]; lia.
  - destruct sy; [apply compare_gt | apply compare_lt]; lia.
  - destruct sx; [apply compare_lt | apply compare_gt]; lia.
  - destruct sx, sy; first [by rewrite Z.compare_refl | apply compare_lt; lia
                           | apply compare_gt; lia].
  - destruct sx, sy; first [apply compare_lt; lia | apply compare_gt; lia].
  - destruct sx; [apply compare_lt | apply compare_gt]; lia.
  - destruct sx, sy; first [apply compare_lt; lia | apply compare_gt; lia].
  - destruct sx, sy; [| apply compare_lt; lia | apply compare_gt; lia |].
    + destruct (Z.compare_spec ex ey) as [-> | Hlt | Hgt].
      * rewrite compare_cont_Eq, Z.compare_opp, mul_compare by lia.
        f_equal. symmetry. apply Z.compare_antisym.
      * pose proof (exponent_order _ _ _ _ Hx Hy Hlt). apply compare_gt. lia.
      * pose proof (exponent_order _ _ _ _ Hy Hx ltac:(lia)). apply compare_lt. lia.
    + destruct (Z.compare_spec ex ey) as [-> | Hlt | Hgt].
      * rewrite compare_cont_Eq, mul_compare by lia. reflexivity.
      * pose proof (exponent_order _ _ _ _ Hx Hy Hlt). apply compare_lt. lia.
      * pose proof (exponent_order _ _ _ _ Hy Hx ltac:(lia)). apply compare_gt. lia.
Qed.


(** *** Rounding *)

Lemma shr_1_m mrs : 0 <= shr_m mrs -> shr_m (shr_1 mrs) = shr_m mrs / 2.
Proof.
  destruct mrs as [m r s]. cbn [shr_m shr_1].
  destruct m as [|[p|p|]|p]; cbn [shr_m]; intros Hm; try lia.
  - reflexivity.
  - change (Zpos p~1) with (2 * Zpos p + 1). apply Z.div_unique with 1; lia.
  - change (Zpos p~0) with (2 * Zpos p). apply Z.div_unique with 0; lia.
  - reflexivity.
Qed.

Lemma iter_shr_m p : forall mrs,
  0 <= shr_m mrs -> shr_m (iter_pos shr_1 p mrs) = shr_m mrs / 2 ^ Zpos p.
Proof.
  induction p as [p IH|p IH|]; intros mrs Hm; cbn [iter_pos].
  - assert (0 <= shr_m (shr_1 mrs)) as H1
        by (rewrite shr_1_m by done; apply Z.div_pos; lia).
    assert (0 <= shr_m (iter_pos shr_1 p (shr_1 mrs))) as H2
        by (rewrite IH by done; apply Z.div_pos; [done | by apply Z.pow_pos_nonneg]).
    rewrite IH, IH, shr_1_m by done.
    rewrite !Z.div_div by (try apply Z.pow_pos_nonneg; lia).
    f_equal. replace (Zpos p~1) with (1 + (Zpos p + Zpos p)) by lia.
    rewrite !Z.pow_add_r by lia. reflexivity.
  - assert (0 <= shr_m (iter_pos shr_1 p mrs)) as H2
        by (rewrite IH by done; apply Z.div_pos; [done | by apply Z.pow_pos_nonneg]).
    rewrite IH, IH by done.
    rewrite !Z.div_div by (try apply Z.pow_pos_nonneg; lia).
    f_equal. replace (Zpos p~0) with (Zpos p + Zpos p) by lia.
    rewrite !Z.pow_add_r by lia. reflexivity.
  - by apply shr_1_m.
Qed.

Lemma shr_record_of_loc_m m l : shr_m (shr_record_of_loc m l) = m.
Proof. by destruct l as [|[]]. Qed.

(** A mantissa that is not negative stays so when it is shifted. *)
Lemma shr_fexp_nonneg m e l :
  0 <= m -> 0 <= shr_m (fst (shr_fexp prec emax m e l)).
Proof.
  intros Hm. unfold shr_fexp, shr.
  destruct (fexp prec emax (Zdigits2 m + e) - e) as [|n|n]; cbn [fst];
    rewrite ?iter_shr_m; rewrite ?shr_record_of_loc_m; try done.
  apply Z.div_pos; [done | by apply Z.pow_pos_nonneg].
Qed.

(** A positive mantissa at an exponent a float can have stays positive. *)
Lemma shr_fexp_pos m e l :
  0 < m -> -1074 <= e ->
  0 < shr_m (fst (shr_fexp prec emax m e l)) /\ -1074 <= snd (shr_fexp prec emax m e l).
Proof.
  intros Hm He. unfold shr_fexp, shr.
  destruct (fexp prec emax (Zdigits2 m + e) - e) as [|n|n] eqn:Hn; cbn [fst snd];
    rewrite ?shr_record_of_loc_m; try done.
  rewrite iter_shr_m by (rewrite shr_record_of_loc_m; lia).
  rewrite shr_record_of_loc_m. split; [| lia].
  destruct m as [|p|p]; try lia. cbn [Zdigits2] in Hn.
  unfold fexp, SpecFloat.emin, prec, emax in Hn.
  pose proof (digits_bounds p) as [Hp _].
  assert (Zpos n = Zpos (digits2_pos p) - 53) as Hn' by lia.
  apply Z.div_str_pos. split; [by apply Z.pow_pos_nonneg |].
  etrans; [| exact Hp]. apply Z.pow_le_mono_r; lia.
Qed.

Lemma round_nearest_even_le m l : m <= round_nearest_even m l.
Proof. destruct l as [|[]]; cbn; try destruct (Z.even m); lia. Qed.

Definition signed (s : bool) (x : spec_float) : bool :=
  match x with
  | S754_zero s' | S754_infinity s' | S754_finite s' _ _ => Bool.eqb s s'
  | S754_nan => false
  end.

Definition nonzero (s : bool) (x : spec_float) : bool :=
  match x with
  | S754_infinity s' | S754_finite s' _ _ => Bool.eqb s s'
  | _ => false
  end.

Lemma binary_round_aux_signed s m e l :
  0 <= m -> signed s (binary_round_aux prec emax s m e l) = true.
Proof.
  intros Hm. unfold binary_round_aux.
  pose proof (shr_fexp_nonneg m e l Hm) as H1.
  destruct (shr_fexp prec emax m e l) as [mrs' e']. cbn [fst] in H1.
  pose proof (round_nearest_even_le (shr_m mrs') (loc_of_shr_record mrs')) as H2.
  pose proof (shr_fexp_nonneg (round_nearest_even (shr_m mrs') (loc_of_shr_record mrs'))
                e' loc_Exact ltac:(lia)) as H3.
  destruct (shr_fexp prec emax _ e' loc_Exact) as [mrs'' e'']. cbn [fst] in H3.
  destruct (shr_m mrs''); [| | lia]; [| destruct (_ <=? _)]; apply Bool.eqb_reflx.
Qed.

Lemma binary_round_aux_nonzero s m e l :
  0 < m -> -1074 <= e -> nonzero s (binary_round_aux prec emax s m e l) = true.
Proof.
  intros Hm He. unfold binary_round_aux.
  pose proof (shr_fexp_pos m e l Hm He) as [H1 He'].
  destruct (shr_fexp prec emax m e l) as [mrs' e']. cbn [fst snd] in H1, He'.
  pose proof (round_nearest_even_le (shr_m mrs') (loc_of_shr_record mrs')) as H2.
  pose proof (shr_fexp_pos (round_nearest_even (shr_m mrs') (loc_of_shr_record mrs'))
                e' loc_Exact ltac:(lia) He') as [H3 _].
  destruct (shr_fexp prec emax _ e' loc_Exact) as [mrs'' e'']. cbn [fst] in H3.
  destruct (shr_m mrs''); [lia | | lia]. destruct (_ <=? _); apply Bool.eqb_reflx.
Qed.

Lemma shl_align_exponent m e e' :
  -1074 <= e -> -1074 <= e' -> -1074 <= snd (shl_align m e e').
Proof. intros. unfold shl_align. by destruct (e' - e). Qed.

Lemma binary_round_nonzero s m e :
  -1074 <= e -> nonzero s (binary_round prec emax s m e) = true.
Proof.
  intros He. unfold binary_round.
  pose proof (shl_align_exponent m e (fexp prec emax (Zpos (digits2_pos m) + e)) He) as H.
  destruct (shl_align m e _) as [mz ez]. cbn [snd] in H.
  apply binary_round_aux_nonzero; [done |]. apply H.
  unfold fexp, SpecFloat.emin, prec, emax. lia.
Qed.

Lemma binary_round_signed s m e : signed s (binary_round prec emax s m e) = true.
Proof.
  unfold binary_round. destruct (shl_align m e _) as [mz ez].
  by apply binary_round_aux_signed.
Qed.


(** *** Subtraction and the order *)

Lemma iter_xO m d : Zpos (Pos.iter xO m d) = Zpos m * 2 ^ Zpos d.
Proof.
  induction d as [|d IH] using Pos.peano_ind.
  - cbn [Pos.iter]. lia.
  - rewrite Pos.iter_succ, Pos2Z.inj_succ, Z.pow_succ_r by lia.
    change (Zpos (Pos.iter xO m d)~0) with (2 * Zpos (Pos.iter xO m d)). lia.
Qed.

Lemma shl_align_value m e ez :
  ez <= e -> Zpos (fst (shl_align m e ez)) = Zpos m * 2 ^ (e - ez).
Proof.
  intros He. unfold shl_align.
  destruct (ez - e) as [|d|d] eqn:Hd; cbn [fst].
  - replace (e - ez) with 0 by lia. lia.
  - lia.
  - rewrite iter_xO. f_equal. f_equal. lia.
Qed.

Definition cz := cond_Zopp.

Lemma scaled_finite s m e ez :
  -1074 <= ez <= e ->
  scaled (S754_finite s m e)
  = cond_Zopp s (Zpos (fst (shl_align m e ez))) * 2 ^ (ez + 1074).
Proof.
  intros He. rewrite shl_align_value by lia. cbn [scaled].
  replace (e + 1074) with ((e - ez) + (ez + 1074)) by lia.
  rewrite Z.pow_add_r by lia. destruct s; cbn [cond_Zopp]; lia.
Qed.

Lemma SFltb_scaled x y :
  valid_binary x = true -> valid_binary y = true ->
  SFltb x y = notNaN x && notNaN y && (scaled x <? scaled y).
Proof.
  intros Hx Hy. unfold SFltb.
  destruct (notNaN x) eqn:Nx; [| by destruct x].
  destruct (notNaN y) eqn:Ny; [| by destruct x, y].
  rewrite SFcompare_scaled by done. unfold Z.ltb. by destruct (_ ?= _).
Qed.

Lemma SFltb_zero r :
  SFltb (S754_zero false) r = nonzero false r.
Proof. by destruct r as [| [] | | [] ]. Qed.

Lemma nonzero_flip r : nonzero true r = true -> nonzero false r = false.
Proof. by destruct r as [| [] | | [] ]. Qed.

(** The sign of a difference is the order of its terms. *)
Lemma SFsub_sign x y :
  valid_binary x = true -> valid_binary y = true ->
  SFltb (S754_zero false) (SF64sub y x) = SFltb x y.
Proof.
  intros Hx Hy. rewrite (SFltb_scaled x y) by done. rewrite SFltb_zero.
  destruct x as [sx|sx| |sx mx ex], y as [sy|sy| |sy my ey];
    try (by (try destruct sx; try destruct sy)).
  - (* 0 and a finite number *)
    cbn [SF64sub SFsub nonzero notNaN andb scaled].
    pose proof (finite_range _ _ Hy). destruct sy; cbn [Bool.eqb]; symmetry;
      [apply Z.ltb_ge | apply Z.ltb_lt]; lia.
  - cbn [SF64sub SFsub nonzero notNaN andb scaled].
    assert (0 < 2 ^ 2098) by (by apply Z.pow_pos_nonneg).
    pose proof (finite_range _ _ Hy).
    destruct sx, sy; cbn [Bool.eqb negb]; symmetry;
      first [apply Z.ltb_ge; lia | apply Z.ltb_lt; lia].
  - cbn [SF64sub SFsub nonzero notNaN andb scaled].
    pose proof (finite_range _ _ Hx). destruct sx; cbn [Bool.eqb]; symmetry;
      [apply Z.ltb_lt | apply Z.ltb_ge]; lia.
  - cbn [SF64sub SFsub nonzero notNaN andb scaled].
    assert (0 < 2 ^ 2098) by (by apply Z.pow_pos_nonneg).
    pose proof (finite_range _ _ Hx).
    destruct sx, sy; cbn [Bool.eqb negb]; symmetry;
      first [apply Z.ltb_ge; lia | apply Z.ltb_lt; lia].
  - cbn [valid_binary] in Hx, Hy.
    pose proof (bounded_inv _ _ Hx) as (Hex & _). pose proof (bounded_inv _ _ Hy) as (Hey & _).
    cbn [notNaN andb].
    rewrite (scaled_finite sx mx ex (Z.min ey ex)), (scaled_finite sy my ey (Z.min ey ex)) by lia.
    cbn [SF64sub SFsub].
    set (a := cond_Zopp sy (Zpos (fst (shl_align my ey (Z.min ey ex))))).
    set (b := cond_Zopp sx (Zpos (fst (shl_align mx ex (Z.min ey ex))))).
    assert (0 < 2 ^ (Z.min ey ex + 1074)) as Hp by (apply Z.pow_pos_nonneg; lia).
    destruct (a - b) as [|d|d] eqn:Hd; cbn [binary_normalize].
    + cbn [nonzero]. symmetry. apply Z.ltb_ge. assert (a = b) as -> by lia. lia.
    + rewrite binary_round_nonzero by lia. symmetry. apply Z.ltb_lt.
      apply Z.mul_lt_mono_pos_r; lia.
    + rewrite nonzero_flip by (apply binary_round_nonzero; lia).
      symmetry. apply Z.ltb_ge. apply Z.mul_le_mono_nonneg_r; lia.
Qed.


Lemma SFleb_scaled x y :
  valid_binary x = true -> valid_binary y = true ->
  SFleb x y = notNaN x && notNaN y && (scaled x <=? scaled y).
Proof.
  intros Hx Hy. unfold SFleb.
  destruct (notNaN x) eqn:Nx; [| by destruct x].
  destruct (notNaN y) eqn:Ny; [| by destruct x, y].
  rewrite SFcompare_scaled by done. unfold Z.leb. by destruct (_ ?= _).
Qed.

Lemma SFeqb_scaled x y :
  valid_binary x = true -> valid_binary y = true ->
  SFeqb x y = notNaN x && notNaN y && (scaled x =? scaled y).
Proof.
  intros Hx Hy. unfold SFeqb.
  destruct (notNaN x) eqn:Nx; [| by destruct x].
  destruct (notNaN y) eqn:Ny; [| by destruct x, y].
  rewrite SFcompare_scaled by done.
  destruct (Z.compare_spec (scaled x) (scaled y)) as [-> | H | H];
    [by rewrite Z.eqb_refl | symmetry; apply Z.eqb_neq; lia..].
Qed.

(** *** Sums, products and quotients of numbers that are not negative *)

Definition finitePositive (x : spec_float) : bool :=
  match x with S754_finite false _ _ => true | _ => false end.

Lemma signed_notNaN s x : signed s x = true -> notNaN x = true.
Proof. by destruct x. Qed.

Lemma SFadd_signed x y :
  signed false x = true -> signed false y = true -> signed false (SF64add x y) = true.
Proof.
  destruct x as [[]|[]| |[] mx ex], y as [[]|[]| |[] my ey]; try done.
  intros _ _. cbn [SF64add SFadd cond_Zopp]. cbn [Z.add binary_normalize].
  apply binary_round_signed.
Qed.

Lemma SFmul_signed x y :
  signed false x = true -> finitePositive y = true -> signed false (SF64mul x y) = true.
Proof.
  destruct x as [[]|[]| |[] mx ex], y as [[]|[]| |[] my ey]; try done.
  intros _ _. cbn [SF64mul SFmul xorb]. apply binary_round_aux_signed. lia.
Qed.

Lemma SFdiv_signed x y :
  signed false x = true -> finitePositive y = true -> signed false (SF64div x y) = true.
Proof.
  destruct x as [[]|[]| |[] mx ex], y as [[]|[]| |[] my ey]; try done.
  intros _ _. cbn [SF64div SFdiv xorb]. unfold SFdiv_core_binary.
  set (m' := match _ - _ with 0 => Zpos mx | Zpos _ => _ | Zneg _ => 0 end).
  assert (0 <= m') as Hm.
  { subst m'. destruct (_ - _); [lia | | lia]. apply Z.shiftl_nonneg. lia. }
  pose proof (Z_div_mod m' (Zpos my) ltac:(lia)) as Hdiv.
  destruct (Z.div_eucl m' (Zpos my)) as [q r].
  apply binary_round_aux_signed. nia.
Qed.


(** *** Numbers of elements *)

Lemma digits_le (p : positive) (k : Z) : Zpos p < 2 ^ k -> Zpos (digits2_pos p) <= k.
Proof.
  intros Hp. pose proof (digits_bounds p) as [Hd _].
  destruct (Z.le_gt_cases (Zpos (digits2_pos p)) k) as [|Hk]; [done |].
  assert (2 ^ k <= 2 ^ (Zpos (digits2_pos p) - 1)); [| lia].
  apply Z.pow_le_mono_r; lia.
Qed.

Lemma shr_fexp_small m e l :
  0 < m < 2 ^ 70 -> -1074 <= e <= 30 ->
  0 < shr_m (fst (shr_fexp prec emax m e l)) <= m /\
  -1074 <= snd (shr_fexp prec emax m e l) <= Z.max e (e + 17).
Proof.
  intros [Hm Hm'] He. unfold shr_fexp, shr.
  destruct m as [|p|p]; try lia. cbn [Zdigits2].
  pose proof (digits_le p 70 Hm') as Hd. pose proof (digits_bounds p) as [Hp _].
  unfold fexp, SpecFloat.emin, prec, emax.
  destruct (Z.max (Zpos (digits2_pos p) + e - 53) (3 - 1024 - 53) - e) as [|n|n] eqn:Hn;
    cbn [fst snd]; rewrite ?shr_record_of_loc_m; try lia.
  rewrite iter_shr_m by (rewrite shr_record_of_loc_m; lia).
  rewrite shr_record_of_loc_m.
  assert (Zpos n = Zpos (digits2_pos p) - 53) as Hn' by lia.
  assert (0 < 2 ^ Zpos n) by (by apply Z.pow_pos_nonneg).
  split; [split |]; [| | lia].
  - apply Z.div_str_pos. split; [done |].
    etrans; [| exact Hp]. apply Z.pow_le_mono_r; lia.
  - apply Z.div_le_upper_bound; [done |]. nia.
Qed.

Lemma round_nearest_even_succ m l : round_nearest_even m l <= m + 1.
Proof. destruct l as [|[]]; cbn; try destruct (Z.even m); lia. Qed.

Lemma binary_round_aux_small s m e l :
  0 < m < 2 ^ 64 -> -1074 <= e <= 0 ->
  exists m' e', binary_round_aux prec emax s m e l = S754_finite s m' e'.
Proof.
  intros Hm He. unfold binary_round_aux.
  assert (2 ^ 64 < 2 ^ 70) by (by apply Z.pow_lt_mono_r).
  pose proof (shr_fexp_small m e l ltac:(lia) ltac:(lia)) as [H1 He'].
  destruct (shr_fexp prec emax m e l) as [mrs' e']. cbn [fst snd] in H1, He'.
  pose proof (round_nearest_even_le (shr_m mrs') (loc_of_shr_record mrs')) as H2.
  pose proof (round_nearest_even_succ (shr_m mrs') (loc_of_shr_record mrs')) as H2'.
  pose proof (shr_fexp_small (round_nearest_even (shr_m mrs') (loc_of_shr_record mrs'))
                e' loc_Exact ltac:(lia) ltac:(lia)) as [H3 He''].
  destruct (shr_fexp prec emax _ e' loc_Exact) as [mrs'' e'']. cbn [fst snd] in H3, He''.
  destruct (shr_m mrs'') as [|m''|]; [lia | | lia].
  replace (e'' <=? emax - prec) with true; [by eauto |].
  symmetry. apply Z.leb_le. unfold emax, prec. lia.
Qed.

Lemma binary_normalize_small (k : Z) :
  0 < k < 2 ^ 64 -> finitePositive (binary_normalize prec emax k 0 false) = true.
Proof.
  intros Hk. destruct k as [|p|p]; try lia. cbn [binary_normalize]. unfold binary_round.
  pose proof (digits_le p 64 ltac:(lia)) as Hd.
  pose proof (digits_bounds p) as [_ Hp].
  assert (fexp prec emax (Zpos (digits2_pos p) + 0)
          = Z.max (Zpos (digits2_pos p) + 0 - 53) (-1074)) as -> by reflexivity.
  set (ez := Z.max (Zpos (digits2_pos p) + 0 - 53) (-1074)).
  pose proof (shl_align_value p 0 ez) as Hv.
  unfold shl_align in *.
  destruct (ez - 0) as [|d|d] eqn:Hd'; cbn [fst snd] in *.
  - destruct (binary_round_aux_small false (Zpos p) 0 loc_Exact) as (m' & e' & ->);
      [lia.. | done].
  - destruct (binary_round_aux_small false (Zpos p) 0 loc_Exact) as (m' & e' & ->);
      [lia.. | done].
  - destruct (binary_round_aux_small false (Zpos (Pos.iter xO p d)) ez loc_Exact)
      as (m' & e' & ->); [| lia | done].
    rewrite Hv by lia. split; [apply Z.mul_pos_pos; [lia | apply Z.pow_pos_nonneg; lia] |].
    assert (0 - ez = 53 - Zpos (digits2_pos p)) as -> by lia.
    apply Z.lt_le_trans with (2 ^ Zpos (digits2_pos p) * 2 ^ (53 - Zpos (digits2_pos p))).
    + apply Z.mul_lt_mono_pos_r; [apply Z.pow_pos_nonneg; lia | done].
    + rewrite <- Z.pow_add_r by lia. apply Z.pow_le_mono_r; lia.
Qed.


(** *** The numbers of the machine *)

Definition key (x : float) : Z := scaled (Prim2SF x).

(** A number that is zero or above, and not NaN. *)
Definition nonneg (x : float) : bool := signed false (Prim2SF x).

Definition positiveFinite (x : float) : bool := finitePositive (Prim2SF x).

Lemma sub_sign (x y : float) : (0 <? y - x)%float = (x <? y)%float.
Proof.
  rewrite !FloatAxioms.ltb_spec, FloatAxioms.sub_spec. change (Prim2SF 0) with (S754_zero false).
  apply SFsub_sign; apply Prim2SF_valid.
Qed.

Lemma nonneg_notNaN x : nonneg x = true -> notNaN (Prim2SF x) = true.
Proof. apply signed_notNaN. Qed.

Lemma ltb_key x y :
  nonneg x = true -> nonneg y = true -> (x <? y)%float = (key x <? key y).
Proof.
  intros Hx%nonneg_notNaN Hy%nonneg_notNaN.
  by rewrite FloatAxioms.ltb_spec, SFltb_scaled, Hx, Hy by apply Prim2SF_valid.
Qed.

Lemma leb_key x y :
  nonneg x = true -> nonneg y = true -> (x <=? y)%float = (key x <=? key y).
Proof.
  intros Hx%nonneg_notNaN Hy%nonneg_notNaN.
  by rewrite FloatAxioms.leb_spec, SFleb_scaled, Hx, Hy by apply Prim2SF_valid.
Qed.

Lemma eqb_key x y : (x =? y)%float = true -> key x = key y.
Proof.
  rewrite FloatAxioms.eqb_spec, SFeqb_scaled by apply Prim2SF_valid.
  intros [_ H]%andb_prop. by apply Z.eqb_eq.
Qed.

Lemma ltb_key_lt x y : (x <? y)%float = true -> key x < key y.
Proof.
  rewrite FloatAxioms.ltb_spec, SFltb_scaled by apply Prim2SF_valid.
  intros [_ H]%andb_prop. by apply Z.ltb_lt.
Qed.

Lemma nonneg_add x y : nonneg x = true -> nonneg y = true -> nonneg (x + y) = true.
Proof. unfold nonneg. rewrite FloatAxioms.add_spec. apply SFadd_signed. Qed.

Lemma nonneg_mul x y :
  nonneg x = true -> positiveFinite y = true -> nonneg (x * y) = true.
Proof. unfold nonneg, positiveFinite. rewrite FloatAxioms.mul_spec. apply SFmul_signed. Qed.

Lemma nonneg_div x y :
  nonneg x = true -> positiveFinite y = true -> nonneg (x / y) = true.
Proof. unfold nonneg, positiveFinite. rewrite FloatAxioms.div_spec. apply SFdiv_signed. Qed.

Lemma positiveFinite_nonneg x : positiveFinite x = true -> nonneg x = true.
Proof. unfold positiveFinite, nonneg. by destruct (Prim2SF x) as [| | |[]]. Qed.

Lemma ofNat_spec n :
  Prim2SF (ofNat n) = binary_normalize prec emax (Z.min (Z.of_nat n) (2 ^ 53)) 0 false.
Proof.
  unfold ofNat. rewrite of_uint63_spec, of_Z_spec. f_equal.
  apply Z.mod_small. change wB with (2 ^ 63).
  assert (2 ^ 53 < 2 ^ 63) by (by apply Z.pow_lt_mono_r). lia.
Qed.

Lemma ofNat_positiveFinite n : n <> O -> positiveFinite (ofNat n) = true.
Proof.
  intros Hn. unfold positiveFinite. rewrite ofNat_spec.
  apply binary_normalize_small.
  assert (0 < 2 ^ 53 < 2 ^ 64) by (split; [by apply Z.pow_pos_nonneg | by apply Z.pow_lt_mono_r]).
  lia.
Qed.

Lemma ofNat_nonneg n : nonneg (ofNat n) = true.
Proof.
  destruct n as [|n]; [done |]. by apply positiveFinite_nonneg, ofNat_positiveFinite.
Qed.

Lemma min_cases a b : min a b = a \/ min a b = b.
Proof. unfold min. repeat destruct (_ : bool); auto. Qed.

Lemma nonneg_min a b : nonneg a = true -> nonneg b = true -> nonneg (min a b) = true.
Proof. intros Ha Hb. by destruct (min_cases a b) as [-> | ->]. Qed.

End Binary64.

(** ** The order of the results *)

Module Search64Proofs.
Import JS Types Search SearchExamples Doubles Binary64 Search64 Search64Examples.
#[local] Set Warnings "-inexact-float".
#[local] Open Scope float_scope.

Section WithOptions.
Variable options : SearchOptions.

Lemma fuzzyMatch_nonneg query text : nonneg (fuzzyMatch options query text) = true.
Proof.
  unfold fuzzyMatch.
  destruct (includes _ _) eqn:Hsub; [done |].
  destruct (negb _); [done |].
  destruct (fuzzyScan _ _ 0 0) as [queryIndex matches].
  destruct (queryIndex =? _)%nat; [| done].
  apply nonneg_mul; [| done]. apply nonneg_div; [apply ofNat_nonneg |].
  apply ofNat_positiveFinite. intros Hlen.
  destruct (normalizeText options query); [| done].
  by rewrite SearchProofs.includes_empty in Hsub.
Qed.

Definition sound (a : Acc) : Prop := nonneg (acc_totalScore a) = true.

Lemma record_nonneg f points highlight a :
  sound a -> nonneg points = true -> sound (record f points highlight a).
Proof. intros Ha Hp. by apply nonneg_add. Qed.

Lemma searchText_nonneg f w query text a :
  positiveFinite w = true -> sound a -> sound (searchText options f w query text a).
Proof.
  intros Hw Ha. unfold searchText.
  destruct (if searches options f then nonEmpty text else None) as [t|]; [| done].
  destruct (positive _); [| done].
  apply record_nonneg; [done |]. apply nonneg_mul; [apply fuzzyMatch_nonneg | done].
Qed.

Lemma searchTags_nonneg query all tags a :
  sound a -> sound (searchTags options query all tags a).
Proof.
  intros Ha. induction tags as [|tag rest IH]; cbn [searchTags]; [done |].
  destruct (positive _); [| done].
  apply record_nonneg; [done |]. apply nonneg_mul; [apply fuzzyMatch_nonneg | done].
Qed.

Lemma searchParameters_nonneg query ps a :
  sound a -> sound (searchParameters options query ps a).
Proof.
  intros Ha. induction ps as [|param rest IH]; cbn [searchParameters]; [done |].
  destruct (_ || _); [| done].
  apply record_nonneg; [done |]. apply nonneg_mul; [| done].
  apply nonneg_add; [apply fuzzyMatch_nonneg |].
  destruct (nonEmpty (param_description param)); [apply fuzzyMatch_nonneg | done].
Qed.

Lemma searchResponses_nonneg query rs a :
  sound a -> sound (searchResponses options query rs a).
Proof.
  intros Ha. induction rs as [|response rest IH]; cbn [searchResponses]; [done |].
  destruct (positive _); [| done].
  apply record_nonneg; [done |]. apply nonneg_mul; [| done].
  destruct (nonEmpty (Some (response_description response)));
    [apply fuzzyMatch_nonneg | done].
Qed.

(** No score is NaN, and none is below zero. *)
Lemma searchInEndpoint_nonneg e q r :
  searchInEndpoint options e q = Some r -> nonneg (score r) = true.
Proof.
  unfold searchInEndpoint. destruct (_ || _); [done |].
  match goal with
  | |- match acc_matchedFields ?acc with _ => _ end = _ -> _ =>
      assert (sound acc) as Ha; [| destruct (acc_matchedFields acc) as [|f fs] eqn:Hf; [done |]]
  end.
  { repeat match goal with
           | |- sound (searchText _ _ _ _ _ _) => apply searchText_nonneg; [done |]
           | |- sound (if positive ?s then _ else _) =>
               destruct (positive s) eqn:?;
               [apply record_nonneg; [| apply nonneg_mul; [apply fuzzyMatch_nonneg | done]] |]
           | |- sound (if ?c then _ else _) => destruct c
           | |- sound (match ?x with Some _ => _ | None => _ end) => destruct x
           | |- sound (searchTags _ _ _ _ _) => apply searchTags_nonneg
           | |- sound (searchParameters _ _ _ _) => apply searchParameters_nonneg
           | |- sound (searchResponses _ _ _ _) => apply searchResponses_nonneg
           end; done. }
  intros [= <-]. cbn [score].
  apply nonneg_min; [| done]. apply nonneg_div; [done |]. by apply ofNat_positiveFinite.
Qed.

End WithOptions.

(** *** The order of the results *)

Lemma byScore_positive a b : positive (byScore a b) = (score a <? score b).
Proof. apply sub_sign. Qed.

Lemma insertSorted_elem x y l :
  In y (insertSorted byScore x l) -> y = x \/ In y l.
Proof.
  induction l as [|z l IH]; simpl.
  - intros [<- | []]. by left.
  - destruct (positive _); simpl; [| by intros [<- | Hy]; auto].
    intros [<- | Hy]; [by right; left |].
    destruct (IH Hy); auto.
Qed.

Lemma insertSorted_sorted x l :
  nonneg (score x) = true -> Forall (fun r => nonneg (score r) = true) l ->
  StronglySorted descending l -> StronglySorted descending (insertSorted byScore x l).
Proof.
  intros Hx Hl Hs. revert Hl.
  induction Hs as [|y l Hsorted IH Hy]; intros Hl; simpl; [by repeat constructor |].
  inversion Hl as [|? ? Hny Hl']; subst. specialize (IH Hl'). clear Hl. rename Hl' into Hl.
  rewrite Forall_forall in Hy. rewrite Forall_forall in Hl.
  rewrite byScore_positive. unfold descending in *.
  destruct (score x <? score y) eqn:Hc.
  - rewrite ltb_key in Hc by done. apply Z.ltb_lt in Hc.
    constructor; [done |].
    apply Forall_forall. intros z [-> | Hz]%insertSorted_elem.
    + rewrite leb_key by done. apply Z.leb_le. lia.
    + by apply Hy.
  - rewrite ltb_key in Hc by done. apply Z.ltb_ge in Hc.
    constructor; [by constructor; [| apply Forall_forall] |].
    constructor; [rewrite leb_key by done; by apply Z.leb_le |].
    apply Forall_forall. intros z Hz.
    specialize (Hy z Hz). rewrite leb_key in Hy by auto.
    rewrite leb_key by auto. apply Z.leb_le in Hy. apply Z.leb_le. lia.
Qed.

Lemma insertSorted_nonneg x l :
  nonneg (score x) = true -> Forall (fun r => nonneg (score r) = true) l ->
  Forall (fun r => nonneg (score r) = true) (insertSorted byScore x l).
Proof.
  intros Hx Hl. apply Forall_forall. intros y [-> | Hy]%insertSorted_elem; [done |].
  rewrite Forall_forall in Hl. by apply Hl.
Qed.

Lemma sort_sorted l :
  Forall (fun r => nonneg (score r) = true) l ->
  StronglySorted descending (sort byScore l)
  /\ Forall (fun r => nonneg (score r) = true) (sort byScore l).
Proof.
  induction 1 as [|x l Hx Hl [IH1 IH2]]; simpl; [by repeat constructor |].
  split; [by apply insertSorted_sorted | by apply insertSorted_nonneg].
Qed.

(** Insertion never moves a result past one of the same score. *)
Lemma insertSorted_stable s x l :
  List.filter (sameScore s) (insertSorted byScore x l) =
  List.filter (sameScore s) (x :: l).
Proof.
  induction l as [|y l IH]; [done |].
  simpl insertSorted. rewrite byScore_positive.
  destruct (score x <? score y) eqn:Hc; [| done].
  apply ltb_key_lt in Hc.
  simpl in *. rewrite IH. unfold sameScore.
  destruct (score x =? s) eqn:Ex, (score y =? s) eqn:Ey; try done.
  apply eqb_key in Ex, Ey. lia.
Qed.

Lemma sort_stable s l :
  List.filter (sameScore s) (sort byScore l) = List.filter (sameScore s) l.
Proof.
  induction l as [|x l IH]; [done |].
  simpl sort. rewrite insertSorted_stable. simpl. by rewrite IH.
Qed.

Lemma searchInEndpoint_endpoint options e q r :
  searchInEndpoint options e q = Some r -> endpoint r = e.
Proof.
  unfold searchInEndpoint. destruct (_ || _); [done |].
  destruct (acc_matchedFields _); [done |]. by intros [= <-].
Qed.

Lemma omap_search_sublist options q (l : list NormalizedEndpoint) :
  endpoint <$> omap (fun e => searchInEndpoint options e q) l `sublist_of` l.
Proof.
  induction l as [|e l IH]; simpl; [done |].
  destruct (searchInEndpoint options e q) as [r|] eqn:Hr; simpl.
  - rewrite (searchInEndpoint_endpoint _ _ _ _ Hr). by apply sublist_skip.
  - by apply sublist_cons.
Qed.

Lemma omap_search_nonneg options q (l : list NormalizedEndpoint) :
  Forall (fun r => nonneg (score r) = true) (omap (fun e => searchInEndpoint options e q) l).
Proof.
  induction l as [|e l IH]; simpl; [constructor |].
  destruct (searchInEndpoint options e q) as [r|] eqn:Hr; [| done].
  constructor; [by eapply searchInEndpoint_nonneg | done].
Qed.

(** C6: with a text query active, the results are in descending order of
    score, and the results of any one score keep the order in which their
    endpoints stand in the input list. *)
Theorem filteredResults_sorted_stable (options : SearchOptions)
    (endpoints : list NormalizedEndpoint) (filters : SearchFilters) (q : string) :
  nonEmpty (query filters) = Some q ->
  (minQueryLength options <= Z.of_nat (String.length q))%Z ->
  let results := filteredResults options endpoints filters in
  StronglySorted descending results /\
  (forall s,
     List.filter (sameScore s) results =
     List.filter (sameScore s)
       (omap (fun e => searchInEndpoint options e q) (applyFilters endpoints filters))) /\
  (forall s, endpoint <$> List.filter (sameScore s) results `sublist_of` endpoints).
Proof.
  intros Hq Hlen results. subst results. unfold filteredResults.
  rewrite Hq. apply Z.leb_le in Hlen. rewrite Hlen.
  split; [apply sort_sorted, omap_search_nonneg |].
  split; [intros s; apply sort_stable |].
  intros s. rewrite sort_stable.
  etrans; [apply fmap_sublist, SearchProofs.filter_sublist |].
  etrans; [apply omap_search_sublist | apply SearchProofs.applyFilters_sublist].
Qed.

Lemma filteredResults_sorted_stable_witness :
  let results := filteredResults fuzzyOptions [threeFields; oneField] (queryFor "usr") in
  StronglySorted descending results /\
  (forall s,
     List.filter (sameScore s) results =
     List.filter (sameScore s)
       (omap (fun e => searchInEndpoint fuzzyOptions e "usr")
             (applyFilters [threeFields; oneField] (queryFor "usr")))) /\
  (forall s,
     endpoint <$> List.filter (sameScore s) results `sublist_of` [threeFields; oneField]).
Proof.
  apply (filteredResults_sorted_stable fuzzyOptions [threeFields; oneField]
           (queryFor "usr") "usr" eq_refl).
  discriminate.
Defined.

(** The two endpoints of the example: equal scores in exact arithmetic,
    two scores for the machine, which puts the greater first. *)
Example scores_of_the_machine :
  (fun r => (id (endpoint r), score r)) <$>
    filteredResults fuzzyOptions [threeFields; oneField] (queryFor "usr")
  = [("x", 0x1.d1eb851eb851ep-1); ("z", 0x1.d1eb851eb851dp-1)].
Proof. vm_compute. reflexivity. Qed.

End Search64Proofs.

(** ** Parsing of text *)

Module ParserProofs.
Import JS Parsing StringFacts LoaderExamples.

(** C7: when neither parser accepts the text, parsing throws an error whose
    message quotes the message of each parser; no error of the reference
    resolver is that error. *)
Theorem parseSpecString_reports_both `{Parsers} (fuel : nat) (specString : string)
    (jsonError yamlError : Exn) :
  JSON_parse specString = Throw jsonError ->
  yaml_load specString = Throw yamlError ->
  parseSpecString specString = Throw (parseFailure jsonError yamlError) /\
  parseOpenApi fuel (VStr specString) = Throw (parseFailure jsonError yamlError) /\
  includes (message jsonError) (message (parseFailure jsonError yamlError)) = true /\
  includes (message yamlError) (message (parseFailure jsonError yamlError)) = true /\
  forall ref, parseFailure jsonError yamlError <> unresolved ref.
Proof.
  intros Hjson Hyaml.
  assert (parseSpecString specString = Throw (parseFailure jsonError yamlError)) as Hparse.
  { unfold parseSpecString. by rewrite Hjson, Hyaml. }
  split; [done |]. split; [unfold parseOpenApi; by rewrite Hparse |].
  unfold parseFailure. simpl message. repeat split.
  - apply includes_append.
  - match goal with
    | |- includes ?p (?a +:+ ?b +:+ ?c +:+ ?p) = true =>
        replace (a +:+ b +:+ c +:+ p) with ((a +:+ b +:+ c) +:+ p +:+ EmptyString)
          by (by rewrite append_nil_r, !append_assoc)
    end.
    apply includes_append.
  - intros ref [=].
Qed.

Lemma parseSpecString_reports_both_witness :
  @parseSpecString rejectingParsers "invalid content {[}"
  = Throw (Error ("Failed to parse OpenAPI specification. "
                  +:+ "Invalid JSON: Unexpected token i in JSON at position 0. "
                  +:+ "Invalid YAML: end of the stream or a document separator is expected")).
Proof.
  apply (@parseSpecString_reports_both rejectingParsers 0 "invalid content {[}"
           (SyntaxError "Unexpected token i in JSON at position 0")
           (YAMLException "end of the stream or a document separator is expected"));
    reflexivity.
Defined.

End ParserProofs.

(** ** The loader *)

Module LoaderProofs.
Import JS Parsing Loader LoaderExamples.

(** C4, as the code has it: one of [url] and [spec] is enough.  With neither,
    [loadSpec] sets [loading], records the error and resets [loading], and
    attempts no load; with a url, it loads the url whether or not an inline
    spec comes with it; with an inline spec alone, it parses that spec and
    calls no transport. *)
Theorem loadSpec_inputs `{Parsers} (fuel : nat) (defaults : Defaults)
    (config : ApiLoaderConfig) (w : World) :
  (suppliedUrl config = None -> suppliedSpec config = None ->
   loadSpec fuel defaults config w
   = Some (w, [SetLoading true; SetError None; SetError (Some missingInput);
               SetSpec None; SetLoading false])) /\
  (forall u, suppliedUrl config = Some u ->
   loadSpec fuel defaults config w = loadSpec fuel defaults (withoutSpec config) w /\
   forall outcome w' trace,
     loadFromUrl fuel defaults u config w = (outcome, w', trace) ->
     outcome <> OutOfFuel ->
     exists rest,
       loadSpec fuel defaults config w
       = Some (w', ([SetLoading true; SetError None; SetCurrentUrl (Some u)]
                    ++ trace ++ rest)%list) /\
       match outcome with
       | Ok parsedSpec => rest = [SetSpec (Some parsedSpec); SetLoading false]
       | Throw err => rest = [SetError (Some (message err)); SetSpec None;
                              SetLoading false]
       | OutOfFuel => False
       end) /\
  (forall s, suppliedUrl config = None -> suppliedSpec config = Some s ->
   loadSpec fuel defaults config w
   = match loadFromSpec fuel s with
     | Ok parsedSpec =>
         Some (w, [SetLoading true; SetError None; SetCurrentUrl None; ParseCall;
                   SetSpec (Some parsedSpec); SetLoading false])
     | Throw err =>
         Some (w, [SetLoading true; SetError None; SetCurrentUrl None; ParseCall;
                   SetError (Some (message err)); SetSpec None; SetLoading false])
     | OutOfFuel => None
     end).
Proof.
  split; [| split].
  - intros Hurl Hspec. unfold loadSpec. by rewrite Hurl, Hspec.
  - intros u Hurl. split.
    + unfold loadSpec.
      assert (suppliedUrl (withoutSpec config) = Some u) as -> by done.
      rewrite Hurl. done.
    + intros outcome w' trace Hload Hfuel. unfold loadSpec. rewrite Hurl, Hload.
      destruct outcome; [| | done]; eexists; split; reflexivity.
  - intros s Hurl Hspec. unfold loadSpec. rewrite Hurl, Hspec.
    by destruct (loadFromSpec fuel s).
Qed.

Lemma loadSpec_inputs_witness :
  @loadSpec usersParsers 1 (@defaultsOf usersNetwork None) noConfig emptyWorld
  = Some (emptyWorld,
          [SetLoading true; SetError None; SetError (Some missingInput);
           SetSpec None; SetLoading false]).
Proof.
  apply (proj1 (@loadSpec_inputs usersParsers 1 (@defaultsOf usersNetwork None)
                  noConfig emptyWorld)); reflexivity.
Defined.

(** The claim as stated fails.  With both a url and an inline spec, the url
    is fetched and parsed and the hook ends with the spec and no error; with
    neither, [setLoading(true)] is called before the error is recorded. *)
Lemma loadSpec_both_supplied_loads :
  (exists w' trace,
     @loadSpec usersParsers 1 (@defaultsOf usersNetwork None) bothConfig emptyWorld
     = Some (w', trace) /\
     In (FetchCall "https://x/api.json") trace /\
     existsb isLoadAttempt trace = true /\
     existsb loading (states (initialState None) trace) = true /\
     error (finalState (initialState None) trace) = None /\
     is_Some (st_spec (finalState (initialState None) trace))) /\
  (exists w' trace,
     @loadSpec usersParsers 1 (@defaultsOf usersNetwork None) noConfig emptyWorld
     = Some (w', trace) /\
     existsb loading (states (initialState None) trace) = true).
Proof.
  split.
  - destruct (@loadSpec usersParsers 1 (@defaultsOf usersNetwork None) bothConfig
                emptyWorld) as [[w' trace]|] eqn:E; [| by vm_compute in E].
    exists w', trace. split; [done |].
    vm_compute in E. injection E as _ <-.
    repeat split; try reflexivity; [simpl; tauto | by eexists].
  - do 2 eexists. split; [reflexivity | reflexivity].
Qed.

End LoaderProofs.
(** ** The two URL builders *)

Module UrlProofs.
Import JS Types Platform StringFacts UrlExamples.
#[local] Arguments append !s1 s2 / : simpl nomatch.

(** A character other than [$] stands for itself in a replacement. *)
Lemma getSubstitution_cons matched before after c r :
  c <> dollar ->
  getSubstitution matched before after (String c r)
  = String c (getSubstitution matched before after r).
Proof.
  intros Hc. destruct c as [[] [] [] [] [] [] [] []]; try reflexivity.
  by destruct Hc.
Qed.

Lemma hexDigit_not_dollar n : (n < 16)%nat -> hexDigit n <> dollar.
Proof.
  intros Hn. do 16 (destruct n as [|n]; [by vm_compute |]). lia.
Qed.

Lemma isUnreserved_not_dollar c : isUnreserved c = true -> c <> dollar.
Proof. by intros Hc ->. Qed.

Lemma encodeURIComponent_cons c s :
  encodeURIComponent (String c s) =
  if isUnreserved c then String c (encodeURIComponent s)
  else String "%" (String (hexDigit (nat_of_ascii c / 16))
                     (String (hexDigit (nat_of_ascii c mod 16))
                        (encodeURIComponent s))).
Proof. reflexivity. Qed.

(** What [encodeURIComponent] returns has no [$] in it, and [replace]
    inserts it as it is. *)
Lemma getSubstitution_encoded matched before after s :
  getSubstitution matched before after (encodeURIComponent s) = encodeURIComponent s.
Proof.
  induction s as [|c s IH]; [done |].
  rewrite encodeURIComponent_cons. destruct (isUnreserved c) eqn:Hc.
  - rewrite getSubstitution_cons by by apply isUnreserved_not_dollar.
    by rewrite IH.
  - pose proof (nat_ascii_bounded c) as Hb.
    rewrite !getSubstitution_cons, IH; [done | ..].
    + apply hexDigit_not_dollar, Nat.mod_upper_bound. lia.
    + apply hexDigit_not_dollar, Nat.Div0.div_lt_upper_bound. lia.
    + done.
Qed.





End UrlProofs.

(** ** The cURL generator *)

Module SnippetProofs.
Import JS Types Platform Snippet StringFacts UrlExamples SnippetExamples.

Lemma insertIndexKey_In {V} (i : nat) (k : string) (v : V) obj x :
  In x obj -> In x (insertIndexKey i k v obj).
Proof.
  induction obj as [|[k' v'] obj IH]; simpl; [done |].
  intros Hx. destruct (parseIndex k') as [j|]; [| by right].
  destruct (j <? i)%nat; [| by right].
  destruct Hx as [<- | Hx]; [by left | right; auto].
Qed.

(** Setting another key leaves an entry in the object. *)
Lemma setKey_In {V} (k k' : string) (v v' : V) obj :
  In (k, v) obj -> k' <> k -> In (k, v) (setKey k' v' obj).
Proof.
  intros Hin Hk. unfold setKey. destruct (hasKey k' obj).
  - apply in_map_iff. exists (k, v). split; [| done]. simpl.
    by apply String.eqb_neq in Hk as ->.
  - destruct (parseIndex k'); [by apply insertIndexKey_In |].
    apply in_or_app. by left.
Qed.

Lemma spread_In {V} (k : string) (v : V) (a b : list (string * V)) :
  In (k, v) (fold_left (fun obj kv => setKey (fst kv) (snd kv) obj) a []) ->
  hasKey k b = false ->
  In (k, v) (spread a b).
Proof.
  unfold spread. generalize (fold_left (fun obj kv => setKey (fst kv) (snd kv) obj) a []).
  induction b as [|[k' v'] b IH]; intros obj Hin Hb; simpl; [done |].
  simpl in Hb. apply orb_false_elim in Hb as [Hk Hb].
  apply IH; [| done]. apply setKey_In; [done |].
  apply String.eqb_neq in Hk. congruence.
Qed.

(** Each header of the object has its flag in the command. *)
Lemma headers_loop needle (hs : list (string * string)) : forall curl,
  (includes needle curl = true \/
   exists kv, In kv hs /\ includes needle (headerFlag (fst kv) (snd kv)) = true) ->
  includes needle
    (fold_left (fun curl kv => curl +:+ headerFlag (fst kv) (snd kv)) hs curl) = true.
Proof.
  induction hs as [|h hs IH]; intros curl; simpl.
  - intros [H | (kv & [] & _)]. done.
  - intros [H | (kv & [<- | Hin] & Hkv)]; apply IH.
    + left. by apply includes_before.
    + left. by apply includes_after.
    + right. eauto.
Qed.

Lemma headerFlag_bearer tok :
  headerFlag "Authorization" ("Bearer " +:+ tok) = continuation +:+ bearerFlag tok.
Proof. reflexivity. Qed.

(** C8, as the code has it: with [includeAuth] set, a bearer token that is
    not empty and no custom [Authorization] header, the cURL command of any
    endpoint whose URL can be built has the bearer flag in it. *)
Theorem generateCurl_bearer `{Host} (servers : option (list Server))
    (endpoint : NormalizedEndpoint) (options : CodeSnippetOptions)
    (a : Auth) (tok url : string) :
  includeAuth options = Some true ->
  auth options = Some a -> auth_type a = Bearer ->
  bearer a = Some {| token := tok |} -> tok <> EmptyString ->
  hasKey "Authorization" (default [] (parameters options ≫= headers)) = false ->
  buildUrl servers endpoint options = Ok url ->
  exists code,
    generateCurl servers endpoint options = Ok code /\
    includes (bearerFlag tok) code = true.
Proof.
  intros Hinclude Hauth Htype Hbearer Htok Hcustom Hurl.
  assert (authHeaders options = Ok [("Authorization", "Bearer " +:+ tok)]) as Hheaders.
  { unfold authHeaders, generateAuthHeaders.
    rewrite Hinclude, Hauth, Htype, Hbearer. simpl. by destruct tok. }
  unfold generateCurl. rewrite Hurl, Hheaders, Hinclude, Hauth. simpl.
  rewrite Htype.
  match goal with
  | |- exists code, mret ?c = Ok code /\ _ => exists c; split; [done |]
  end.
  apply includes_before.
  match goal with
  | |- includes _ (if ?c then _ else _) = true =>
      destruct c; [apply includes_before |]
  end;
    (apply headers_loop; right;
     exists ("Authorization", "Bearer " +:+ tok); split;
     [| simpl fst; simpl snd; rewrite headerFlag_bearer;
        rewrite <- (append_nil_r (bearerFlag tok)) at 2; apply includes_append]).
  all: apply spread_In; [by left | done].
Qed.

Lemma generateCurl_bearer_witness :
  exists code,
    @generateCurl standardHost None (getEndpoint "/users") bearerIncluded = Ok code /\
    includes (bearerFlag "test-token") code = true.
Proof.
  apply (@generateCurl_bearer standardHost None (getEndpoint "/users") bearerIncluded
           bearerAuth "test-token" "https://api.example.com/users");
    (reflexivity || discriminate).
Defined.

(** The claim as stated fails: bearer authentication is configured, but
    [includeAuth] is not set, and the command carries no header at all. *)
Lemma generateCurl_without_includeAuth :
  auth_type bearerAuth = Bearer /\
  bearer bearerAuth = Some {| token := "test-token" |} /\
  method (getEndpoint "/users") = Get /\
  @generateCurl standardHost None (getEndpoint "/users") bearerOnly
  = Ok ("curl -X GET" +:+ continuation +:+ quote
        +:+ "https://api.example.com/users" +:+ quote) /\
  includes (bearerFlag "test-token")
           ("curl -X GET" +:+ continuation +:+ quote
            +:+ "https://api.example.com/users" +:+ quote) = false.
Proof. repeat split; reflexivity. Qed.

End SnippetProofs.

(** ** Lists *)

Module ListFacts.

Lemma filter_filter {A} (f g : A -> bool) (l : list A) :
  List.filter g (List.filter f l) = List.filter (fun x => f x && g x) l.
Proof.
  induction l as [|x l IH]; simpl; [done |].
  destruct (f x); simpl; [| done]. destruct (g x); by rewrite IH.
Qed.

Lemma filter_true {A} (l : list A) : List.filter (fun _ => true) l = l.
Proof. induction l as [|x l IH]; simpl; [done | by rewrite IH]. Qed.

End ListFacts.

(** ** The normalizers *)

Module ParsingFacts.
Import JS Parsing StringFacts Operations NormalizerProofs.
#[local] Arguments append !s1 s2 / : simpl nomatch.

Lemma getProp_getPropOpt v k x : getProp v k = Ok x -> x = getPropOpt v k.
Proof. destruct v; simpl; congruence. Qed.

Lemma getProp_object v k : nullish v = false -> getProp v k = Ok (getPropOpt v k).
Proof. by destruct v. Qed.

Lemma mapRes_Ok_length {A B} (f : A -> Res B) xs ys :
  mapRes f xs = Ok ys -> length ys = length xs.
Proof.
  revert ys. induction xs as [|x xs IH]; intros ys H; simpl in H.
  - by injection H as <-.
  - bind_inv H as y Hy. bind_inv H as ys' Hys. injection H as <-.
    simpl. f_equal. by apply IH.
Qed.

Lemma mapRes_Ok_Forall2 {A B} (f : A -> Res B) xs ys :
  mapRes f xs = Ok ys <-> Forall2 (fun x y => f x = Ok y) xs ys.
Proof.
  revert ys. induction xs as [|x xs IH]; intros ys; simpl.
  - split; [intros [= <-]; constructor | by inversion 1].
  - split.
    + intros H. bind_inv H as y Hy. bind_inv H as ys' Hys. injection H as <-.
      constructor; [done | by apply IH].
    + inversion 1 as [|? y ? ys' Hy Hys]; subst. rewrite Hy. simpl.
      apply IH in Hys. by rewrite Hys.
Qed.

Lemma forEach_cons {A S} (body : S -> A -> Res S) x xs s :
  forEach body (x :: xs) s = body s x ≫= forEach body xs.
Proof. done. Qed.

Section Loops.
Context (fuel : nat) (spec : Value).

Let normalized := fun (o : string * HttpMethod * Value) (e : NormalizedEndpoint) =>
  normalizeEndpoint fuel (fst (fst o)) (snd (fst o)) (snd o) spec = Ok e.

Lemma methods_loop_normalized p pathItem (ms : list HttpMethod) : forall acc acc',
  forEach (fun (endpoints : list NormalizedEndpoint) m =>
    operation ← getProp pathItem (methodName m);
    if truthy operation then
      endpoint ← normalizeEndpoint fuel p m operation spec;
      mret (endpoints ++ [endpoint])%list
    else mret endpoints) ms acc = Ok acc' ->
  exists new,
    acc' = (acc ++ new)%list /\
    Forall2 normalized
      (List.map (fun m => (p, m, getPropOpt pathItem (methodName m)))
         (List.filter (fun m => truthy (getPropOpt pathItem (methodName m))) ms)) new.
Proof.
  induction ms as [|m ms IH]; intros acc acc' H; simpl in H.
  - injection H as <-. exists []. split; [by rewrite app_nil_r | constructor].
  - bind_inv H as acc1 Hvisit. bind_inv Hvisit as operation Hop.
    apply getProp_getPropOpt in Hop as ->.
    simpl. destruct (truthy _) eqn:Ht.
    + bind_inv Hvisit as endpoint Hnorm. injection Hvisit as <-.
      destruct (IH _ _ H) as (new & -> & Hnew).
      exists (endpoint :: new). split; [by rewrite <- app_assoc |].
      simpl. by constructor.
    + injection Hvisit as <-. by apply IH.
Qed.

Lemma paths_loop_normalized (es : list (string * Value)) : forall acc acc',
  forEach (fun (endpoints : list NormalizedEndpoint) '(p, pathItem) =>
    forEach (fun (endpoints : list NormalizedEndpoint) m =>
      operation ← getProp pathItem (methodName m);
      if truthy operation then
        endpoint ← normalizeEndpoint fuel p m operation spec;
        mret (endpoints ++ [endpoint])%list
      else mret endpoints) httpMethods endpoints) es acc = Ok acc' ->
  exists new, acc' = (acc ++ new)%list /\ Forall2 normalized (operations es) new.
Proof.
  induction es as [|[p pathItem] es IH]; intros acc acc' H.
  - injection H as <-. exists []. split; [by rewrite app_nil_r | constructor].
  - rewrite forEach_cons in H. bind_inv H as acc1 Hitem.
    apply methods_loop_normalized in Hitem as (new1 & -> & Hnew1).
    destruct (IH _ _ H) as (new2 & -> & Hnew2).
    exists (new1 ++ new2)%list. split; [by rewrite app_assoc |].
    unfold operations. simpl. apply Forall2_app; done.
Qed.

(** The endpoints are the operations of the document, normalized one by
    one in order. *)
Lemma extractEndpoints_normalized endpoints :
  extractEndpoints fuel spec = Ok endpoints ->
  exists paths,
    getProp spec "paths" ≫= entries = Ok paths /\
    Forall2 normalized (operations paths) endpoints.
Proof.
  unfold extractEndpoints. intros H.
  bind_inv H as paths Hpaths. bind_inv H as es Hes.
  exists es. split; [by rewrite Hpaths |].
  by apply paths_loop_normalized in H as (new & -> & Hnew).
Qed.

End Loops.


Lemma all_methods m : In m httpMethods.
Proof. destruct m; simpl; tauto. Qed.

Lemma operations_In paths p pathItem m :
  In (p, pathItem) paths ->
  truthy (getPropOpt pathItem (methodName m)) = true ->
  In (p, m, getPropOpt pathItem (methodName m)) (operations paths).
Proof.
  intros Hin Ht. unfold operations. apply in_flat_map.
  exists (p, pathItem). split; [done |]. simpl.
  apply in_map_iff. exists m. split; [done |].
  unfold truthyMethods. apply filter_In. split; [apply all_methods | done].
Qed.

Lemma Forall2_In_left {A B} (R : A -> B -> Prop) xs ys x :
  Forall2 R xs ys -> In x xs -> exists y, In y ys /\ R x y.
Proof.
  induction 1 as [|x' y' xs ys Hxy _ IH]; simpl; [done |].
  intros [<- | Hin]; [by exists y'; auto |].
  destruct (IH Hin) as (y & Hy & HR). exists y. auto.
Qed.

Lemma entries_Ok v es : entries v = Ok es -> nullish v = false.
Proof. by destruct v. Qed.

Lemma normalizeEndpoint_responses fuel p m operation spec e :
  normalizeEndpoint fuel p m operation spec = Ok e ->
  exists rs,
    entries (getPropOpt operation "responses") = Ok rs /\
    List.map response_statusCode (responses e) = List.map fst rs.
Proof.
  unfold normalizeEndpoint. intros H.
  do 9 (let E := fresh in apply bind_Ok in H; destruct H as (? & E & H)).
  bind_inv H as rsv Hrs. apply getProp_getPropOpt in Hrs as ->.
  bind_inv H as rs' Hnorm.
  do 2 (let E := fresh in apply bind_Ok in H; destruct H as (? & E & H)).
  injection H as <-. simpl.
  unfold normalizeResponses in Hnorm. bind_inv Hnorm as rs Hes.
  exists rs. split; [done |]. clear Hes.
  apply mapRes_Ok_Forall2 in Hnorm.
  induction Hnorm as [|[code r] r' rs0 rs1 Hr _ IH]; [done |].
  simpl. f_equal; [| done].
  repeat (let E := fresh in apply bind_Ok in Hr; destruct Hr as (? & E & Hr)).
  by injection Hr as <-.
Qed.

(** X1: a document with no [paths] member (or a null one) is not normalized:
    [Object.entries(spec.paths)] throws a TypeError, whatever else the
    document holds. *)
Theorem parseOpenApi_without_paths `{Parsers} (fuel : nat) (spec : Value) :
  isObjectValue spec = true ->
  nullish (getPropOpt spec "paths") = true ->
  parseOpenApi fuel spec
  = Throw (TypeError "Cannot convert undefined or null to object").
Proof.
  intros Hobj Hpaths. unfold parseOpenApi.
  assert (forall (k : Value -> Res ParsedApiSpec),
            match spec with VStr specString => parseSpecString specString
                       | _ => mret spec end ≫= k = k spec) as ->.
  { intros k. by destruct spec. }
  unfold extractEndpoints.
  rewrite (getProp_object spec "paths") by (by destruct spec).
  destruct (getPropOpt spec "paths"); try discriminate Hpaths; reflexivity.
Qed.

Lemma parseOpenApi_without_paths_witness :
  @parseOpenApi LoaderExamples.rejectingParsers 0 Examples.petstore
  = Throw (TypeError "Cannot convert undefined or null to object").
Proof.
  apply (@parseOpenApi_without_paths LoaderExamples.rejectingParsers 0 Examples.petstore);
    reflexivity.
Defined.

(** X2: when the endpoints of a document are extracted, every operation of
    the document has a [responses] member: an operation without one makes
    the extraction throw. *)
Theorem extractEndpoints_requires_responses (fuel : nat) (spec : Value)
    (endpoints : list NormalizedEndpoint) (paths : list (string * Value))
    (p : string) (pathItem : Value) (m : HttpMethod) :
  extractEndpoints fuel spec = Ok endpoints ->
  getProp spec "paths" ≫= entries = Ok paths ->
  In (p, pathItem) paths ->
  truthy (getPropOpt pathItem (methodName m)) = true ->
  nullish (getPropOpt (getPropOpt pathItem (methodName m)) "responses") = false.
Proof.
  intros Hex Hpaths Hin Ht.
  apply extractEndpoints_normalized in Hex as (paths' & Hpaths' & Hall).
  assert (paths' = paths) as -> by congruence.
  pose proof (operations_In _ _ _ _ Hin Ht) as Hop.
  destruct (Forall2_In_left _ _ _ _ Hall Hop) as (e & _ & Hnorm).
  apply normalizeEndpoint_responses in Hnorm as (rs & Hrs & _).
  by apply entries_Ok in Hrs.
Qed.

Lemma extractEndpoints_requires_responses_witness :
  nullish (getPropOpt (getPropOpt (VObj [("get", VObj [("responses", Examples.okResponses)])])
                                  "get") "responses") = false.
Proof.
  destruct (extractEndpoints 1 Examples.slugApi) as [endpoints| |] eqn:E;
    [| by vm_compute in E | by vm_compute in E].
  apply (extractEndpoints_requires_responses 1 Examples.slugApi endpoints
           [("/a-b", VObj [("get", VObj [("responses", Examples.okResponses)])]);
            ("/a_b", VObj [("get", VObj [("responses", Examples.okResponses)])])]
           "/a-b" (VObj [("get", VObj [("responses", Examples.okResponses)])]) Get E);
    [reflexivity | simpl; tauto | reflexivity].
Defined.


Lemma normalizeEndpoint_parameters fuel p m operation spec e :
  normalizeEndpoint fuel p m operation spec = Ok e ->
  exists ps,
    asArray (or_else (getPropOpt operation "parameters") (VArr [])) = Ok ps /\
    length (parameters e) = length ps.
Proof.
  unfold normalizeEndpoint. intros H.
  do 4 (let E := fresh in apply bind_Ok in H; destruct H as (? & E & H)).
  bind_inv H as psv Hps. apply getProp_getPropOpt in Hps as ->.
  bind_inv H as ps Harr. bind_inv H as ps' Hnorm.
  repeat (let E := fresh in apply bind_Ok in H; destruct H as (? & E & H)).
  injection H as <-. simpl. exists ps. split; [done |].
  by apply mapRes_Ok_length in Hnorm.
Qed.

(** X3: a normalized endpoint has one parameter for each element of the
    operation's [parameters] (none when the member is missing) and one
    response for each key of its [responses], with the keys as status codes
    in their order. *)
Theorem normalizeEndpoint_shape (fuel : nat) (p : string) (m : HttpMethod)
    (operation spec : Value) (e : NormalizedEndpoint) :
  normalizeEndpoint fuel p m operation spec = Ok e ->
  exists ps rs,
    asArray (or_else (getPropOpt operation "parameters") (VArr [])) = Ok ps /\
    entries (getPropOpt operation "responses") = Ok rs /\
    length (parameters e) = length ps /\
    List.map response_statusCode (responses e) = List.map fst rs.
Proof.
  intros H.
  destruct (normalizeEndpoint_parameters _ _ _ _ _ _ H) as (ps & Hps & Hlen).
  destruct (normalizeEndpoint_responses _ _ _ _ _ _ H) as (rs & Hrs & Hcodes).
  by exists ps, rs.
Qed.

Lemma normalizeEndpoint_shape_witness :
  exists e,
    normalizeEndpoint 1 "/users" Get
      (VObj [("operationId", VStr "listUsers"); ("responses", Examples.okResponses)])
      Examples.usersApi = Ok e /\
    length (parameters e) = 0%nat /\
    List.map response_statusCode (responses e) = ["200"].
Proof.
  destruct (normalizeEndpoint 1 "/users" Get
              (VObj [("operationId", VStr "listUsers"); ("responses", Examples.okResponses)])
              Examples.usersApi) as [e| |] eqn:E;
    [| by vm_compute in E | by vm_compute in E].
  exists e. split; [done |].
  destruct (normalizeEndpoint_shape _ _ _ _ _ _ E) as (ps & rs & Hps & Hrs & Hlen & Hcodes).
  vm_compute in Hps. injection Hps as <-.
  vm_compute in Hrs. injection Hrs as <-.
  done.
Defined.

(** *** Derived ids *)

Lemma allChars_append p a b : allChars p (a +:+ b) = allChars p a && allChars p b.
Proof. induction a as [|c a IH]; simpl; [done |]. by rewrite IH, andb_assoc. Qed.

Lemma allChars_mapString p f s :
  (forall c, p (f c) = true) -> allChars p (mapString f s) = true.
Proof. intros Hf. induction s as [|c s IH]; simpl; [done |]. by rewrite Hf, IH. Qed.

Lemma length_mapString f s : String.length (mapString f s) = String.length s.
Proof. induction s as [|c s IH]; simpl; [done |]. by rewrite IH. Qed.

(** X4: an operation without an [operationId] gets an id made of the
    upper-cased method, an underscore and the path with every character that
    is not a letter or a digit turned into an underscore: the id holds
    letters, digits and underscores only, and is as long as method and path
    together plus one. *)
Theorem generateEndpointId_derived (m : HttpMethod) (p : string) (operationId : Value) :
  truthy operationId = false ->
  exists s,
    generateEndpointId m p operationId = VStr s /\
    allChars isIdChar s = true /\
    String.length s = (String.length (methodName m) + 1 + String.length p)%nat.
Proof.
  intros Hid. unfold generateEndpointId. rewrite Hid.
  eexists. split; [reflexivity |]. split.
  - rewrite !allChars_append.
    apply andb_true_intro; split; [by destruct m |].
    apply andb_true_intro; split; [done |].
    { apply allChars_mapString. intros c. unfold isIdChar.
      destruct (isUpper c || isLower c || isDigit c) eqn:E; [by rewrite E | done]. }
  - rewrite !length_append. unfold toUpperCase, replaceNonAlnum.
    rewrite !length_mapString. simpl. lia.
Qed.

Lemma generateEndpointId_derived_witness :
  exists s,
    generateEndpointId Get "/users/{id}" VUndef = VStr s /\
    allChars isIdChar s = true /\ String.length s = 15%nat.
Proof. apply (generateEndpointId_derived Get "/users/{id}" VUndef). reflexivity. Defined.


(** *** Pointers *)

Lemma split_plain s : allChars notSlash s = true -> split "/" s = [s].
Proof.
  induction s as [|c s IH]; simpl; [done |].
  intros [Hc Hs]%andb_prop. unfold notSlash in Hc.
  destruct (Ascii.eqb c "/"); [done |]. by rewrite IH.
Qed.

Lemma split_segment a b :
  allChars notSlash a = true -> split "/" (a +:+ String "/" b) = a :: split "/" b.
Proof.
  induction a as [|c a IH]; simpl; [done |].
  intros [Hc Ha]%andb_prop. unfold notSlash in Hc.
  destruct (Ascii.eqb c "/"); [done |]. by rewrite IH.
Qed.

Lemma split_concat segs :
  segs <> [] -> Forall (fun seg => allChars notSlash seg = true) segs ->
  split "/" (String.concat "/" segs) = segs.
Proof.
  induction segs as [|seg segs IH]; [done |]. intros _ Hall.
  apply Forall_cons_iff in Hall as [Hseg Hall].
  destruct segs as [|seg' segs]; [by apply split_plain |].
  change (String.concat "/" (seg :: seg' :: segs))
    with (seg +:+ String "/" (String.concat "/" (seg' :: segs))).
  rewrite split_segment by done. f_equal. by apply IH.
Qed.

(** X5: the pointer [#/s1/.../sn] is taken apart into the segments [s1],
    ..., [sn] as they are written: no segment is unescaped or decoded. *)
Theorem pointerSegments_join (segs : list string) :
  segs <> [] -> Forall (fun seg => allChars notSlash seg = true) segs ->
  pointerSegments ("#/" +:+ String.concat "/" segs) = segs.
Proof.
  intros Hne Hall. unfold pointerSegments, replace.
  rewrite splitFirst_unfold, prefix_append, dropString_append.
  simpl. by apply split_concat.
Qed.

Lemma pointerSegments_join_witness :
  pointerSegments "#/components/schemas/a~1b%20c" = ["components"; "schemas"; "a~1b%20c"].
Proof.
  apply (pointerSegments_join ["components"; "schemas"; "a~1b%20c"]);
    [discriminate | repeat constructor].
Defined.


(** *** Schemas *)

Lemma falsy_entries v es : truthy v = false -> entries v = Ok es -> es = [].
Proof.
  destruct v as [| |b|n|t|xs|fields]; simpl; try done.
  - by intros _ [= <-].
  - by intros _ [= <-].
  - destruct t; [by intros _ [= <-] | done].
Qed.

(** X6: the schemas of a parsed document carry the names under
    [components.schemas], in their order; there are none when [components]
    or its [schemas] is missing. *)
Theorem extractSchemas_names (fuel : nat) (spec : Value)
    (schemas : list (string * NormalizedSchema)) :
  extractSchemas fuel spec = Ok schemas ->
  let declared := getPropOpt (getPropOpt spec "components") "schemas" in
  (truthy declared = false -> schemas = []) /\
  (forall es, entries declared = Ok es -> List.map fst schemas = List.map fst es).
Proof.
  unfold extractSchemas. intros H. bind_inv H as components Hc.
  apply getProp_getPropOpt in Hc as ->. simpl.
  destruct (truthy (getPropOpt (getPropOpt spec "components") "schemas")) eqn:Ht;
    simpl in H.
  - split; [done |]. intros es Hes. rewrite Hes in H. simpl in H.
    apply mapRes_Ok_Forall2 in H. clear Hes.
    induction H as [|[name schema] [name' s] es schemas Hs _ IH]; [done |].
    simpl. f_equal; [| done].
    bind_inv Hs as s' Hs'. by injection Hs as <- _.
  - injection H as <-. split; [done |]. intros es Hes.
    by rewrite (falsy_entries _ _ Ht Hes).
Qed.

Lemma extractSchemas_names_witness :
  exists schemas,
    extractSchemas 2 Examples.petstore = Ok schemas /\ List.map fst schemas = ["Pet"].
Proof.
  destruct (extractSchemas 2 Examples.petstore) as [schemas| |] eqn:E;
    [| by vm_compute in E | by vm_compute in E].
  exists schemas. split; [done |].
  apply (proj2 (extractSchemas_names 2 Examples.petstore schemas E)
           [("Pet", VObj [("type", VStr "object"); ("nullable", VBool false)])]).
  reflexivity.
Defined.

End ParsingFacts.

(** ** Lookups and groups *)

Module LookupProofs.
Import JS Parsing Platform Lookup StringFacts NormalizerProofs ParsingFacts.
#[local] Arguments append !s1 s2 / : simpl nomatch.

(** *** Lookup by method and path *)

Lemma methodName_inj m1 m2 : methodName m1 = methodName m2 -> m1 = m2.
Proof. by destruct m1, m2. Qed.

Lemma find_unique {A B} (f : A -> B) (test : A -> bool) (l : list A) (e : A) :
  NoDup (List.map f l) -> In e l -> test e = true ->
  (forall x, test x = true -> f x = f e) ->
  List.find test l = Some e.
Proof.
  intros Hnd Hin He Htest. induction l as [|y l IH]; simpl in *; [done |].
  apply NoDup_cons_iff in Hnd as [Hy Hnd].
  destruct (test y) eqn:Ey.
  - destruct Hin as [-> | Hin]; [done |].
    exfalso. apply Hy. rewrite (Htest y Ey). by apply in_map.
  - destruct Hin as [-> | Hin]; [congruence | by apply IH].
Qed.

Lemma NoDup_map_pair {A B} (a : A) (l : list B) :
  NoDup l -> NoDup (List.map (fun m => (a, m)) l).
Proof.
  induction 1 as [|x l Hx Hl IH]; simpl; constructor; [| done].
  intros (y & [= ->] & Hy)%in_map_iff. done.
Qed.

Lemma NoDup_flat_map_pairs {A B} (l : list (A * B)) (g : B -> list HttpMethod) :
  NoDup (List.map fst l) -> (forall b, NoDup (g b)) ->
  NoDup (List.flat_map (fun entry => List.map (fun m => (fst entry, m)) (g (snd entry))) l).
Proof.
  intros Hl Hg. induction l as [|[a b] l IH]; simpl in *; [constructor |].
  apply NoDup_cons_iff in Hl as [Ha Hl].
  apply NoDup_app; [by apply NoDup_map_pair | by apply IH |].
  intros [a' m] Hin1 Hin2.
  apply in_map_iff in Hin1 as (? & [= <- <-] & _).
  apply in_flat_map in Hin2 as ([a2 b2] & Hin2 & Hm).
  apply in_map_iff in Hm as (? & [= ->] & _). simpl in *.
  apply Ha, in_map_iff. by exists (a, b2).
Qed.

Lemma NoDup_httpMethods : NoDup httpMethods.
Proof.
  unfold httpMethods.
  repeat (constructor; [simpl; intros H; repeat destruct H as [H | H]; done |]).
  constructor.
Qed.

Lemma method_and_path_unique (fuel : nat) (spec : Value)
    (paths : list (string * Value)) (endpoints : list NormalizedEndpoint)
    (e : NormalizedEndpoint) :
  extractEndpoints fuel spec = Ok endpoints ->
  getProp spec "paths" ≫= entries = Ok paths ->
  NoDup (List.map fst paths) ->
  In e endpoints ->
  findEndpointByMethodAndPath endpoints (methodName (method e)) (path e) = Some e.
Proof.
  intros Hex Hpaths Hnd Hin.
  apply extractEndpoints_operations in Hex as (paths' & Hpaths' & Hops).
  assert (paths' = paths) as -> by congruence.
  apply (find_unique (fun e => (path e, method e))); [| done | |].
  - rewrite Hops. apply NoDup_flat_map_pairs; [done |].
    intros item. apply NoDup_filter, NoDup_httpMethods.
  - by rewrite !String.eqb_refl.
  - intros x [Hm Hp]%andb_prop.
    apply String.eqb_eq in Hm, Hp. apply methodName_inj in Hm. congruence.
Qed.

(** *** Groups *)

Lemma hasKey_getKey {V} k (obj : list (string * V)) :
  hasKey k obj = false <-> getKey k obj = None.
Proof.
  induction obj as [|[k' v] obj IH]; simpl; [done |].
  destruct (String.eqb k k'); simpl; [done | apply IH].
Qed.

Lemma getKey_replace {V} k k' (v : V) obj :
  getKey k (List.map (fun kv => if String.eqb k' (fst kv) then (k', v) else kv) obj)
  = if String.eqb k k' then (if hasKey k' obj then Some v else None) else getKey k obj.
Proof.
  induction obj as [|[k0 v0] obj IH]; simpl; [by destruct (String.eqb k k') |].
  destruct (String.eqb k' k0) eqn:E0; simpl.
  - apply String.eqb_eq in E0 as <-. by destruct (String.eqb k k').
  - rewrite IH. destruct (String.eqb k k') eqn:E; [| done].
    apply String.eqb_eq in E as ->. by rewrite E0.
Qed.

Lemma getKey_insertIndexKey {V} i k k' (v : V) obj :
  getKey k' obj = None ->
  getKey k (insertIndexKey i k' v obj)
  = if String.eqb k k' then Some v else getKey k obj.
Proof.
  induction obj as [|[k0 v0] obj IH]; simpl; [done |].
  destruct (String.eqb k' k0) eqn:E0; [done |]. intros Hnone.
  destruct (parseIndex k0) as [j|]; [destruct (j <? i)%nat |]; simpl; try done.
  rewrite IH by done.
  destruct (String.eqb k k') eqn:E; [| done].
  apply String.eqb_eq in E as ->. by rewrite E0.
Qed.

Lemma getKey_app {V} k (a b : list (string * V)) :
  getKey k (a ++ b) = match getKey k a with Some v => Some v | None => getKey k b end.
Proof.
  induction a as [|[k0 v0] a IH]; simpl; [done |]. by destruct (String.eqb k k0).
Qed.

(** [obj[k'] = v] and then [obj[k]] *)
Lemma getKey_setKey {V} k k' (v : V) obj :
  getKey k (setKey k' v obj) = if String.eqb k k' then Some v else getKey k obj.
Proof.
  unfold setKey. destruct (hasKey k' obj) eqn:Hk.
  - by rewrite getKey_replace, Hk.
  - apply hasKey_getKey in Hk.
    destruct (parseIndex k'); [by apply getKey_insertIndexKey |].
    rewrite getKey_app. simpl.
    destruct (String.eqb k k') eqn:E.
    + apply String.eqb_eq in E as ->. by rewrite Hk.
    + by destruct (getKey k obj).
Qed.

Lemma pushTo_group key e groups groups' k :
  pushTo key e groups = Ok groups' ->
  groupOf k groups' = if String.eqb k key then (groupOf key groups ++ [e])%list
                      else groupOf k groups.
Proof.
  unfold pushTo, groupOf. destruct (getKey key groups) as [g|] eqn:Hg.
  - intros [= <-]. rewrite getKey_setKey. by destruct (String.eqb k key).
  - destruct (bool_decide _); [done |]. intros [= <-].
    rewrite getKey_setKey. by destruct (String.eqb k key).
Qed.

Lemma pushTo_inherited key e groups groups' :
  pushTo key e groups = Ok groups' ->
  (forall k, (k ∈ inherited) -> getKey k groups = None) ->
  (key ∉ inherited) /\ forall k, (k ∈ inherited) -> getKey k groups' = None.
Proof.
  unfold pushTo. intros H Hinv.
  assert (key ∉ inherited) as Hkey.
  { intros Hin. rewrite (Hinv _ Hin) in H. by rewrite bool_decide_eq_true_2 in H. }
  split; [done |]. intros k Hk.
  assert (String.eqb k key = false) as Hne.
  { apply String.eqb_neq. by intros ->. }
  destruct (getKey key groups); [| destruct (bool_decide _); [done |]];
    injection H as <-; by rewrite getKey_setKey, Hne, Hinv.
Qed.


Lemma tagNames_array e names :
  tagNames e = Some names ->
  untagged e = match names with [] => true | _ => false end /\
  (names <> [] -> tags e = VArr (VStr <$> names)).
Proof.
  unfold tagNames, untagged. destruct (tags e) as [| | | | |xs|]; try done.
  - by intros [= <-].
  - intros Hm. assert (xs = VStr <$> names) as ->.
    { revert names Hm. induction xs as [|x xs IH]; intros names; simpl.
      - by intros [= <-].
      - destruct x; try done. simpl.
        destruct (mapM _ xs) as [ns|] eqn:E; [| done]. simpl.
        intros [= <-]. simpl. f_equal. by apply IH. }
    split; [| done]. by destruct names.
Qed.

Lemma tags_loop e (names : list string) : forall groups groups',
  forEach (fun (groups : Groups) tag => pushTo (toString tag) e groups)
          (VStr <$> names) groups = Ok groups' ->
  forall k, groupOf k groups'
            = (groupOf k groups ++ repeat e (length (List.filter (String.eqb k) names)))%list.
Proof.
  induction names as [|name names IH]; intros groups groups' H k.
  - injection H as <-. simpl. by rewrite app_nil_r.
  - change (pushTo name e groups
            ≫= forEach (fun (groups : Groups) tag => pushTo (toString tag) e groups)
                       (VStr <$> names) = Ok groups') in H.
    bind_inv H as groups1 Hpush.
    rewrite (IH _ _ H k), (pushTo_group _ _ _ _ k Hpush). simpl.
    destruct (String.eqb k name) eqn:E; [| done].
    apply String.eqb_eq in E as ->. simpl. by rewrite <- app_assoc.
Qed.

Lemma endpoints_loop (es : list NormalizedEndpoint) : forall groups groups',
  Forall (fun e => is_Some (tagNames e)) es ->
  forEach (fun (groups : Groups) endpoint =>
    if untagged endpoint then pushTo "Untagged" endpoint groups
    else
      ts ← iterate (tags endpoint);
      forEach (fun (groups : Groups) tag => pushTo (toString tag) endpoint groups)
              ts groups) es groups = Ok groups' ->
  forall k, groupOf k groups'
            = (groupOf k groups
               ++ List.flat_map (fun e => repeat e (filed k (default [] (tagNames e)))) es)%list.
Proof.
  induction es as [|e es IH]; intros groups groups' Htyped H k.
  - injection H as <-. simpl. by rewrite app_nil_r.
  - apply Forall_cons_iff in Htyped as [[names Hnames] Htyped].
    rewrite forEach_cons in H. bind_inv H as groups1 He.
    rewrite (IH _ _ Htyped H k). simpl. rewrite app_assoc. f_equal.
    rewrite Hnames. simpl.
    destruct (tagNames_array _ _ Hnames) as [Hun Harr]. rewrite Hun in He.
    destruct names as [|name names].
    + rewrite (pushTo_group _ _ _ _ k He). simpl.
      destruct (String.eqb k "Untagged") eqn:E; simpl; [| by rewrite app_nil_r].
      by apply String.eqb_eq in E as ->.
    + rewrite Harr in He by done. apply (tags_loop _ _ _ _ He).
Qed.


(** X8: for endpoints whose tags are arrays of strings, the group under a
    key lists, in the order of the input, every endpoint that has the key
    among its tags, once for each time the tag is written; the endpoints
    with no tag make the group [Untagged]. *)
Theorem groupEndpointsByTag_groups (endpoints : list NormalizedEndpoint)
    (groups : Groups) (key : string) :
  Forall (fun e => is_Some (tagNames e)) endpoints ->
  groupEndpointsByTag endpoints = Ok groups ->
  groupOf key groups
  = List.flat_map (fun e => repeat e (filed key (default [] (tagNames e)))) endpoints.
Proof.
  intros Htyped H. unfold groupEndpointsByTag in H.
  by rewrite (endpoints_loop _ _ _ Htyped H key).
Qed.

Lemma groupEndpointsByTag_groups_witness :
  exists groups,
    groupEndpointsByTag [LookupExamples.pets; LookupExamples.health; LookupExamples.orders]
    = Ok groups /\
    groupOf "store" groups = [LookupExamples.pets; LookupExamples.orders] /\
    groupOf "Untagged" groups = [LookupExamples.health].
Proof.
  destruct (groupEndpointsByTag
              [LookupExamples.pets; LookupExamples.health; LookupExamples.orders])
    as [groups| |] eqn:E; [| by vm_compute in E | by vm_compute in E].
  exists groups. split; [done |].
  assert (Forall (fun e => is_Some (tagNames e))
            [LookupExamples.pets; LookupExamples.health; LookupExamples.orders]) as Htyped.
  { repeat constructor; vm_compute; eauto. }
  split.
  - by rewrite (groupEndpointsByTag_groups _ groups "store" Htyped E).
  - by rewrite (groupEndpointsByTag_groups _ groups "Untagged" Htyped E).
Defined.

Lemma filterRes_typed {A} (f : A -> Res bool) (g : A -> bool) (xs : list A) :
  Forall (fun x => f x = Ok (g x)) xs -> filterRes f xs = Ok (List.filter g xs).
Proof.
  induction 1 as [|x xs Hx _ IH]; simpl; [done |].
  rewrite Hx, IH. simpl. by destruct (g x).
Qed.

Lemma tagsInclude_typed e names key :
  tagNames e = Some names ->
  tagsInclude (tags e) key = Ok (existsb (String.eqb key) names).
Proof.
  unfold tagNames. destruct (tags e) as [| | | | |xs|]; try done.
  - by intros [= <-].
  - simpl. intros Hm. f_equal. revert names Hm.
    induction xs as [|x xs IH]; intros names; simpl; [by intros [= <-] |].
    destruct x; try done. simpl.
    destruct (mapM _ xs) as [ns|] eqn:E; [| done]. simpl.
    intros [= <-]. simpl. rewrite (IH ns eq_refl).
    by rewrite String.eqb_sym.
Qed.

Lemma filter_once key (names : list string) :
  NoDup names ->
  length (List.filter (String.eqb key) names)
  = if existsb (String.eqb key) names then 1%nat else 0%nat.
Proof.
  induction 1 as [|name names Hname _ IH]; simpl; [done |].
  destruct (String.eqb key name) eqn:E; simpl; [| done].
  apply String.eqb_eq in E as <-. rewrite IH.
  destruct (existsb _ names) eqn:Ex; [| done].
  apply existsb_exists in Ex as (x & Hx & ->%String.eqb_eq). done.
Qed.

(** X9: when no endpoint writes a tag twice, the group under a tag is what
    [filterEndpointsByTag] returns for that tag; [Untagged] apart, which is
    a group and not a tag. *)
Theorem groupEndpointsByTag_filter (endpoints : list NormalizedEndpoint)
    (groups : Groups) (tag : string) :
  Forall (fun e => exists names, tagNames e = Some names /\ NoDup names) endpoints ->
  groupEndpointsByTag endpoints = Ok groups ->
  tag <> "Untagged" ->
  filterEndpointsByTag endpoints tag = Ok (groupOf tag groups).
Proof.
  intros Htyped H Htag.
  assert (Forall (fun e => is_Some (tagNames e)) endpoints) as Htyped'.
  { eapply Forall_impl; [| exact Htyped]. by intros e (names & -> & _). }
  unfold groupEndpointsByTag in H.
  rewrite (endpoints_loop _ _ _ Htyped' H tag). simpl.
  unfold filterEndpointsByTag.
  rewrite (filterRes_typed _ (fun e => existsb (String.eqb tag) (default [] (tagNames e)))).
  - f_equal. clear H Htyped'.
    induction Htyped as [|e es (names & Hnames & Hnd) _ IH]; simpl; [done |].
    rewrite Hnames. simpl. rewrite <- IH.
    destruct names as [|name names].
    + simpl. apply String.eqb_neq in Htag. by rewrite Htag.
    + unfold filed. rewrite (filter_once _ _ Hnd).
      by destruct (existsb _ (name :: names)).
  - eapply Forall_impl; [| exact Htyped]. intros e (names & Hnames & _).
    simpl. rewrite Hnames. by apply tagsInclude_typed.
Qed.

Lemma groupEndpointsByTag_filter_witness :
  exists groups,
    groupEndpointsByTag [LookupExamples.pets; LookupExamples.health; LookupExamples.orders]
    = Ok groups /\
    filterEndpointsByTag [LookupExamples.pets; LookupExamples.health; LookupExamples.orders]
                         "store"
    = Ok (groupOf "store" groups).
Proof.
  destruct (groupEndpointsByTag
              [LookupExamples.pets; LookupExamples.health; LookupExamples.orders])
    as [groups| |] eqn:E; [| by vm_compute in E | by vm_compute in E].
  exists groups. split; [done |].
  apply (groupEndpointsByTag_filter _ groups "store"); [| done | discriminate].
  repeat constructor.
  - exists ["pets"; "store"]. split; [reflexivity |].
    repeat (constructor; [simpl; intros H; repeat destruct H as [H | H]; done |]).
    constructor.
  - exists []. split; [reflexivity | constructor].
  - exists ["store"]. split; [reflexivity |].
    repeat (constructor; [simpl; intros H; repeat destruct H as [H | H]; done |]).
    constructor.
Defined.


(** *** Tags that name inherited members *)

Lemma pushTo_outcome key e groups :
  fresh groups ->
  match pushTo key e groups with
  | Ok groups' => (key ∉ inherited) /\ fresh groups'
  | Throw err => (key ∈ inherited) /\ err = notAFunction
  | OutOfFuel => False
  end.
Proof.
  intros Hfresh. unfold pushTo.
  destruct (decide (key ∈ inherited)) as [Hin | Hout].
  - by rewrite (Hfresh _ Hin), bool_decide_eq_true_2.
  - assert (forall v, fresh (setKey key v groups)) as Hset.
    { intros v k Hk. rewrite getKey_setKey.
      assert (String.eqb k key = false) as -> by (apply String.eqb_neq; by intros ->).
      by apply Hfresh. }
    destruct (getKey key groups); [done |].
    by rewrite bool_decide_eq_false_2.
Qed.

Lemma tags_outcome e (names : list string) : forall groups,
  fresh groups ->
  match forEach (fun (groups : Groups) tag => pushTo (toString tag) e groups)
                (VStr <$> names) groups with
  | Ok groups' =>
      forallb (fun name => negb (bool_decide (name ∈ inherited))) names = true
      /\ fresh groups'
  | Throw err =>
      forallb (fun name => negb (bool_decide (name ∈ inherited))) names = false
      /\ err = notAFunction
  | OutOfFuel => False
  end.
Proof.
  induction names as [|name names IH]; intros groups Hfresh; [done |].
  change (forEach _ (VStr <$> name :: names) groups)
    with (pushTo name e groups
          ≫= forEach (fun (groups : Groups) tag => pushTo (toString tag) e groups)
                     (VStr <$> names)).
  pose proof (pushTo_outcome name e groups Hfresh) as Hpush.
  destruct (pushTo name e groups) as [groups1|err|]; simpl; [| | done].
  - destruct Hpush as [Hout Hfresh1]. rewrite bool_decide_eq_false_2 by done.
    apply (IH _ Hfresh1).
  - destruct Hpush as [Hin ->]. by rewrite bool_decide_eq_true_2.
Qed.

Lemma endpoints_outcome (es : list NormalizedEndpoint) : forall groups,
  Forall (fun e => is_Some (tagNames e)) es ->
  fresh groups ->
  match forEach (fun (groups : Groups) endpoint =>
          if untagged endpoint then pushTo "Untagged" endpoint groups
          else
            ts ← iterate (tags endpoint);
            forEach (fun (groups : Groups) tag => pushTo (toString tag) endpoint groups)
                    ts groups) es groups with
  | Ok groups' => plainTags es = true
  | Throw err => plainTags es = false /\ err = notAFunction
  | OutOfFuel => False
  end.
Proof.
  induction es as [|e es IH]; intros groups Htyped Hfresh; [done |].
  apply Forall_cons_iff in Htyped as [[names Hnames] Htyped].
  rewrite forEach_cons. unfold plainTags. simpl. rewrite Hnames. simpl.
  destruct (tagNames_array _ _ Hnames) as [Hun Harr]. rewrite Hun.
  destruct names as [|name names].
  - pose proof (pushTo_outcome "Untagged" e groups Hfresh) as Hpush.
    destruct (pushTo "Untagged" e groups) as [groups1|err|]; simpl; [| | done].
    + apply (IH _ Htyped), Hpush.
    + destruct Hpush as [Hin _].
      apply (bool_decide_eq_true_2 _) in Hin. by vm_compute in Hin.
  - rewrite Harr by done.
    change (iterate (VArr (VStr <$> name :: names)) ≫= _)
      with (forEach (fun (groups : Groups) tag => pushTo (toString tag) e groups)
                    (VStr <$> name :: names) groups).
    pose proof (tags_outcome e (name :: names) groups Hfresh) as Htags.
    destruct (forEach _ (VStr <$> name :: names) groups) as [groups1|err|];
      simpl; [| | done].
    + destruct Htags as [Hplain Hfresh1]. simpl in Hplain. rewrite Hplain.
      apply (IH _ Htyped Hfresh1).
    + destruct Htags as [Hplain ->]. simpl in Hplain. by rewrite Hplain.
Qed.

(** X10: for endpoints whose tags are arrays of strings, grouping returns
    exactly when no tag is the name of a member that objects inherit
    ([constructor], [toString], ...); with such a tag it throws a TypeError,
    the value found under the tag being no array. *)
Theorem groupEndpointsByTag_outcome (endpoints : list NormalizedEndpoint) :
  Forall (fun e => is_Some (tagNames e)) endpoints ->
  match groupEndpointsByTag endpoints with
  | Ok _ => plainTags endpoints = true
  | Throw err => plainTags endpoints = false /\ err = notAFunction
  | OutOfFuel => False
  end.
Proof. intros Htyped. by apply endpoints_outcome. Qed.

Lemma groupEndpointsByTag_outcome_witness :
  groupEndpointsByTag [LookupExamples.pets; LookupExamples.odd] = Throw notAFunction.
Proof.
  assert (Forall (fun e => is_Some (tagNames e)) [LookupExamples.pets; LookupExamples.odd])
    as Htyped by (repeat constructor; vm_compute; eauto).
  pose proof (groupEndpointsByTag_outcome _ Htyped) as H.
  destruct (groupEndpointsByTag [LookupExamples.pets; LookupExamples.odd]) as [g|err|];
    [by vm_compute in H | by destruct H as [_ ->] | done].
Defined.

End LookupProofs.

(** ** The provider and its hooks *)

Module ProviderProofs.
Import JS Parsing Lookup Provider StringFacts NormalizerProofs LookupProofs ListFacts.
#[local] Arguments append !s1 s2 / : simpl nomatch.

Lemma Forall_filter {A} (P : A -> Prop) (f : A -> bool) (l : list A) :
  Forall P l -> Forall P (List.filter f l).
Proof.
  induction 1 as [|x l Hx _ IH]; simpl; [constructor |].
  destruct (f x); [by constructor | done].
Qed.

Lemma matchesSearch_typed searchLower e :
  typedEndpoint e = true ->
  matchesSearch searchLower e
  = Ok (includes searchLower (toLowerCase (path e))
        || textIncludes (summary e) searchLower
        || textIncludes (description e) searchLower
        || textIncludes (operationId e) searchLower).
Proof.
  unfold typedEndpoint, matchesSearch, orElse.
  intros [[[Hs Hd]%andb_prop Ho]%andb_prop _]%andb_prop.
  apply bool_decide_eq_true in Hs as [? Hs], Hd as [? Hd], Ho as [? Ho].
  destruct (includes searchLower (toLowerCase (path e))); [done |].
  destruct (summary e); try done; simpl;
    try (destruct (includes searchLower (toLowerCase _)); [done |]);
    destruct (description e); try done; simpl;
    try (destruct (includes searchLower (toLowerCase _)); [done |]);
    destruct (operationId e); try done.
Qed.

(** X26: on endpoints of the declared type, [useEndpoints] keeps the
    endpoints that pass every option that is given, in their order: the tag
    among the tags, the method and the search text without regard to case,
    the search text in the path, the summary, the description or the
    operation id.  An option given as an empty string is not given. *)
Theorem useEndpoints_kept (spec : option ParsedApiSpec) (options : UseEndpointsOptions) :
  Forall (fun e => typedEndpoint e = true) (endpointsOf spec) ->
  useEndpoints spec options = Ok (List.filter (kept options) (endpointsOf spec)).
Proof.
  intros Htyped. unfold useEndpoints, kept, getEndpointsByTag, filterEndpointsByTag.
  set (es := endpointsOf spec) in *.
  assert (forall tag,
            filterRes (fun endpoint => tagsInclude (tags endpoint) tag) es
            = Ok (List.filter (fun e => existsb (String.eqb tag) (default [] (tagNames e))) es))
    as Htag.
  { intros tag. apply filterRes_typed.
    eapply Forall_impl; [| exact Htyped]. intros e He. simpl in He.
    unfold typedEndpoint in He. apply andb_prop in He as [_ Ht].
    apply bool_decide_eq_true in Ht as [names Hnames].
    rewrite Hnames. by apply tagsInclude_typed. }
  assert (forall searchLower f,
            filterRes (matchesSearch searchLower) (List.filter f es)
            = Ok (List.filter
                    (fun e => includes searchLower (toLowerCase (path e))
                              || textIncludes (summary e) searchLower
                              || textIncludes (description e) searchLower
                              || textIncludes (operationId e) searchLower)
                    (List.filter f es))) as Hsearch.
  { intros searchLower f. apply filterRes_typed.
    apply Forall_filter.
    eapply Forall_impl; [| exact Htyped]. intros e He. by apply matchesSearch_typed. }
  destruct (Types.nonEmpty (use_tag options)) as [tag|];
    [rewrite Htag | rewrite <- (filter_true es) at 1];
    cbn [mbind Res_bind];
    destruct (Types.nonEmpty (use_method options)) as [m|];
    destruct (Types.nonEmpty (use_search options)) as [search|];
    rewrite ?filter_filter, ?Hsearch; cbn [mbind Res_bind mret Res_ret];
    destruct (use_filter options) as [f|];
    rewrite ?filter_filter; f_equal; apply filter_ext; intros e;
    cbn [andb]; rewrite ?andb_true_r, ?andb_assoc; reflexivity.
Qed.

Lemma useEndpoints_kept_witness :
  exists parsed,
    parseOpenApi (H := Fixtures.mockParsers) 12 Mocks.mockOpenApiSpec = Ok parsed /\
    useEndpoints (Some parsed)
      {| use_filter := None; use_tag := Some "users"; use_method := Some "GET";
         use_search := Some "USER" |}
    = Ok (List.filter
            (kept {| use_filter := None; use_tag := Some "users"; use_method := Some "GET";
                     use_search := Some "USER" |})
            (endpoints parsed)).
Proof.
  destruct (parseOpenApi (H := Fixtures.mockParsers) 12 Mocks.mockOpenApiSpec)
    as [parsed| |] eqn:E; [| by vm_compute in E | by vm_compute in E].
  exists parsed. split; [done |].
  apply (useEndpoints_kept (Some parsed)).
  vm_compute in E. injection E as <-.
  repeat (constructor; [by vm_compute |]). constructor.
Defined.

(** X7: in a specification parsed from a document whose paths are distinct
    keys, method and path name one endpoint only: [useEndpoint] with the
    method of an endpoint, in upper or lower case, and its path returns that
    endpoint. *)
Theorem useEndpoint_by_method_and_path `{Parsers} (fuel : nat) (doc : Value)
    (paths : list (string * Value)) (parsed : ParsedApiSpec)
    (e : NormalizedEndpoint) (m : string) :
  (forall s, doc <> VStr s) ->
  parseOpenApi fuel doc = Ok parsed ->
  getProp doc "paths" ≫= entries = Ok paths ->
  NoDup (List.map fst paths) ->
  In e (endpoints parsed) ->
  toLowerCase m = methodName (method e) ->
  useEndpoint (Some parsed) (ByMethodAndPath m (path e)) = Some e.
Proof.
  intros Hdoc Hparse Hpaths Hnd Hin Hm.
  apply parseOpenApi_endpoints in Hparse; [| done].
  unfold useEndpoint, getEndpointByMethodAndPath. rewrite Hm.
  by apply (method_and_path_unique fuel doc paths).
Qed.

Lemma useEndpoint_by_method_and_path_witness :
  exists parsed e,
    parseOpenApi (H := Fixtures.mockParsers) 1 Examples.slugApi = Ok parsed /\
    In e (endpoints parsed) /\ path e = "/a_b" /\
    useEndpoint (Some parsed) (ByMethodAndPath "GET" "/a_b") = Some e.
Proof.
  destruct (parseOpenApi (H := Fixtures.mockParsers) 1 Examples.slugApi)
    as [parsed| |] eqn:E; [| by vm_compute in E | by vm_compute in E].
  assert (exists e, List.nth_error (endpoints parsed) 1 = Some e
                    /\ path e = "/a_b" /\ method e = Get)
    as (e & Hnth & Hpath & Hmethod).
  { vm_compute in E. injection E as <-. eexists. by split. }
  exists parsed, e.
  assert (In e (endpoints parsed)) as Hin by (eapply nth_error_In; eauto).
  repeat split; [done | done |].
  rewrite <- Hpath.
  apply (useEndpoint_by_method_and_path (H := Fixtures.mockParsers) 1 Examples.slugApi
           [("/a-b", VObj [("get", VObj [("responses", Examples.okResponses)])]);
            ("/a_b", VObj [("get", VObj [("responses", Examples.okResponses)])])]
           parsed e "GET"); [done | exact E | reflexivity | | done | by rewrite Hmethod].
  repeat (constructor; [simpl; intros H; repeat destruct H as [H | H]; done |]).
  constructor.
Defined.

End ProviderProofs.

(** ** Cache, retries and reload *)

Module LoaderFacts.
Import JS Parsing Loader LoaderExamples Cache.

Section WithParsers.
Context `{Parsers}.
Variables (fuel : nat) (defaults : Defaults).

Lemma attempts_Ok url fetchFn maxRetries delay remaining :
  forall attempt lastError w trace s w' trace',
  attempts fuel url fetchFn maxRetries delay remaining attempt lastError w trace
  = (Ok s, w', trace') ->
  specCache w' !! url = Some {| cached := s; timestamp := now w' |}.
Proof.
  induction remaining as [|remaining IH]; intros attempt lastError w trace s w' trace';
    simpl; [done |].
  destruct (fetchFn url w) as [specText|err|]; simpl.
  - destruct (parseOpenApi fuel (VStr specText)) as [parsed|err|]; simpl.
    + intros [= <- <- <-]. simpl. by rewrite lookup_insert_eq.
    + destruct (attempt <? maxRetries)%Z; apply IH.
    + done.
  - destruct (attempt <? maxRetries)%Z; apply IH.
  - done.
Qed.

(** X11: once a url has been loaded, a load of the same url that starts
    less than the cache duration later is answered from the cache: it
    returns the same specification, calls neither transport nor parser and
    leaves the cache as it is. *)
Theorem loadFromUrl_cached (url : string) (config : ApiLoaderConfig) (w w1 : World)
    (s : ParsedApiSpec) (trace : list Event) (dt : Z) :
  specCache w !! url = None ->
  loadFromUrl fuel defaults url config w = (Ok s, w1, trace) ->
  (0 <= dt < numOr (cacheDuration config) (d_cacheDuration defaults))%Z ->
  loadFromUrl fuel defaults url config (later dt w1) = (Ok s, later dt w1, []).
Proof.
  intros Hmiss Hload Hdt. unfold loadFromUrl in Hload. rewrite Hmiss in Hload.
  apply attempts_Ok in Hload.
  unfold loadFromUrl. simpl. rewrite Hload. simpl.
  replace (now w1 + dt - now w1)%Z with dt by lia.
  by rewrite (proj2 (Z.ltb_lt _ _)) by lia.
Qed.

Lemma sleeps_app t1 t2 : sleeps (t1 ++ t2) = (sleeps t1 ++ sleeps t2)%list.
Proof. unfold sleeps. apply omap_app. Qed.

Lemma fetches_app t1 t2 : fetches (t1 ++ t2) = (fetches t1 ++ fetches t2)%list.
Proof. unfold fetches. apply omap_app. Qed.

(** The retry loop when every attempt fails with [e]: [r + 1] attempts are
    left and the loop is at attempt [a]. *)
Lemma attempts_fail url fetchFn delay e (r : nat) :
  (forall w, attemptOnce fuel fetchFn url w = Throw e) ->
  forall (a : nat) lastError w trace,
  exists w' trace',
    attempts fuel url fetchFn (Z.of_nat (a + r)) delay (S r) (Z.of_nat a) lastError w trace
    = (Throw e, w', trace') /\
    fetches trace' = (fetches trace ++ repeat url (S r))%list /\
    sleeps trace' = (sleeps trace
                     ++ List.map (fun k => (delay * 2 ^ Z.of_nat k)%Z) (seq a r))%list /\
    specCache w' = specCache w /\
    requests w' = (requests w + S r)%nat.
Proof.
  intros Hfail. induction r as [|r IH]; intros a lastError w trace.
  - pose proof (Hfail w) as Hw. unfold attemptOnce in Hw.
    rewrite Nat.add_0_r. cbn [attempts]. rewrite Z.ltb_irrefl.
    destruct (fetchFn url w) as [specText|err|]; simpl in Hw; [| | done].
    + rewrite Hw. simpl. do 2 eexists. split; [reflexivity |].
      rewrite !fetches_app, !sleeps_app. simpl.
      rewrite !app_nil_r. repeat split. lia.
    + injection Hw as ->. simpl. do 2 eexists. split; [reflexivity |].
      rewrite !fetches_app, !sleeps_app. simpl.
      rewrite !app_nil_r. repeat split. lia.
  - pose proof (Hfail w) as Hw. unfold attemptOnce in Hw.
    set (n := S r). cbn [attempts]. subst n.
    assert ((Z.of_nat a <? Z.of_nat (a + S r))%Z = true) as -> by (apply Z.ltb_lt; lia).
    replace (Z.of_nat a + 1)%Z with (Z.of_nat (S a)) by lia.
    replace (a + S r)%nat with (S a + r)%nat by lia.
    destruct (fetchFn url w) as [specText|err|]; simpl in Hw; [| | done].
    + rewrite Hw. cbn [fst snd].
      edestruct (IH (S a)) as (w' & trace' & -> & Hf & Hs & Hc & Hr).
      exists w', trace'. split; [reflexivity |].
      rewrite Hf, Hs, Hc, Hr, !fetches_app, !sleeps_app. simpl.
      rewrite !app_nil_r, <- !app_assoc. simpl. repeat split. lia.
    + injection Hw as ->.
      edestruct (IH (S a)) as (w' & trace' & -> & Hf & Hs & Hc & Hr).
      exists w', trace'. split; [reflexivity |].
      rewrite Hf, Hs, Hc, Hr, !fetches_app, !sleeps_app. simpl.
      rewrite !app_nil_r, <- !app_assoc. simpl. repeat split. lia.
Qed.

(** X12: when every attempt on a url fails with the same error, be it the
    transport or the parser that throws, the url is requested once and then
    once more for each retry allowed, with waits of [delay], [2 * delay],
    [4 * delay], ... in between; the load ends with that error and the cache
    is as before.  The number of retries is that of the call unless it is
    missing or zero, then that of the hook. *)
Theorem loadFromUrl_gives_up (url : string) (config : ApiLoaderConfig) (w : World)
    (e : Exn) :
  let fetchFn := default (d_fetcher defaults) (fetcher config) in
  let maxRetries := numOr (retries config) (d_retries defaults) in
  let delay := numOr (retryDelay config) (d_retryDelay defaults) in
  specCache w !! url = None ->
  (forall w, attemptOnce fuel fetchFn url w = Throw e) ->
  (0 <= maxRetries)%Z ->
  exists w' trace,
    loadFromUrl fuel defaults url config w = (Throw e, w', trace) /\
    fetches trace = repeat url (Z.to_nat maxRetries + 1) /\
    sleeps trace = backoff delay (Z.to_nat maxRetries) /\
    specCache w' = specCache w /\
    requests w' = (requests w + Z.to_nat maxRetries + 1)%nat.
Proof.
  intros fetchFn maxRetries delay Hmiss Hfail Hretries.
  unfold loadFromUrl. rewrite Hmiss. fold fetchFn maxRetries delay.
  replace (Z.to_nat (maxRetries + 1)) with (S (Z.to_nat maxRetries)) by lia.
  destruct (attempts_fail url fetchFn delay e (Z.to_nat maxRetries) Hfail 0 None w [])
    as (w' & trace & Hrun & Hf & Hs & Hc & Hr).
  simpl in Hrun. rewrite Z2Nat.id in Hrun by done.
  exists w', trace. split; [exact Hrun |].
  rewrite Hf, Hs, Hc, Hr. simpl. rewrite Nat.add_1_r. repeat split. lia.
Qed.

Lemma attempts_trace url fetchFn maxRetries delay remaining :
  forall attempt lastError w trace outcome w' trace',
  attempts fuel url fetchFn maxRetries delay remaining attempt lastError w trace
  = (outcome, w', trace') ->
  exists t,
    trace' = (trace ++ t)%list /\ forallb quiet t = true /\
    (remaining <> 0%nat -> exists rest, t = FetchCall url :: rest).
Proof.
  induction remaining as [|remaining IH];
    intros attempt lastError w trace outcome w' trace'; simpl.
  - intros [= <- <- <-]. exists []. by rewrite app_nil_r.
  - destruct (fetchFn url w) as [specText|err|]; simpl.
    + destruct (parseOpenApi fuel (VStr specText)) as [parsed|err|]; simpl.
      * intros [= <- <- <-]. exists [FetchCall url; ParseCall].
        rewrite <- app_assoc. eauto.
      * destruct (attempt <? maxRetries)%Z;
          intros (t & -> & Hq & _)%IH; eexists; rewrite <- !app_assoc;
          (split; [reflexivity |]); simpl; eauto.
      * intros [= <- <- <-]. exists [FetchCall url; ParseCall].
        rewrite <- app_assoc. eauto.
    + destruct (attempt <? maxRetries)%Z;
        intros (t & -> & Hq & _)%IH; eexists; rewrite <- !app_assoc;
        (split; [reflexivity |]); simpl; eauto.
    + intros [= <- <- <-]. exists [FetchCall url]. eauto.
Qed.



Lemma numOr_same r : numOr (Some r) r = r.
Proof. by destruct r. Qed.

(** X14: [reload()] never answers from the cache.  With a current url,
    whatever the cache holds, the entry of that url is dropped and the
    first thing the load does is to request the url, as long as the hook
    allows for an attempt; when the load comes to its end, the request is
    in the trace of [reload].  Without a current url nothing happens. *)
Theorem reload_refetches (st : State) (w : World) :
  (forall u,
     currentUrl st = Some u -> u <> EmptyString ->
     (0 <= d_retries defaults)%Z ->
     exists outcome w' rest,
       loadFromUrl fuel defaults u (reloadConfig defaults u) (forget u w)
       = (outcome, w', FetchCall u :: rest) /\
       (outcome <> OutOfFuel ->
        exists trace,
          reload fuel defaults st w = Some (w', trace) /\
          fetches trace = u :: fetches rest)) /\
  (currentUrl st = None -> reload fuel defaults st w = Some (w, [])).
Proof.
  split; [| intros Hnone; unfold reload; by rewrite Hnone].
  intros u Hu Hne Hretries.
  destruct (loadFromUrl fuel defaults u (reloadConfig defaults u) (forget u w))
    as [[outcome w1] t] eqn:E.
  pose proof E as E'. unfold loadFromUrl in E'. cbn [specCache forget] in E'.
  rewrite lookup_delete_eq in E'. cbn [retries retryDelay fetcher reloadConfig] in E'.
  rewrite numOr_same in E'.
  apply attempts_trace in E' as (t' & Ht & _ & Hfirst). simpl in Ht. subst t'.
  destruct Hfirst as [rest ->]; [lia |].
  exists outcome, w1, rest. split; [done |].
  intros Hfuel. unfold reload. rewrite Hu.
  destruct u as [|c u]; [done |].
  unfold loadSpec. cbn [suppliedUrl url reloadConfig].
  change (loadFromUrl fuel defaults (String c u)
            {| url := Some (String c u); spec := None;
               cacheDuration := Some (d_cacheDuration defaults);
               fetcher := Some (d_fetcher defaults);
               retries := Some (d_retries defaults);
               retryDelay := Some (d_retryDelay defaults) |} (forget (String c u) w))
    with (loadFromUrl fuel defaults (String c u) (reloadConfig defaults (String c u))
            (forget (String c u) w)).
  rewrite E.
  destruct outcome; [| | done]; eexists; (split; [reflexivity |]);
    unfold fetches; simpl; rewrite omap_app; simpl; by rewrite app_nil_r.
Qed.

End WithParsers.

Lemma loadFromUrl_cached_witness :
  exists s w1 trace,
    @loadFromUrl usersParsers 1 (@defaultsOf usersNetwork None) "https://x/api.json"
                 noConfig emptyWorld = (Ok s, w1, trace) /\
    fetches trace = ["https://x/api.json"] /\
    @loadFromUrl usersParsers 1 (@defaultsOf usersNetwork None) "https://x/api.json"
                 noConfig (later 299999 w1) = (Ok s, later 299999 w1, []).
Proof.
  destruct (@loadFromUrl usersParsers 1 (@defaultsOf usersNetwork None)
              "https://x/api.json" noConfig emptyWorld) as [[[s| |] w1] trace] eqn:E;
    [| by vm_compute in E | by vm_compute in E].
  exists s, w1, trace. split; [done |]. split.
  - vm_compute in E. by injection E as _ _ <-.
  - apply (@loadFromUrl_cached usersParsers 1 (@defaultsOf usersNetwork None)
             "https://x/api.json" noConfig emptyWorld w1 s trace 299999);
      [reflexivity | exact E | vm_compute; split; [discriminate | reflexivity]].
Defined.


Lemma loadFromUrl_gives_up_witness :
  exists w' trace,
    @loadFromUrl Fixtures.mockParsers 8 (@defaultsOf Fixtures.rejects None)
                 "https://example.com/api.json" (Fixtures.fromUrl (Some 2%Z) (Some 10%Z))
                 emptyWorld = (Throw (Error "Network error"), w', trace) /\
    fetches trace = ["https://example.com/api.json"; "https://example.com/api.json";
                     "https://example.com/api.json"] /\
    sleeps trace = [10; 20]%Z /\
    specCache w' = ∅ /\
    requests w' = 3%nat.
Proof.
  apply (@loadFromUrl_gives_up Fixtures.mockParsers 8 (@defaultsOf Fixtures.rejects None)
           "https://example.com/api.json" (Fixtures.fromUrl (Some 2%Z) (Some 10%Z))
           emptyWorld (Error "Network error")); [reflexivity | by intros w | done].
Defined.


(** The call of the example ends with the specification. *)
Example loadSpec_settles_both :
  exists w' parsedSpec,
    @loadSpec usersParsers 1 (@defaultsOf usersNetwork None) bothConfig emptyWorld
    = Some (w', [SetLoading true; SetError None; SetCurrentUrl (Some "https://x/api.json");
                 FetchCall "https://x/api.json"; ParseCall;
                 SetSpec (Some parsedSpec); SetLoading false]).
Proof.
  destruct (@loadSpec usersParsers 1 (@defaultsOf usersNetwork None) bothConfig emptyWorld)
    as [[w' trace]|] eqn:E; [| by vm_compute in E].
  vm_compute in E. injection E as <- <-. by do 2 eexists.
Qed.

Lemma reload_refetches_witness :
  is_Some (specCache cachedWorld !! "https://x/api.json") /\
  @loadFromUrl usersParsers 1 (@defaultsOf usersNetwork None) "https://x/api.json"
     noConfig cachedWorld = (Ok olderSpec, cachedWorld, []) /\
  exists outcome w' rest,
    @loadFromUrl usersParsers 1 (@defaultsOf usersNetwork None) "https://x/api.json"
       (@reloadConfig (@defaultsOf usersNetwork None) "https://x/api.json")
       (forget "https://x/api.json" cachedWorld)
    = (outcome, w', FetchCall "https://x/api.json" :: rest) /\
    (outcome <> OutOfFuel ->
     exists trace,
       @reload usersParsers 1 (@defaultsOf usersNetwork None)
         {| st_spec := None; loading := false; error := None;
            currentUrl := Some "https://x/api.json" |} cachedWorld = Some (w', trace) /\
       fetches trace = "https://x/api.json" :: fetches rest).
Proof.
  split; [by eexists |]. split; [by vm_compute |].
  apply (proj1 (@reload_refetches usersParsers 1 (@defaultsOf usersNetwork None)
                  {| st_spec := None; loading := false; error := None;
                     currentUrl := Some "https://x/api.json" |} cachedWorld)
           "https://x/api.json" eq_refl); [discriminate | discriminate].
Defined.

(** In that example the load comes to its end: the url is requested once
    and the specification in the cache is the one that was fetched. *)
Example reload_replaces_the_entry :
  exists w' trace entry,
    @reload usersParsers 1 (@defaultsOf usersNetwork None)
      {| st_spec := None; loading := false; error := None;
         currentUrl := Some "https://x/api.json" |} cachedWorld = Some (w', trace) /\
    fetches trace = ["https://x/api.json"] /\
    specCache w' !! "https://x/api.json" = Some entry /\
    cached entry <> olderSpec.
Proof.
  destruct (@reload usersParsers 1 (@defaultsOf usersNetwork None)
              {| st_spec := None; loading := false; error := None;
                 currentUrl := Some "https://x/api.json" |} cachedWorld)
    as [[w' trace]|] eqn:E; [| by vm_compute in E].
  vm_compute in E. injection E as <- <-.
  do 3 eexists. split; [reflexivity |]. split; [reflexivity |].
  split; [by vm_compute | discriminate].
Qed.

End LoaderFacts.

(** ** The score of a result *)

Module RankingProofs.
Import JS Types Search StringFacts SearchExamples SearchProofs Ranking.

Section WithOptions.
Variable options : SearchOptions.

Lemma fuzzyMatch_values query text :
  fuzzyMatch options query text = 0 \/
  fuzzyMatch options query text = 1 \/
  (fuzzySearch options = true /\ fuzzyMatch options query text = Q2Qc (7 # 10)).
Proof.
  unfold fuzzyMatch.
  destruct (includes _ _) eqn:Hsub; [by right; left |].
  destruct (fuzzySearch options); simpl; [| by left].
  pose proof (fuzzyScan_same (normalizeText options text) (normalizeText options query))
    as Hsame.
  destruct (fuzzyScan _ _ 0 0) as [queryIndex matches]. simpl in Hsame. subst matches.
  destruct (queryIndex =? _)%nat eqn:E; [| by left].
  apply Nat.eqb_eq in E. rewrite E. right; right. split; [done |].
  apply full_match_score. intros Hlen.
  destruct (normalizeText options query); [| done]. by rewrite includes_empty in Hsub.
Qed.

Lemma num_S n : num (S n) = num n + 1.
Proof.
  unfold num. apply Qc_is_canon. simpl.
  rewrite !Qred_correct. unfold Qeq. simpl. lia.
Qed.

Lemma record_sound f points highlight a :
  sound options a -> (least options <= points)%Qc -> sound options (record f points highlight a).
Proof.
  unfold sound, record. simpl. intros Ha Hp.
  rewrite length_app. simpl. rewrite Nat.add_1_r, num_S.
  rewrite Qcmult_plus_distr_r, Qcmult_1_r. by apply Qcplus_le_compat.
Qed.

Lemma least_weight s w :
  positive s = true ->
  s = 0 \/ s = 1 \/ (fuzzySearch options = true /\ s = Q2Qc (7 # 10)) ->
  (Q2Qc (11 # 10) <= w)%Qc ->
  (least options <= s * w)%Qc.
Proof.
  intros Hpos [-> | [-> | [Hf ->]]] Hw; [done | |].
  - rewrite Qcmult_1_l. eapply Qcle_trans; [| exact Hw].
    unfold least. by destruct (fuzzySearch options).
  - unfold least. rewrite Hf.
    change (Q2Qc (77 # 100)) with (Q2Qc (7 # 10) * Q2Qc (11 # 10)).
    rewrite !(Qcmult_comm (Q2Qc (7 # 10))). by apply Qcmult_le_compat_r.
Qed.

Ltac weigh := apply least_weight; [done | apply fuzzyMatch_values | done].

Lemma searchText_sound f w query text a :
  (Q2Qc (11 # 10) <= w)%Qc -> sound options a -> sound options (searchText options f w query text a).
Proof.
  intros Hw Ha. unfold searchText.
  destruct (if searches options f then nonEmpty text else None) as [t|]; [| done].
  destruct (positive _) eqn:Hpos; [| done].
  apply record_sound; [done |]. weigh.
Qed.

Lemma searchTags_sound query all tags a :
  sound options a -> sound options (searchTags options query all tags a).
Proof.
  intros Ha. induction tags as [|tag tags IH]; simpl; [done |].
  destruct (positive _) eqn:Hpos; [| done].
  apply record_sound; [done |]. weigh.
Qed.

Lemma searchResponses_sound query rs a :
  sound options a -> sound options (searchResponses options query rs a).
Proof.
  intros Ha. induction rs as [|r rs IH]; simpl; [done |].
  destruct (positive _) eqn:Hpos; [| done].
  apply record_sound; [done |].
  destruct (response_description r); [done | weigh].
Qed.

Lemma least_sum n d :
  positive n || positive d = true ->
  n = 0 \/ n = 1 \/ (fuzzySearch options = true /\ n = Q2Qc (7 # 10)) ->
  d = 0 \/ d = 1 \/ (fuzzySearch options = true /\ d = Q2Qc (7 # 10)) ->
  (least options <= (n + d) * Q2Qc (12 # 10))%Qc.
Proof.
  unfold least.
  intros Hpos [-> | [-> | [Hn ->]]] [-> | [-> | [Hd ->]]];
    try rewrite Hn; try rewrite Hd; try done; by destruct (fuzzySearch options).
Qed.

Lemma searchParameters_sound query ps a :
  sound options a -> sound options (searchParameters options query ps a).
Proof.
  intros Ha. induction ps as [|p ps IH]; simpl; [done |].
  destruct (positive _ || positive _) eqn:Hpos; [| done].
  apply record_sound; [done |].
  apply least_sum; [done | apply fuzzyMatch_values |].
  destruct (param_description p) as [[|]|]; [by left | apply fuzzyMatch_values | by left].
Qed.

Lemma least_quotient total n :
  n <> 0%nat -> (least options * num n <= total)%Qc ->
  (least options <= total / num n)%Qc.
Proof.
  intros Hn Hle. pose proof (num_nonzero n Hn) as Hnum.
  rewrite <- (Qcdiv_mult_l (least options) (num n)) by done.
  unfold Qcdiv. apply Qcmult_le_compat_r; [done |].
  assert (0 < num n)%Qc as Hpos.
  { unfold num. unfold Qclt, Qlt. simpl. rewrite Qred_correct. simpl. lia. }
  apply Qclt_le_weak.
  destruct (Qclt_le_dec 0 (/ num n)) as [? | Hneg]; [done |].
  exfalso. apply (Qcmult_le_compat_r _ _ (num n)) in Hneg; [| by apply Qclt_le_weak].
  rewrite Qcmult_inv_l, Qcmult_0_l in Hneg by done. done.
Qed.

Lemma searchInEndpoint_bounds e q r :
  searchInEndpoint options e q = Some r ->
  ((least options <= score r)%Qc \/ score r = 1) /\ (score r <= 1)%Qc.
Proof.
  unfold searchInEndpoint. destruct (_ || _); [done |].
  match goal with
  | |- match acc_matchedFields ?a with _ => _ end = _ -> _ =>
      assert (sound options a) as Ha; [| destruct (acc_matchedFields a) as [|f fs] eqn:Hf; [done |]]
  end.
  { cbv zeta.
    repeat match goal with
           | |- sound _ (searchText _ _ _ _ _ _) => apply searchText_sound; [done |]
           | |- sound _ (if positive ?s then _ else _) =>
               destruct (positive s) eqn:?; [apply record_sound; [| weigh] |]
           | |- sound _ (if ?c then _ else _) => destruct c
           | |- sound _ (match ?x with Some _ => _ | None => _ end) => destruct x
           | |- sound _ (searchTags _ _ _ _ _) => apply searchTags_sound
           | |- sound _ (searchParameters _ _ _ _) => apply searchParameters_sound
           | |- sound _ (searchResponses _ _ _ _) => apply searchResponses_sound
           end;
      unfold sound; simpl; by rewrite Qcmult_0_r. }
  intros [= <-]. simpl. unfold sound in Ha. rewrite Hf in Ha.
  unfold min. case_bool_decide; [| by split; [right |]].
  split; [left | done]. by apply least_quotient.
Qed.

End WithOptions.

(** X15: the score of a search result lies between 0.77 and 1: a matching
    field adds at least 0.7 of its weight, the least weight is 1.1, and the
    mean over the matching fields is capped at 1. *)
Theorem searchInEndpoint_score (options : SearchOptions) (e : NormalizedEndpoint)
    (q : string) (r : SearchResult) :
  searchInEndpoint options e q = Some r ->
  (Q2Qc (77 # 100) <= score r)%Qc /\ (score r <= 1)%Qc.
Proof.
  intros [[Hlo | ->] Hhi]%searchInEndpoint_bounds; [| done].
  split; [| done]. eapply Qcle_trans; [| exact Hlo].
  unfold least. by destruct (fuzzySearch options).
Qed.

Lemma searchInEndpoint_score_witness :
  exists r,
    searchInEndpoint fuzzyOptions addPet "usr" = Some r /\
    (Q2Qc (77 # 100) <= score r)%Qc /\ (score r <= 1)%Qc.
Proof.
  destruct (searchInEndpoint fuzzyOptions addPet "usr") as [r|] eqn:E;
    [| by vm_compute in E].
  exists r. split; [done |].
  exact (searchInEndpoint_score fuzzyOptions addPet "usr" r E).
Defined.

Lemma sort_same_score (l : list SearchResult) :
  Forall (fun r => score r = 1) l -> sort byScore l = l.
Proof.
  induction 1 as [|r l Hr Hl IH]; simpl; [done |]. rewrite IH.
  destruct Hl as [|r' l Hr' _]; simpl; [done |].
  unfold byScore. rewrite Hr, Hr'. by rewrite bool_decide_eq_false_2.
Qed.

Lemma omap_search_scores options q (l : list NormalizedEndpoint) :
  fuzzySearch options = false ->
  Forall (fun r => score r = 1) (omap (fun e => searchInEndpoint options e q) l).
Proof.
  intros Hf. induction l as [|e l IH]; simpl; [constructor |].
  destruct (searchInEndpoint options e q) as [r|] eqn:E; [| done].
  constructor; [| done].
  apply searchInEndpoint_bounds in E as [[Hlo | ->] Hhi]; [| done].
  unfold least in Hlo. rewrite Hf in Hlo.
  apply Qcle_antisym; [done |]. eapply Qcle_trans; [| exact Hlo]. done.
Qed.

(** X16: with fuzzy search off, as it is unless asked for, every result of
    a text search has the score 1, so that ranking changes nothing: the
    results are the matching endpoints in the order of the endpoints. *)
Theorem filteredResults_keeps_order (options : SearchOptions)
    (endpoints : list NormalizedEndpoint) (filters : SearchFilters) (q : string) :
  fuzzySearch options = false ->
  nonEmpty (query filters) = Some q ->
  (minQueryLength options <= Z.of_nat (String.length q))%Z ->
  filteredResults options endpoints filters
  = omap (fun e => searchInEndpoint options e q) (applyFilters endpoints filters) /\
  Forall (fun r => score r = 1) (filteredResults options endpoints filters).
Proof.
  intros Hf Hq Hlen. unfold filteredResults.
  rewrite Hq. apply Z.leb_le in Hlen. rewrite Hlen.
  pose proof (omap_search_scores options q (applyFilters endpoints filters) Hf) as Hall.
  by rewrite sort_same_score.
Qed.

Lemma filteredResults_keeps_order_witness :
  (fun r => (id (endpoint r), score r)) <$>
    filteredResults defaultOptions [addPet; listUsers; addToy] (queryFor "add")
  = [("addPet", 1); ("addToy", 1)].
Proof.
  rewrite (proj1 (filteredResults_keeps_order defaultOptions [addPet; listUsers; addToy]
                    (queryFor "add") "add" eq_refl eq_refl ltac:(discriminate))).
  vm_compute. reflexivity.
Defined.

End RankingProofs.

(** ** The matched fields of a result *)

Module FieldProofs.
Import JS Types Search StringFacts SearchExamples SearchProofs Fields.
#[local] Open Scope list_scope.

Section WithOptions.
Variable options : SearchOptions.

Lemma fieldName_inj f g : fieldName f = fieldName g -> f = g.
Proof. by destruct f, g. Qed.

Lemma setHighlight_new k v h :
  ~ In k (List.map fst h) -> setHighlight k v h = (h ++ [(k, v)])%list.
Proof.
  induction h as [|[k' v'] h IH]; simpl; [done |]. intros Hk.
  destruct (String.eqb_spec k k') as [-> | _]; [by destruct Hk; left |].
  rewrite IH; [done |]. intros Hin. apply Hk. by right.
Qed.

Lemma filter_snoc {A} (p : A -> bool) (l : list A) (x : A) :
  List.filter p (l ++ [x]) = (List.filter p l ++ (if p x then [x] else []))%list.
Proof. by rewrite List.filter_app. Qed.

Lemma advance_matched seen f a a' :
  ~ In f seen -> matched options seen a -> advance options f a a' ->
  matched options (seen ++ [f])%list a'.
Proof.
  intros Hnew (fields & Hsub & Hm & Hh) [-> | (Hf & points & highlight & ->)].
  - exists fields. split; [| done].
    rewrite filter_snoc. etrans; [exact Hsub |]. by apply sublist_inserts_r.
  - exists (fields ++ [f]). rewrite filter_snoc, Hf. split; [| split].
    + by apply sublist_app.
    + simpl. by rewrite Hm, List.map_app.
    + simpl. rewrite setHighlight_new.
      * by rewrite !List.map_app, Hh.
      * rewrite Hh. intros (g & Hg & Hin)%List.in_map_iff.
        apply fieldName_inj in Hg as ->. apply Hnew.
        assert (f ∈ List.filter (searches options) seen) as Hin'
          by (eapply elem_of_sublist; [by apply list_elem_of_In | exact Hsub]).
        apply list_elem_of_In, List.filter_In in Hin'. tauto.
Qed.

Lemma searchText_advance f w query text a :
  advance options f a (searchText options f w query text a).
Proof.
  unfold searchText. destruct (searches options f) eqn:Hf; [| by left].
  destruct (nonEmpty text) as [t|]; [| by left].
  destruct (positive _); [| by left]. right. eauto.
Qed.

Lemma searchTags_advance query all tags a :
  searches options FTags = true ->
  advance options FTags a (searchTags options query all tags a).
Proof.
  intros Hf. induction tags as [|tag rest IH]; simpl; [by left |].
  destruct (positive _); [| done]. right. eauto.
Qed.

Lemma searchParameters_advance query ps a :
  searches options FParameters = true ->
  advance options FParameters a (searchParameters options query ps a).
Proof.
  intros Hf. induction ps as [|param rest IH]; simpl; [by left |].
  destruct (_ || _); [| done]. right. eauto.
Qed.

Lemma searchResponses_advance query rs a :
  searches options FResponses = true ->
  advance options FResponses a (searchResponses options query rs a).
Proof.
  intros Hf. induction rs as [|response rest IH]; simpl; [by left |].
  destruct (positive _); [| done]. right. eauto.
Qed.

(** X27: a result of [searchInEndpoint] names at least one field and
    names a field once at most; the fields it names are among the ones the
    options ask to search, in the order summary, description, operationId,
    path, tags, parameters, responses; and the highlights have one entry for
    each named field, in that order. *)
Theorem searchInEndpoint_fields (e : NormalizedEndpoint) (q : string) (r : SearchResult) :
  searchInEndpoint options e q = Some r ->
  exists fields,
    fields <> [] /\
    fields `sublist_of` List.filter (searches options) fieldOrder /\
    matchedFields r = List.map fieldName fields /\
    List.map fst (highlights r) = List.map fieldName fields.
Proof.
  unfold searchInEndpoint. destruct (_ || _); [done |].
  set (a0 := {| acc_matchedFields := []; acc_totalScore := 0; acc_highlights := [] |}).
  set (a1 := searchText options FSummary _ q (summary e) a0).
  set (a2 := searchText options FDescription _ q (description e) a1).
  set (a3 := searchText options FOperationId _ q (operationId e) a2).
  set (a4 := if searches options FPath then _ else a3).
  set (a5 := match (if searches options FTags then tags e else None) with
             | Some ts => _ | None => a4 end).
  set (a6 := if searches options FParameters then _ else a5).
  set (a7 := if searches options FResponses then _ else a6).
  assert (matched options [] a0) as H0 by (exists []; by repeat split).
  assert (matched options [FSummary] a1) as H1.
  { apply (advance_matched [] FSummary a0); [simpl; intuition discriminate | done | apply searchText_advance]. }
  assert (matched options [FSummary; FDescription] a2) as H2.
  { apply (advance_matched [FSummary] FDescription a1);
      [simpl; intuition discriminate | done | apply searchText_advance]. }
  assert (matched options [FSummary; FDescription; FOperationId] a3) as H3.
  { apply (advance_matched [FSummary; FDescription] FOperationId a2);
      [simpl; intuition discriminate | done | apply searchText_advance]. }
  assert (matched options [FSummary; FDescription; FOperationId; FPath] a4) as H4.
  { apply (advance_matched [FSummary; FDescription; FOperationId] FPath a3);
      [simpl; intuition discriminate | done |].
    subst a4. destruct (searches options FPath) eqn:Hf; [| by left].
    destruct (positive _); [| by left]. right. eauto. }
  assert (matched options [FSummary; FDescription; FOperationId; FPath; FTags] a5) as H5.
  { apply (advance_matched [FSummary; FDescription; FOperationId; FPath] FTags a4);
      [simpl; intuition discriminate | done |].
    subst a5. destruct (searches options FTags) eqn:Hf; [| by left].
    destruct (tags e); [| by left]. by apply searchTags_advance. }
  assert (matched options
            [FSummary; FDescription; FOperationId; FPath; FTags; FParameters] a6) as H6.
  { apply (advance_matched [FSummary; FDescription; FOperationId; FPath; FTags]
             FParameters a5);
      [simpl; intuition discriminate | done |].
    subst a6. destruct (searches options FParameters) eqn:Hf; [| by left].
    by apply searchParameters_advance. }
  assert (matched options fieldOrder a7) as (fields & Hsub & Hm & Hh).
  { apply (advance_matched
             [FSummary; FDescription; FOperationId; FPath; FTags; FParameters]
             FResponses a6);
      [simpl; intuition discriminate | done |].
    subst a7. destruct (searches options FResponses) eqn:Hf; [| by left].
    by apply searchResponses_advance. }
  clearbody a7. clear - Hsub Hm Hh.
  destruct (acc_matchedFields a7) as [|x l] eqn:Hfields; [done |].
  intros [= <-]. exists fields. simpl. repeat split; try done.
  intros ->. done.
Qed.

End WithOptions.

Lemma searchInEndpoint_fields_witness :
  exists r,
    searchInEndpoint defaultOptions SearchExamples.addPet "pet" = Some r /\
    exists fields,
      fields <> [] /\
      fields `sublist_of` List.filter (searches defaultOptions) fieldOrder /\
      matchedFields r = List.map fieldName fields /\
      List.map fst (highlights r) = List.map fieldName fields.
Proof.
  destruct (searchInEndpoint defaultOptions SearchExamples.addPet "pet") as [r|] eqn:E;
    [| by vm_compute in E].
  exists r. split; [done |].
  exact (searchInEndpoint_fields defaultOptions SearchExamples.addPet "pet" r E).
Defined.

End FieldProofs.

(** ** Filters and filter options *)

Module SearchStateProofs.
Import JS Types Search StringFacts SearchExamples SearchState ListFacts.

(** X17: when [isSearching] is false and no boolean filter holds [null],
    no filter is in force: the results are all the endpoints in their
    order, each with the score 1 and no matched field. *)
Theorem not_searching_lists_all (options : SearchOptions)
    (endpoints : list NormalizedEndpoint) (filters : SearchFilters) :
  isSearching filters = false -> noNull filters = true ->
  filteredResults options endpoints filters = unranked <$> endpoints.
Proof.
  unfold isSearching, noNull. intros H Hnull.
  repeat (apply orb_false_elim in H as [H ?]).
  repeat match goal with
         | H : bool_decide (is_Some ?x) = false |- _ =>
             apply bool_decide_eq_false in H;
             assert (x = None) by (destruct x; [exfalso; eauto | done]);
             clear H
         end.
  unfold filteredResults, applyFilters.
  destruct (filter_deprecated filters), (hasParameters filters), (hasRequestBody filters);
    try done.
  by repeat match goal with H : _ = None |- _ => rewrite H; clear H end.
Qed.

Lemma not_searching_lists_all_witness :
  filteredResults defaultOptions [addPet; listUsers] (clearSearch (queryFor "add"))
  = [unranked addPet; unranked listUsers].
Proof.
  apply (not_searching_lists_all defaultOptions [addPet; listUsers]
           (clearSearch (queryFor "add"))); reflexivity.
Defined.

(** A filter that holds [null] is in force although [isSearching] is
    false: [deprecated: null] leaves no endpoint. *)
Example not_searching_null_filter :
  let filters := updateFilter clearFilters (Deprecated Null) in
  isSearching filters = false /\
  filteredResults defaultOptions [addPet; listUsers] filters = [].
Proof. split; reflexivity. Qed.

(** X18: the filters act as one: an endpoint is among the filtered
    endpoints when it passes every filter that is set, whatever the other
    endpoints are; a filter given as an empty list is not set. *)
Theorem applyFilters_passes (endpoints : list NormalizedEndpoint)
    (filters : SearchFilters) :
  applyFilters endpoints filters = List.filter (passes filters) endpoints.
Proof.
  unfold applyFilters, passes.
  destruct (nonEmptyList (methods filters)),
           (nonEmptyList (filter_tags filters)),
           (filter_deprecated filters),
           (hasParameters filters) as [| |[]],
           (hasRequestBody filters) as [| |[]],
           (nonEmptyList (responseStatusCodes filters));
    first [ by (cbn [andb]; rewrite filter_true)
          | rewrite ?filter_filter; apply filter_ext; intros e;
            cbn [andb]; rewrite ?andb_true_r, ?andb_assoc; reflexivity
          | rewrite ?filter_filter; apply filter_ext; intros e;
            cbn [andb]; rewrite ?andb_true_r, ?andb_assoc;
            repeat (rewrite andb_false_r; cbn [andb]); reflexivity ].
Qed.


(** *** The filter options *)

Section Sorting.
Context {A : Type} (toString : A -> string).

Lemma sortCompare_positive x y :
  (0 < sortCompare toString x y)%Qc <-> String.ltb (toString y) (toString x) = true.
Proof.
  unfold sortCompare, String.ltb.
  rewrite (String.compare_antisym (toString y) (toString x)).
  destruct (String.compare (toString x) (toString y)); simpl; split; done.
Qed.

Lemma insertSorted_perm x (l : list A) :
  Permutation (insertSorted (sortCompare toString) x l) (x :: l).
Proof.
  induction l as [|y l IH]; simpl; [done |].
  case_bool_decide; [| done]. rewrite IH. apply perm_swap.
Qed.

Lemma sort_perm (l : list A) : Permutation (sort (sortCompare toString) l) l.
Proof.
  induction l as [|x l IH]; simpl; [done |].
  rewrite insertSorted_perm. by constructor.
Qed.

Lemma insertSorted_head x (l : list A) y :
  String.leb (toString y) (toString x) = true ->
  HdRel (fun x y => String.leb (toString x) (toString y) = true) y l ->
  HdRel (fun x y => String.leb (toString x) (toString y) = true) y
        (insertSorted (sortCompare toString) x l).
Proof.
  intros Hyx Hl. destruct l as [|z l]; simpl; [by constructor |].
  case_bool_decide; constructor; [| done]. by inversion Hl.
Qed.

Lemma insertSorted_ascending x (l : list A) :
  Sorted (fun x y => String.leb (toString x) (toString y) = true) l ->
  Sorted (fun x y => String.leb (toString x) (toString y) = true)
         (insertSorted (sortCompare toString) x l).
Proof.
  induction 1 as [|y l Hl IH Hy]; simpl; [by repeat constructor |].
  case_bool_decide as Hc.
  - apply sortCompare_positive in Hc. constructor; [done |].
    apply insertSorted_head; [| done].
    unfold String.ltb, String.leb in *. by destruct (String.compare _ _).
  - rewrite sortCompare_positive in Hc.
    constructor; [by constructor |]. constructor.
    unfold String.ltb, String.leb in *.
    rewrite (String.compare_antisym (toString y) (toString x)) in Hc.
    by destruct (String.compare (toString x) (toString y)).
Qed.

Lemma sort_ascending (l : list A) :
  Sorted (fun x y => String.leb (toString x) (toString y) = true)
         (sort (sortCompare toString) l).
Proof.
  induction l as [|x l IH]; simpl; [constructor | by apply insertSorted_ascending].
Qed.

Lemma sort_listing (members : A -> Prop) (l : list A) :
  NoDup l -> (forall x, In x l <-> members x) ->
  Listing toString members (sort (sortCompare toString) l).
Proof.
  intros Hnd Hin. split; [| split; [apply sort_ascending |]].
  - eapply Permutation_NoDup; [symmetry; apply sort_perm | done].
  - intros x. rewrite <- Hin. split; apply Permutation_in;
      [apply sort_perm | symmetry; apply sort_perm].
Qed.

End Sorting.

Section Sets.
Context {A : Type} `{EqDecision A}.

Lemma add_In (x y : A) set : In y (add x set) <-> y = x \/ In y set.
Proof.
  unfold add, includesB. case_bool_decide as Hx.
  - apply list_elem_of_In in Hx. split; [auto |]. by intros [-> | ?].
  - rewrite in_app_iff. simpl. split; [intros [? | [<- | []]]; auto |].
    intros [-> | ?]; auto.
Qed.

Lemma add_NoDup (x : A) set : NoDup set -> NoDup (add x set).
Proof.
  unfold add, includesB. intros Hnd. case_bool_decide as Hx; [done |].
  apply NoDup_app; [done | repeat constructor; by intros [] |].
  intros y Hy [<- | []]. by apply Hx, list_elem_of_In.
Qed.

Lemma adds_In {B} (f : B -> A) (l : list B) : forall set y,
  In y (fold_left (fun set b => add (f b) set) l set) <->
  (exists b, In b l /\ f b = y) \/ In y set.
Proof.
  induction l as [|b l IH]; intros set y; simpl.
  - split; [auto | by intros [(? & [] & _) | ?]].
  - rewrite IH, add_In. split.
    + intros [(b' & Hb' & <-) | [-> | Hy]]; eauto.
    + intros [(b' & [<- | Hb'] & <-) | Hy]; eauto.
Qed.

Lemma adds_NoDup {B} (f : B -> A) (l : list B) : forall set,
  NoDup set -> NoDup (fold_left (fun set b => add (f b) set) l set).
Proof.
  induction l as [|b l IH]; intros set Hnd; simpl; [done |].
  by apply IH, add_NoDup.
Qed.

End Sets.


Lemma collect_sets (es : list NormalizedEndpoint) :
  forall (ms : list HttpMethod) (ts cs : list string),
  NoDup ms -> NoDup ts -> NoDup cs ->
  let '(ms', ts', cs') :=
    fold_left
      (fun '(methods, tags, statusCodes) e =>
         (add (method e) methods,
          fold_left (fun tags tag => add tag tags) (default [] (Types.tags e)) tags,
          fold_left (fun statusCodes response => add (response_statusCode response) statusCodes)
                    (responses e) statusCodes))
      es (ms, ts, cs) in
  (NoDup ms' /\ forall m, In m ms' <-> (exists e, In e es /\ method e = m) \/ In m ms) /\
  (NoDup ts' /\
   forall t, In t ts' <->
             (exists e, In e es /\ In t (default [] (Types.tags e))) \/ In t ts) /\
  (NoDup cs' /\
   forall c, In c cs' <->
             (exists e r, In e es /\ In r (responses e) /\ response_statusCode r = c)
             \/ In c cs).
Proof.
  induction es as [|e es IH]; intros ms ts cs Hms Hts Hcs.
  - simpl. repeat split; try done; auto; intros [H | H]; try done.
    all: first [by destruct H as (? & [] & _) | by destruct H as (? & ? & [] & _)].
  - simpl.
    specialize (IH (add (method e) ms)
                   (fold_left (fun tags tag => add tag tags) (default [] (Types.tags e)) ts)
                   (fold_left (fun statusCodes response =>
                                 add (response_statusCode response) statusCodes)
                              (responses e) cs)
                   (add_NoDup _ _ Hms)
                   (adds_NoDup (fun t => t) _ _ Hts)
                   (adds_NoDup response_statusCode _ _ Hcs)).
    destruct (fold_left _ es _) as [[ms' ts'] cs'].
    destruct IH as ((Hnm & Hm) & (Hnt & Ht) & (Hnc & Hc)).
    split; [split; [done |] | split; [split; [done |] | split; [done |]]].
    + intros m. rewrite Hm, add_In. simpl. split.
      * intros [(e0 & He0 & <-) | [-> | Hin]];
          [left; exists e0; auto | left; exists e; auto | by right].
      * intros [(e0 & [<- | He0] & <-) | Hin];
          [right; by left | left; eauto | right; by right].
    + intros t. rewrite Ht, (adds_In (fun t => t)). simpl. split.
      * intros [(e0 & He0 & Ht0) | [(b & Hb & <-) | Hin]];
          [left; exists e0; auto | left; exists e; auto | by right].
      * intros [(e0 & [<- | He0] & Ht0) | Hin];
          [right; left; eauto | left; eauto | right; by right].
    + intros c. rewrite Hc, (adds_In response_statusCode). simpl. split.
      * intros [(e0 & r & He0 & Hr & <-) | [(b & Hb & <-) | Hin]];
          [left; exists e0, r; auto | left; exists e, b; auto | by right].
      * intros [(e0 & r & [<- | He0] & Hr & <-) | Hin];
          [right; left; eauto | left; eauto 6 | right; by right].
Qed.

(** X19: the filter options list every method, every tag and every status
    code that occurs in the endpoints, each of them once, in ascending order
    of their strings. *)
Theorem getFilterOptions_lists (endpoints : list NormalizedEndpoint) :
  let options := getFilterOptions endpoints in
  Listing methodName (fun m => exists e, In e endpoints /\ method e = m)
          (option_methods options) /\
  Listing (fun s => s)
          (fun t => exists e ts, In e endpoints /\ Types.tags e = Some ts /\ In t ts)
          (option_tags options) /\
  Listing (fun s => s)
          (fun c => exists e r, In e endpoints /\ In r (responses e)
                                /\ response_statusCode r = c)
          (option_statusCodes options).
Proof.
  unfold getFilterOptions.
  pose proof (collect_sets endpoints [] [] [] (NoDup_nil _) (NoDup_nil _) (NoDup_nil _))
    as H.
  destruct (fold_left _ endpoints _) as [[ms ts] cs].
  destruct H as ((Hnm & Hm) & (Hnt & Ht) & (Hnc & Hc)). simpl.
  split; [| split]; (apply sort_listing; [done |]).
  - intros m. rewrite Hm. split; [by intros [? | []] | auto].
  - intros t. rewrite Ht. split.
    + intros [(e & He & Hin) | []]. destruct (Types.tags e) as [l|] eqn:E; [| done].
      eauto.
    + intros (e & l & He & El & Hin). left. exists e. by rewrite El.
  - intros c. rewrite Hc. split; [by intros [? | []] | auto].
Qed.

End SearchStateProofs.

(** ** Snippets in the other languages *)

Module GeneratorProofs.
Import JS Types Platform Snippet Generators StringFacts UrlExamples GeneratorExamples.
#[local] Arguments append !s1 s2 / : simpl nomatch.

Section WithHost.
Context `{Host} `{Printer}.
Variable servers : option (list Server).

Lemma buildUrl_withAuth e options a :
  buildUrl servers e (withAuth options a) = buildUrl servers e options.
Proof. done. Qed.

(** X20: the authentication of the options leaves no trace in a snippet
    unless [includeAuth] is true, in any language; and an API key that goes
    into the query is written by the cURL generator only. *)
Theorem generateForEndpoint_ignores_auth (e : NormalizedEndpoint)
    (options : CodeSnippetOptions) :
  isTrue (includeAuth options) = false \/
  (language options <> Curl /\ generateAuthHeaders (auth options) = Ok []) ->
  generateForEndpoint servers e options
  = generateForEndpoint servers e (withAuth options None).
Proof.
  intros Hauth. unfold generateForEndpoint. cbn [language withAuth].
  destruct (List.find _ availableLanguages) as [lang|]; [| done]. f_equal.
  assert (allHeaders options = allHeaders (withAuth options None)) as Hheaders.
  { unfold allHeaders, authHeaders. cbn [includeAuth auth parameters withAuth].
    destruct Hauth as [-> | [_ ->]]; [done |].
    by destruct (isTrue (includeAuth options)). }
  destruct (language options) eqn:Hl; unfold generator;
    unfold generateJavaScript, generatePython, generateNode, generatePhp, generateJava,
           generateGo;
    rewrite ?buildUrl_withAuth, <- ?Hheaders; try reflexivity.
  unfold generateCurl, authHeaders. rewrite buildUrl_withAuth.
  cbn [includeAuth auth parameters withAuth].
  destruct Hauth as [-> | [Hne _]]; [done | done].
Qed.

Lemma buildUrl_withBody e options b :
  buildUrl servers e (withBody options b) = buildUrl servers e options.
Proof.
  unfold buildUrl. cbn [serverUrl parameters withBody]. simpl.
  by destruct (parameters options).
Qed.

Lemma allHeaders_withBody options b :
  allHeaders (withBody options b) = allHeaders options.
Proof.
  unfold allHeaders, authHeaders. cbn [includeAuth auth parameters withBody]. simpl.
  by destruct (parameters options).
Qed.

Lemma hasBody_other e options b :
  method e <> Post -> method e <> Put -> method e <> Patch ->
  hasBody ["POST"; "PUT"; "PATCH"] (toUpperCase (methodName (method e)))
          (withBody options b) = false /\
  hasBody ["post"; "put"; "patch"] (toLowerCase (methodName (method e)))
          (withBody options b) = false.
Proof.
  intros Hpost Hput Hpatch. unfold hasBody.
  split; apply andb_false_intro2; by destruct (method e).
Qed.

(** X21: for an operation that is not a POST, PUT or PATCH, the body of
    the options leaves no trace in a snippet, in any language but Go. *)
Theorem generateForEndpoint_ignores_body (e : NormalizedEndpoint)
    (options : CodeSnippetOptions) (b : Value) :
  method e <> Post -> method e <> Put -> method e <> Patch ->
  language options <> Go ->
  generateForEndpoint servers e (withBody options b)
  = generateForEndpoint servers e (withBody options VUndef).
Proof.
  intros Hpost Hput Hpatch Hgo. unfold generateForEndpoint. cbn [language withBody].
  destruct (List.find _ availableLanguages) as [lang|]; [| done]. f_equal.
  destruct (hasBody_other e options b Hpost Hput Hpatch) as [Hupper Hlower].
  destruct (hasBody_other e options VUndef Hpost Hput Hpatch) as [Hupper' Hlower'].
  destruct (language options) eqn:Hl; [| | | | | | | done]; unfold generator;
    unfold generateJavaScript, generatePython, generateNode, generatePhp, generateJava;
    rewrite ?buildUrl_withBody, ?allHeaders_withBody, ?Hupper, ?Hlower, ?Hupper', ?Hlower';
    try reflexivity.
  unfold generateCurl. rewrite !buildUrl_withBody.
  unfold hasBody, bodyOf in Hupper, Hupper'.
  cbn [includeAuth auth parameters withBody body fmap option_fmap option_map default] in *.
  rewrite Hupper, Hupper'.
  by destruct (parameters options).
Qed.

Lemma includes_here u s : includes u (u +:+ s) = true.
Proof. apply (includes_append u EmptyString s). Qed.

Lemma addHeaders_includes u line hs : forall code,
  includes u code = true -> includes u (addHeaders line hs code) = true.
Proof.
  unfold addHeaders. induction hs as [|h hs IH]; intros code Hc; simpl; [done |].
  by apply IH, includes_before.
Qed.

(** Look for [u] in a text put together from pieces. *)
Ltac find_in :=
  lazymatch goal with
  | |- includes ?u (?u +:+ _) = true => apply includes_here
  | |- includes _ (if ?c then _ else _) = true => destruct c; find_in
  | |- includes _ (addHeaders _ _ _) = true => apply addHeaders_includes; find_in
  | |- includes _ (_ +:+ _) = true =>
      first [ apply includes_after; find_in | apply includes_before; find_in ]
  end.

Lemma find_language l :
  exists lang,
    List.find (fun lang => String.eqb (language_id lang) (languageId l)) availableLanguages
    = Some lang /\ language_id lang = languageId l.
Proof. destruct l; eexists; split; reflexivity. Qed.

Lemma allHeaders_authHeaders options :
  allHeaders options
  = authHeaders options ≫= fun a =>
      mret (spread a (default [] (parameters options ≫= headers))).
Proof. reflexivity. Qed.

(** X22: a snippet is generated exactly when the URL of the request can be
    built and the headers of the authentication can be made, in every
    language: what [new URL] throws is thrown on, then what [btoa] throws,
    and otherwise the code holds the URL and is described by the name of
    the language, the method in upper case and the path. *)
Theorem generateForEndpoint_outcome (e : NormalizedEndpoint)
    (options : CodeSnippetOptions) :
  match buildUrl servers e options with
  | Ok url =>
      match authHeaders options with
      | Ok _ =>
          exists result,
            generateForEndpoint servers e options = Ok result /\
            includes url (code result) = true /\
            language_id (snippet_language result) = languageId (language options) /\
            snippet_description result
            = language_name (snippet_language result) +:+ " code for "
              +:+ toUpperCase (methodName (method e)) +:+ " " +:+ path e
      | Throw err => generateForEndpoint servers e options = Throw err
      | OutOfFuel => generateForEndpoint servers e options = OutOfFuel
      end
  | Throw err => generateForEndpoint servers e options = Throw err
  | OutOfFuel => generateForEndpoint servers e options = OutOfFuel
  end.
Proof.
  unfold generateForEndpoint.
  destruct (find_language (language options)) as (lang & -> & Hid).
  destruct (buildUrl servers e options) as [url|err|] eqn:Hurl.
  - destruct (authHeaders options) as [a|err|] eqn:Ha.
    + assert (exists code, generator servers (language options) e options = Ok code
                           /\ includes url code = true) as (c & -> & Hc).
      { destruct (language options); unfold generator;
          unfold generateCurl, generateJavaScript, generatePython, generateNode,
                 generatePhp, generateJava, generateGo;
          rewrite ?allHeaders_authHeaders, Hurl, Ha;
          cbn [mbind Res_bind mret Res_ret]; cbv zeta.
        all: try (eexists; split; [reflexivity | find_in]).
        match goal with
        | |- context [match ?x with Some _ => _ | None => _ end = Ok _] => destruct x
        end; eexists; (split; [reflexivity | find_in]). }
      eexists. repeat split; done.
    + destruct (language options); unfold generator;
        unfold generateCurl, generateJavaScript, generatePython, generateNode,
               generatePhp, generateJava, generateGo;
        by rewrite ?allHeaders_authHeaders, Hurl, Ha.
    + destruct (language options); unfold generator;
        unfold generateCurl, generateJavaScript, generatePython, generateNode,
               generatePhp, generateJava, generateGo;
        by rewrite ?allHeaders_authHeaders, Hurl, Ha.
  - destruct (language options); unfold generator;
      unfold generateCurl, generateJavaScript, generatePython, generateNode,
             generatePhp, generateJava, generateGo;
      by rewrite Hurl.
  - destruct (language options); unfold generator;
      unfold generateCurl, generateJavaScript, generatePython, generateNode,
             generatePhp, generateJava, generateGo;
      by rewrite Hurl.
Qed.

End WithHost.

Lemma generateForEndpoint_ignores_body_witness :
  @generateForEndpoint standardHost standardPrinter usersServers friends
     (withBody (inLanguage Java None VUndef) (VObj [("name", VStr "Ann")]))
  = @generateForEndpoint standardHost standardPrinter usersServers friends
     (withBody (inLanguage Java None VUndef) VUndef).
Proof.
  apply (@generateForEndpoint_ignores_body standardHost standardPrinter usersServers friends
           (inLanguage Java None VUndef) (VObj [("name", VStr "Ann")]));
    discriminate.
Defined.

(** In Go the body shows even then: an object as body brings in an import
    that nothing uses. *)
Example generateGo_imports_json :
  exists with_body without,
    @generateForEndpoint standardHost standardPrinter usersServers friends
       (inLanguage Go None (VObj [("name", VStr "Ann")])) = Ok with_body /\
    @generateForEndpoint standardHost standardPrinter usersServers friends
       (inLanguage Go None VUndef) = Ok without /\
    includes "encoding/json" (code with_body) = true /\
    includes "json.Marshal" (code with_body) = false /\
    includes "encoding/json" (code without) = false.
Proof. do 2 eexists. repeat split; vm_compute; reflexivity. Qed.

(** Credentials that [btoa] refuses: the URL is built, and no snippet is
    generated, in any language. *)
Example generateForEndpoint_basic_euro (l : Language) :
  exists url,
    @buildUrl standardHost usersServers friends (inLanguage l (Some euroAuth) VUndef)
    = Ok url /\
    @generateForEndpoint standardHost standardPrinter usersServers friends
      (inLanguage l (Some euroAuth) VUndef) = Throw (Error "Invalid character").
Proof. eexists. split; [reflexivity |]. by destruct l. Qed.

Lemma generateForEndpoint_ignores_auth_witness :
  @generateForEndpoint standardHost standardPrinter usersServers friends
     (inLanguage Python (Some apiKeyInQuery) VUndef)
  = @generateForEndpoint standardHost standardPrinter usersServers friends
     (inLanguage Python None VUndef).
Proof.
  apply (@generateForEndpoint_ignores_auth standardHost standardPrinter usersServers friends
           (inLanguage Python (Some apiKeyInQuery) VUndef)).
  right. split; [discriminate | reflexivity].
Defined.

End GeneratorProofs.

(** ** Executing an operation *)

Module ExecutorProofs.
Import JS Types Platform Execute Executor StringFacts UrlExamples Operations.
#[local] Arguments append !s1 s2 / : simpl nomatch.

Lemma find_none_iff {A} (f : A -> bool) (l : list A) :
  (forall x, In x l -> f x = false) -> List.find f l = None.
Proof.
  induction l as [|y l IH]; simpl; [done |]. intros Hall.
  rewrite (Hall y) by auto. apply IH. auto.
Qed.

Lemma find_some_In {A} (f : A -> bool) (l : list A) (e : A) :
  In e l -> f e = true -> exists x, List.find f l = Some x /\ f x = true.
Proof.
  induction l as [|y l IH]; simpl; [done |]. intros [-> | Hin] He.
  - rewrite He. eauto.
  - destruct (f y) eqn:Ey; eauto.
Qed.

(** X23: the two hooks look an operation up by different members.  An id
    under which [generate] finds an endpoint is refused by [executeById]
    whenever no endpoint declares it as its [operationId]: the id derived
    for an operation that has none, for one. *)
Theorem executeById_needs_operationId `{Host} `{Generators.Printer} {Result : Type}
    (executeRequest : NormalizedEndpoint -> option ExecuteOperationParams -> Res Result)
    (servers : option (list Server)) (endpoints : list NormalizedEndpoint)
    (e : NormalizedEndpoint) (params : option ExecuteOperationParams)
    (options : Snippet.CodeSnippetOptions) :
  In e endpoints ->
  (forall x, In x endpoints -> operationId x <> Some (id e)) ->
  executeById executeRequest (Some endpoints) (id e) params = Throw (notFound (id e)) /\
  exists found,
    id found = id e /\
    Generators.generate servers (Some endpoints) (id e) options
    = Generators.generateForEndpoint servers found options.
Proof.
  intros Hin Hnone. split.
  - unfold executeById. rewrite find_none_iff; [done |].
    intros x Hx. apply bool_decide_eq_false. by apply Hnone.
  - unfold Generators.generate, Generators.findById.
    destruct (find_some_In (fun endpoint => String.eqb (id endpoint) (id e)) endpoints e Hin)
      as (found & -> & Hfound); [apply String.eqb_refl |].
    apply String.eqb_eq in Hfound. eauto.
Qed.

Lemma executeById_needs_operationId_witness :
  @executeById string (fun _ _ => Ok "sent") (Some [friends]) "op" None
  = Throw (notFound "op") /\
  exists found,
    id found = "op" /\
    @Generators.generate standardHost GeneratorExamples.standardPrinter
       GeneratorExamples.usersServers (Some [friends]) "op" sevenOptions
    = @Generators.generateForEndpoint standardHost GeneratorExamples.standardPrinter
        GeneratorExamples.usersServers found sevenOptions.
Proof.
  apply (@executeById_needs_operationId standardHost GeneratorExamples.standardPrinter string
           (fun _ _ => Ok "sent") GeneratorExamples.usersServers [friends] friends None
           sevenOptions); [simpl; tauto |].
  intros x [<- | []]. discriminate.
Defined.


(** *** The URL of the snippet and the URL of the request *)







(** The URL the two builders agree on in this example: the path of the
    server is dropped and the braces that are left are escaped. *)
Example buildUrl_of_the_request :
  @buildUrl standardHost None GeneratorExamples.usersServers friends
     (requestParams (Some [("id", SNum 7)]) (Some [("full", SBool true)]))
  = Ok "https://api.example.com/users/7/friends/%7Bid%7D?full=true".
Proof. vm_compute. reflexivity. Qed.

(** A value with a character that is escaped: the path of the request
    and the path of the snippet differ. *)
Example substitutePath_differ :
  substitutePath "/files/{name}" (Some [("name", SStr "a/b")]) = "/files/a%2Fb" /\
  Snippet.substitutePath "/files/{name}" (Some [("name", VStr "a/b")]) = "/files/a/b".
Proof. split; vm_compute; reflexivity. Qed.

(** *** What a path parameter cannot do *)

Lemma count_append c a b : count c (a +:+ b) = (count c a + count c b)%nat.
Proof. induction a as [|d a IH]; simpl; [done |]. rewrite IH. lia. Qed.

Lemma hexDigit_unreserved n : (n < 16)%nat -> isUnreserved (hexDigit n) = true.
Proof. intros Hn. do 16 (destruct n as [|n]; [by vm_compute |]). lia. Qed.

Lemma count_encoded c s :
  isUnreserved c = false -> c <> "%"%char -> count c (encodeURIComponent s) = 0%nat.
Proof.
  intros Hc Hp. induction s as [|d s IH]; [done |].
  rewrite UrlProofs.encodeURIComponent_cons.
  pose proof (nat_ascii_bounded d) as Hb.
  assert (forall x, isUnreserved x = true -> Ascii.eqb c x = false) as Hne.
  { intros x Hx. apply Ascii.eqb_neq. intros ->. congruence. }
  destruct (isUnreserved d) eqn:Hd; cbn [count]; rewrite IH.
  - by rewrite Hne.
  - rewrite (Hne (hexDigit (nat_of_ascii d / 16)))
      by (apply hexDigit_unreserved, Nat.Div0.div_lt_upper_bound; lia).
    rewrite (Hne (hexDigit (nat_of_ascii d mod 16)))
      by (apply hexDigit_unreserved, Nat.mod_upper_bound; lia).
    by apply Ascii.eqb_neq in Hp as ->.
Qed.

Lemma substitute_count c p entry :
  isUnreserved c = false -> c <> "%"%char ->
  (count c (substitute p entry) <= count c p)%nat.
Proof.
  intros Hc Hp. unfold substitute, replace.
  destruct (splitFirst _ p) as [[a b]|] eqn:E; [| done].
  apply splitFirst_sound in E. rewrite UrlProofs.getSubstitution_encoded.
  rewrite E, !count_append, count_encoded by done. lia.
Qed.

(** X25: the executor escapes what it puts into the path: the path after
    the substitution holds no more [/], [?], [#] or other character that
    [encodeURIComponent] escapes than the template does, so a value adds
    neither a segment nor a query to the URL. *)
Theorem substitutePath_adds_no_separator (c : ascii) (p : string)
    (pathParams : option (list (string * Scalar))) :
  isUnreserved c = false -> c <> "%"%char ->
  (count c (substitutePath p pathParams) <= count c p)%nat.
Proof.
  intros Hc Hp. unfold substitutePath.
  generalize (default [] pathParams). intros ps. revert p.
  induction ps as [|entry ps IH]; intros p; simpl; [done |].
  etrans; [apply IH | by apply substitute_count].
Qed.

Lemma substitutePath_adds_no_separator_witness :
  (count "/" (substitutePath "/files/{name}" (Some [("name", SStr "../../etc")]))
   <= count "/" "/files/{name}")%nat.
Proof.
  apply (substitutePath_adds_no_separator "/" "/files/{name}"
           (Some [("name", SStr "../../etc")])); [reflexivity | discriminate].
Defined.

End ExecutorProofs.
